(** * Voice-command parser: the rule-based NLP pipeline of [backend/nlp]

    A shallow embedding of [nlp/intent.py], [nlp/quantity.py],
    [nlp/filters.py], [nlp/categories.py], [nlp/language.py] and
    [nlp/parser.py], with the part of Python's [str] and [re] they use.

    Text.  A Python [str] is modelled as a list of characters, one [ascii]
    per code point, read as Latin-1 (code points 0..255).  This covers the
    English and Spanish input the program is written for, including the
    accented letters of its tables.  The character classes below are those of
    CPython's Unicode database restricted to that range; lower-casing stays
    inside the range, title-casing does not (see [title]).  Characters
    beyond the range are not modelled: among them are the few that
    [re.IGNORECASE] lets match an ASCII letter (the long s for "s", the
    dotless i for "i") and the digits of other scripts, which [\d] matches.
    A statement about every text is a statement about every Latin-1 text.

    Numbers.  [int] is the conversion of a run of digits, with the
    interpreter's limit on its length; [float] gives the double nearest to
    the decimal number written, as a rational.

    Around the parser.  The file also embeds the product search of
    [search_service.py], the suggestions of [recommendation.py], and the
    shopping-list operations and endpoints of [main.py].  The database is
    modelled by its two tables, each the list of its rows in key order, for
    one session at a time; what the program takes from libraries and the
    outside (the fuzzy matcher, the catalog file, the history query, the
    clock) is a parameter of the functions that use it. *)

From Stdlib Require Import List Bool Arith ZArith QArith Lia Ascii String.
Import ListNotations.
Close Scope Q_scope.
Close Scope string_scope.
Open Scope list_scope.
Open Scope nat_scope.

Set Implicit Arguments.

Definition str := list ascii.

(** Literals: [L "milk"] is the text of an ASCII literal; the few non-ASCII
    letters of the source are given by code point. *)
Definition L (s : string) : str := list_ascii_of_string s.
Definition chr (n : nat) : ascii := ascii_of_nat n.

Definition a_acute := chr 225.
Definition e_acute := chr 233.
Definition i_acute := chr 237.
Definition o_acute := chr 243.
Definition u_acute := chr 250.
Definition n_tilde := chr 241.
Definition A_acute := chr 193.
Definition E_acute := chr 201.
Definition I_acute := chr 205.
Definition O_acute := chr 211.
Definition U_acute := chr 218.
Definition N_tilde := chr 209.

(** ** Python [str] builtins *)
Module PyStr.

Definition code (c : ascii) : nat := nat_of_ascii c.

Definition between (lo hi n : nat) : bool := (lo <=? n) && (n <=? hi).

(** [\d] / [str.isdecimal]. *)
Definition is_digit (c : ascii) : bool := between 48 57 (code c).

(** [\s] and the characters removed by [str.strip()]. *)
Definition is_space (c : ascii) : bool :=
  let n := code c in
  between 9 13 n || between 28 32 n || (n =? 133) || (n =? 160).

(** [str.isalnum]. *)
Definition is_alnum (c : ascii) : bool :=
  let n := code c in
  between 48 57 n || between 65 90 n || between 97 122 n
  || (n =? 170) || (n =? 178) || (n =? 179) || (n =? 181) || (n =? 185)
  || (n =? 186) || between 188 190 n
  || between 192 214 n || between 216 246 n || between 248 255 n.

(** [\w]. *)
Definition is_word (c : ascii) : bool := is_alnum c || (code c =? 95).

Definition is_upper (c : ascii) : bool :=
  let n := code c in
  between 65 90 n || between 192 214 n || between 216 222 n.

Definition lower_char (c : ascii) : ascii :=
  if is_upper c then chr (code c + 32) else c.

(** [str.lower()]. *)
Definition lower (s : str) : str := map lower_char s.

Fixpoint lstrip (s : str) : str :=
  match s with
  | c :: s' => if is_space c then lstrip s' else s
  | [] => []
  end.

Definition rstrip (s : str) : str := rev (lstrip (rev s)).

(** [str.strip()]. *)
Definition strip (s : str) : str := rstrip (lstrip s).

Fixpoint str_eqb (a b : str) : bool :=
  match a, b with
  | [], [] => true
  | x :: a', y :: b' => Ascii.eqb x y && str_eqb a' b'
  | _, _ => false
  end.

Fixpoint startswith (p s : str) : bool :=
  match p, s with
  | [], _ => true
  | x :: p', y :: s' => Ascii.eqb x y && startswith p' s'
  | _ :: _, [] => false
  end.

(** [p in s] for strings. *)
Fixpoint contains (p s : str) : bool :=
  startswith p s ||
  match s with
  | _ :: s' => contains p s'
  | [] => false
  end.

(** [x in collection] for a collection of strings. *)
Definition mem (x : str) (l : list str) : bool := existsb (str_eqb x) l.

(** [s.split(sep)] for a one-character separator. *)
Fixpoint split_on (sep : ascii) (s : str) : list str :=
  match s with
  | [] => [[]]
  | c :: s' =>
      if Ascii.eqb c sep then [] :: split_on sep s'
      else match split_on sep s' with
           | w :: ws => (c :: w) :: ws
           | [] => [[c]]
           end
  end.

(** [sep.join(parts)]. *)
Fixpoint join (sep : str) (parts : list str) : str :=
  match parts with
  | [] => []
  | [w] => w
  | w :: ws => w ++ sep ++ join sep ws
  end.

(** [s.replace(c, "")] for a one-character [c]. *)
Definition remove_char (c : ascii) (s : str) : str :=
  filter (fun x => negb (Ascii.eqb x c)) s.

Definition digit_val (c : ascii) : Z := Z.of_nat (code c - 48).

Fixpoint digits_val (acc : Z) (s : str) : option Z :=
  match s with
  | [] => Some acc
  | c :: s' => if is_digit c then digits_val (10 * acc + digit_val c)%Z s' else None
  end.

(** [int(s)] on unsigned decimal text; [None] stands for [ValueError]:
    text that is not a run of digits, or a run of more than 4300 digits, the
    interpreter's default limit on the digits of a converted string. *)
Definition int (s : str) : option Z :=
  match s with
  | [] => None
  | _ => if 4300 <? List.length s then None else digits_val 0%Z s
  end.

Fixpoint span_digits (s : str) : str * str :=
  match s with
  | c :: s' => if is_digit c then let (d, r) := span_digits s' in (c :: d, r) else ([], s)
  | [] => ([], [])
  end.

(** [num / den] rounded to the nearest integer, a tie to the even one
    ([den > 0]). *)
Definition round_half_even (num den : Z) : Z :=
  let q := (num / den)%Z in
  match (2 * (num mod den) ?= den)%Z with
  | Lt => q
  | Gt => (q + 1)%Z
  | Eq => if Z.even q then q else (q + 1)%Z
  end.

(** The double (IEEE 754 binary64) nearest to [n / d], a tie to the one with
    an even significand, as the rational it stands for ([n >= 0], [d > 0]).
    The significand has 53 bits, the unit in the last place is [2 ^ e] and
    never below [2 ^ -1074].  [None] when the result is beyond the largest
    double: Python's [float] is then [inf], which [Q] does not hold. *)
Definition nearest_double (n d : Z) : option Q :=
  if (n <=? 0)%Z then Some 0%Q
  else
    let e0 := (Z.log2 n - Z.log2 d)%Z in
    let below :=
      if (0 <=? e0)%Z then (n <? d * 2 ^ e0)%Z else (n * 2 ^ (- e0) <? d)%Z in
    let lg := if below then (e0 - 1)%Z else e0 in
    let e := Z.max (lg - 52) (-1074) in
    if (0 <=? e)%Z then
      let v := (round_half_even n (d * 2 ^ e) * 2 ^ e)%Z in
      if (2 ^ 1024 <=? v)%Z then None else Some (Qmake v 1)
    else
      Some (Qred (Qmake (round_half_even (n * 2 ^ (- e)) d) (Z.to_pos (2 ^ (- e))))).

(** [float(s)] on text of the shape [\d+(\.\d+)?]: the double nearest to
    the decimal number written.  [None] stands for [ValueError] (text of
    another shape) and for a number beyond the largest double (see
    [nearest_double]). *)
Definition float (s : str) : option Q :=
  let (ip, r) := span_digits s in
  match ip, digits_val 0%Z ip, r with
  | _ :: _, Some n, [] => nearest_double n 1
  | _ :: _, Some n, dot :: fp =>
      if Ascii.eqb dot "."%char then
        match fp, digits_val n fp with
        | _ :: _, Some v => nearest_double v (10 ^ Z.of_nat (List.length fp))
        | _, _ => None
        end
      else None
  | _, _, _ => None
  end.

(** Cased characters ([str.islower] or [str.isupper]). *)
Definition is_cased (c : ascii) : bool :=
  let n := code c in
  between 65 90 n || between 97 122 n || (n =? 170) || (n =? 181) || (n =? 186)
  || between 192 214 n || between 216 246 n || between 248 255 n.

Definition is_lower_with_upper (c : ascii) : bool :=
  let n := code c in
  between 97 122 n || between 224 246 n || between 248 254 n.

(** Title-case form of one character, as code points: three Latin-1
    characters have a title-case form outside Latin-1 or of two characters. *)
Definition title_char (c : ascii) : list N :=
  let n := code c in
  if is_lower_with_upper c then [N.of_nat (n - 32)]
  else if n =? 181 then [924%N]
  else if n =? 223 then [83%N; 115%N]
  else if n =? 255 then [376%N]
  else [N.of_nat n].

Fixpoint title_from (previous_is_cased : bool) (s : str) : list N :=
  match s with
  | [] => []
  | c :: s' =>
      (if previous_is_cased then [N.of_nat (code (lower_char c))] else title_char c)
      ++ title_from (is_cased c) s'
  end.

(** [str.title()], as a list of code points. *)
Definition title (s : str) : list N := title_from false s.

End PyStr.

(** ** Python [re]: backtracking matcher for the operators the program uses *)
Module Re.
Import PyStr.

Inductive re : Type :=
| Eps
| Chr (c : ascii)
| Cls (f : ascii -> bool)
| Seq (a b : re)
| Alt (a b : re)
| Star (greedy : bool) (f : ascii -> bool)
| Bound
| Grp (a : re).

(** Matcher state: the text before the position (nearest character first),
    the text from the position on, and the text of capturing group 1. *)
Record mstate : Type := MState { prev : str; rest : str; grp1 : option str }.

Definition word_at (s : str) : bool :=
  match s with
  | c :: _ => is_word c
  | [] => false
  end.

(** [\b]. *)
Definition at_boundary (p r : str) : bool := xorb (word_at p) (word_at r).

Section Matcher.
Variable A : Type.

Fixpoint star_greedy (f : ascii -> bool) (k : mstate -> option A)
    (p r : str) (g : option str) : option A :=
  match r with
  | c :: r' =>
      if f c then
        match star_greedy f k (c :: p) r' g with
        | Some x => Some x
        | None => k (MState p r g)
        end
      else k (MState p r g)
  | [] => k (MState p r g)
  end.

Fixpoint star_lazy (f : ascii -> bool) (k : mstate -> option A)
    (p r : str) (g : option str) : option A :=
  match k (MState p r g) with
  | Some x => Some x
  | None =>
      match r with
      | c :: r' => if f c then star_lazy f k (c :: p) r' g else None
      | [] => None
      end
  end.

(** [m r k s]: match [r] at [s], then continue with [k]; alternatives are
    tried in the order of Python's engine and the first success is kept. *)
Fixpoint m (r : re) (k : mstate -> option A) (s : mstate) : option A :=
  match r with
  | Eps => k s
  | Chr c =>
      match rest s with
      | c' :: r' => if Ascii.eqb c c' then k (MState (c' :: prev s) r' (grp1 s)) else None
      | [] => None
      end
  | Cls f =>
      match rest s with
      | c' :: r' => if f c' then k (MState (c' :: prev s) r' (grp1 s)) else None
      | [] => None
      end
  | Seq a b => m a (m b k) s
  | Alt a b =>
      match m a k s with
      | Some x => Some x
      | None => m b k s
      end
  | Star greedy f =>
      if greedy then star_greedy f k (prev s) (rest s) (grp1 s)
      else star_lazy f k (prev s) (rest s) (grp1 s)
  | Bound => if at_boundary (prev s) (rest s) then k s else None
  | Grp a =>
      m a (fun s' =>
             k (MState (prev s') (rest s')
                  (Some (firstn (List.length (rest s) - List.length (rest s')) (rest s)))))
        s
  end.

End Matcher.

Definition match_at (r : re) (p t : str) : option mstate :=
  m r (@Some mstate) (MState p t None).

Fixpoint search_from (r : re) (p t : str) : option mstate :=
  match match_at r p t with
  | Some s => Some s
  | None =>
      match t with
      | c :: t' => search_from r (c :: p) t'
      | [] => None
      end
  end.

(** [re.search(r, t)]: the leftmost match. *)
Definition search (r : re) (t : str) : option mstate := search_from r [] t.

(** [bool(re.search(r, t))]. *)
Definition found (r : re) (t : str) : bool :=
  match search r t with
  | Some _ => true
  | None => false
  end.

(** [m.group(1)]. *)
Definition group1 (s : mstate) : str :=
  match grp1 s with
  | Some g => g
  | None => []
  end.

(** [sub_from r repl p t skip]: the replacement scan at position [(p, t)],
    where the next [skip] characters belong to a match already replaced.
    Every pattern the program substitutes consumes at least one character. *)
Fixpoint sub_from (r : re) (repl : str) (p t : str) (skip : nat) : str :=
  match t with
  | [] => []
  | c :: t' =>
      match skip with
      | S n => sub_from r repl (c :: p) t' n
      | O =>
          match match_at r p t with
          | Some s =>
              match List.length t - List.length (rest s) with
              | S n => repl ++ sub_from r repl (c :: p) t' n
              | O => c :: sub_from r repl (c :: p) t' 0
              end
          | None => c :: sub_from r repl (c :: p) t' 0
          end
      end
  end.

(** [re.sub(r, repl, t)] for a replacement without group references. *)
Definition sub (r : re) (repl : str) (t : str) : str := sub_from r repl [] t 0.

(** [re.escape(w)] as a pattern. *)
Fixpoint Lit (w : str) : re :=
  match w with
  | [] => Eps
  | c :: w' => Seq (Chr c) (Lit w')
  end.

(** A literal under [re.IGNORECASE]. *)
Fixpoint LitI (w : str) : re :=
  match w with
  | [] => Eps
  | c :: w' => Seq (Cls (fun x => Ascii.eqb (lower_char x) (lower_char c))) (LitI w')
  end.

Definition Fail : re := Cls (fun _ => false).

(** [r1|r2|...]. *)
Fixpoint alts (l : list re) : re :=
  match l with
  | [] => Fail
  | [r] => r
  | r :: l' => Alt r (alts l')
  end.

Definition Plus (f : ascii -> bool) : re := Seq (Cls f) (Star true f).
Definition Opt (r : re) : re := Alt r Eps.

(** [\b] + [re.escape(w)] + [\b]. *)
Definition word_re (w : str) : re := Seq Bound (Seq (Lit w) Bound).

(** [.] without [DOTALL]. *)
Definition dot (c : ascii) : bool := negb (code c =? 10).

End Re.

(** ** [schemas.py] *)
Module Schemas.

(** [Action = Literal["add", "remove", "modify", "search", "invalid"]]. *)
Definition Action : list str :=
  [L "add"; L "remove"; L "modify"; L "search"; L "invalid"].

(** [Filters]; [brand] holds title-cased text (code points), [price_max] the
    decimal value of the parsed number. *)
Record Filters : Type := mkFilters {
  brand : list N;
  price_max : Q;
  size : str
}.

Record ParsedVoiceCommand : Type := mkParsedVoiceCommand {
  action : str;
  item : str;
  quantity : Z;
  category : str;
  filters : Filters;
  language : str;
  raw_text : str
}.

(** A call either returns a value or raises. *)
Inductive outcome (A : Type) : Type :=
| Returned (a : A)
| Raised.
Arguments Raised {A}.

(** Building a [ParsedVoiceCommand] validates [action] against the literal
    type and raises [ValidationError] otherwise. *)
Definition new_ParsedVoiceCommand (c : ParsedVoiceCommand) : outcome ParsedVoiceCommand :=
  if PyStr.mem (action c) Action then Returned c else Raised.

Definition set_category (c : ParsedVoiceCommand) (cat : str) : ParsedVoiceCommand :=
  mkParsedVoiceCommand (action c) (item c) (quantity c) cat (filters c) (language c) (raw_text c).

End Schemas.

(** ** [nlp/language.py] *)
Module Language.
Import PyStr Re.

Definition spanish_keywords : re :=
  Seq Bound
    (Seq (Grp (alts (map Lit
            [L "necesito"; L "agrega"; L "a" ++ [n_tilde] ++ L "ade"; L "anade";
             L "busca"; L "quita"; L "borra"; L "elimina"])))
       Bound).

(** [detect_language], lines 10-37: the hint first, then accented characters,
    then Spanish keywords, else English. *)
Definition detect_language (text : str) (hint : option str) : str :=
  let from_hint :=
    match hint with
    | Some ((_ :: _) as h) =>
        let lowered := lower h in
        if startswith (L "es") lowered then Some (L "es")
        else if startswith (L "en") lowered then Some (L "en")
        else None
    | _ => None
    end in
  match from_hint with
  | Some l => l
  | None =>
      let t := lower text in
      if existsb (fun ch => contains [ch] t)
           [a_acute; e_acute; i_acute; o_acute; u_acute; n_tilde]
      then L "es"
      else if found spanish_keywords t then L "es"
      else L "en"
  end.

End Language.

(** ** [nlp/intent.py] *)
Module Intent.
Import PyStr Re.

Record ActionLexicon : Type := mkActionLexicon {
  add : list str;
  remove : list str;
  modify : list str;
  search : list str
}.

Definition LEXICON_EN : ActionLexicon :=
  mkActionLexicon
    [L "add"; L "need"; L "buy"; L "get"; L "grab"; L "pick up"]
    [L "remove"; L "delete"; L "drop"; L "take off"; L "clear"]
    [L "change"; L "modify"; L "update"; L "set"]
    [L "search"; L "find"; L "look for"; L "show"].

Definition LEXICON_ES : ActionLexicon :=
  mkActionLexicon
    [L "agrega"; L "a" ++ [n_tilde] ++ L "ade"; L "anade"; L "necesito";
     L "compra"; L "comprar"; L "quiero"]
    [L "elimina"; L "borra"; L "quita"; L "remueve"]
    [L "cambia"; L "modifica"; L "actualiza"; L "pon"; L "establece"; L "ajusta"]
    [L "busca"; L "encuentra"; L "buscar"; L "muestra"].

(** [_has_any], lines 33-34: a whole-word search for each word. *)
Definition _has_any (text : str) (words : list str) : bool :=
  existsb (fun w => found (word_re w) text) words.

(** [\bno\s+agregues?\b] *)
Definition negated_add_es : re :=
  Seq Bound (Seq (Lit (L "no")) (Seq (Plus is_space)
    (Seq (Lit (L "agregue")) (Seq (Opt (Chr "s")) Bound)))).

(** [\b(do\s*not|don't|dont)\s+add\b] *)
Definition negated_add_en : re :=
  Seq Bound
    (Seq (Grp (alts [Seq (Lit (L "do")) (Seq (Star true is_space) (Lit (L "not")));
                     Lit (L "don't"); Lit (L "dont")]))
       (Seq (Plus is_space) (Seq (Lit (L "add")) Bound))).

(** [_is_negated_add], lines 37-46. *)
Definition _is_negated_add (text language : str) : bool :=
  if str_eqb language (L "es") then found negated_add_es text
  else found negated_add_en text.

Definition stop_phrases : list str :=
  [L "how"; L "why"; L "what"; L "make"; L "recipe"].

(** [\b(one|two|three|four|five|six|seven|eight|nine|ten|\d+)\b\s+\w+] *)
Definition quantity_noun_pattern : re :=
  Seq Bound
    (Seq (Grp (alts (map Lit [L "one"; L "two"; L "three"; L "four"; L "five";
                              L "six"; L "seven"; L "eight"; L "nine"; L "ten"]
                     ++ [Plus is_digit])))
       (Seq Bound (Seq (Plus is_space) (Plus is_word)))).

(** [detect_intent], lines 49-83: the tests in source order, first hit wins. *)
Definition detect_intent (text language : str) : str :=
  let t := strip (lower text) in
  let lex := if str_eqb language (L "es") then LEXICON_ES else LEXICON_EN in
  if existsb (fun phrase => contains phrase t) stop_phrases then L "invalid"
  else if _is_negated_add t language then L "search"
  else if _has_any t (search lex) then L "search"
  else if _has_any t (remove lex) then L "remove"
  else if _has_any t (modify lex) then L "modify"
  else
    let has_add_kw := _has_any t (add lex) in
    let has_quantity_noun := found quantity_noun_pattern t in
    if has_add_kw || has_quantity_noun then L "add"
    else L "invalid".

End Intent.

(** ** [nlp/quantity.py] *)
Module Quantity.
Import PyStr Re.

Definition NUMBER_WORDS_EN : list (str * Z) :=
  [(L "one", 1); (L "two", 2); (L "three", 3); (L "four", 4); (L "five", 5);
   (L "six", 6); (L "seven", 7); (L "eight", 8); (L "nine", 9); (L "ten", 10)]%Z.

Definition NUMBER_WORDS_ES : list (str * Z) :=
  [(L "uno", 1); (L "una", 1); (L "dos", 2); (L "tres", 3); (L "cuatro", 4);
   (L "cinco", 5); (L "seis", 6); (L "siete", 7); (L "ocho", 8); (L "nueve", 9);
   (L "diez", 10)]%Z.

(** [\b(\d+)\b] *)
Definition digits_re : re := Seq Bound (Seq (Grp (Plus is_digit)) Bound).

(** [\s+] *)
Definition spaces_re : re := Plus is_space.

(** The loop over [words.items()]: the first table word found replaces the
    quantity and is blanked; the loop then stops. *)
Fixpoint number_word_pass (words : list (str * Z)) (quantity : Z) (cleaned_text : str)
    : Z * str :=
  match words with
  | [] => (quantity, cleaned_text)
  | (w, v) :: words' =>
      if found (word_re w) cleaned_text
      then (v, sub (word_re w) (L " ") cleaned_text)
      else number_word_pass words' quantity cleaned_text
  end.

Definition number_words (language : str) : list (str * Z) :=
  if str_eqb language (L "es") then NUMBER_WORDS_ES else NUMBER_WORDS_EN.

(** The digit pass: quantity and working copy after it. *)
Definition digit_pass (t : str) : Z * str :=
  match Re.search digits_re t with
  | Some mt =>
      match int (group1 mt) with
      | Some q =>
          if (q >? 0)%Z then (q, sub (word_re (group1 mt)) (L " ") t)
          else (1%Z, t)
      | None => (1%Z, t)
      end
  | None => (1%Z, t)
  end.

(** [extract_quantity], lines 37-67; it returns the pair (quantity,
    cleaned text). *)
Definition extract_quantity (text language : str) : Z * str :=
  let t := lower text in
  let (quantity, cleaned_text) := digit_pass t in
  let (quantity', cleaned_text') :=
    number_word_pass (number_words language) quantity cleaned_text in
  (quantity', strip (sub spaces_re (L " ") cleaned_text')).

End Quantity.

(** ** [nlp/filters.py] *)
Module Filters.
Import PyStr Re Schemas.

Definition SIZE_KEYWORDS : list (str * str) :=
  [(L "small", L "small");
   (L "peque" ++ [chr 195; chr 177] ++ L "o", L "small");
   (L "chico", L "small");
   (L "medium", L "medium");
   (L "mediano", L "medium");
   (L "large", L "large");
   (L "grande", L "large");
   (L "500ml", L "500ml");
   (L "1l", L "1L");
   (L "1 l", L "1L");
   (L "2kg", L "2kg");
   (L "2 kg", L "2kg");
   (L "1kg", L "1kg")].

(** [(\d+(?:\.\d+)?)] *)
Definition number_group : re :=
  Grp (Seq (Plus is_digit) (Opt (Seq (Chr ".") (Plus is_digit)))).

Definition price_triggers_en : list str :=
  [L "under"; L "below"; L "less than"; L "cheaper than"; L "<="].

Definition price_triggers_es : list str :=
  [L "menor que"; L "bajo"; L "menos de"; L "por debajo de"; L "hasta"; L "<="].

(** [(?:t1|t2|...).*?(\d+(?:\.\d+)?)] with [re.IGNORECASE] *)
Definition price_re (triggers : list str) : re :=
  Seq (alts (map LitI triggers)) (Seq (Star false dot) number_group).

(** [_extract_price_max], lines 27-38: the English pattern, then the Spanish
    one when the English one finds nothing.  The matched group always has
    the shape [float] accepts; for a number beyond the largest double Python
    returns [inf], which has no counterpart here. *)
Definition _extract_price_max (text : str) : Q :=
  let t := lower text in
  let m :=
    match Re.search (price_re price_triggers_en) t with
    | Some m => Some m
    | None => Re.search (price_re price_triggers_es) t
    end in
  match m with
  | None => 0%Q
  | Some m =>
      match float (group1 m) with
      | Some v => v
      | None => 0%Q
      end
  end.

Definition ascii_alnum (c : ascii) : bool :=
  let n := code c in between 97 122 n || between 65 90 n || between 48 57 n.

Definition word_or_hyphen (c : ascii) : bool := is_word c || Ascii.eqb c "-".

(** [\b(?:brand|from|marca|de)\s+([a-zA-Z0-9][\w\-]+)] with [re.IGNORECASE] *)
Definition brand_re : re :=
  Seq Bound
    (Seq (alts (map LitI [L "brand"; L "from"; L "marca"; L "de"]))
       (Seq (Plus is_space) (Grp (Seq (Cls ascii_alnum) (Plus word_or_hyphen))))).

(** [_extract_brand], lines 41-63.  [catalog] stands for the set [brands]
    read from [mock_products.json], a file that is not part of the sources:
    the lower-cased, non-empty brand names in the order the loop visits them,
    or [None] when reading the file raises (the exception is caught). *)
Definition _extract_brand (catalog : option (list str)) (text : str) : list N :=
  let t := lower text in
  let brand_found :=
    match Re.search brand_re t with
    | Some m => group1 m
    | None => []
    end in
  let static := match brand_found with [] => [] | _ => title brand_found end in
  match catalog with
  | Some brands =>
      match find (fun b => found (word_re b) t) brands with
      | Some b => title b
      | None => static
      end
  | None => static
  end.

(** [\b(\d+(?:\.\d+)?\s*(?:ml|l|kg|g|oz|lb))\b] *)
Definition generic_size_re : re :=
  Seq Bound
    (Seq (Grp (Seq (Plus is_digit)
                 (Seq (Opt (Seq (Chr ".") (Plus is_digit)))
                    (Seq (Star true is_space)
                       (alts (map Lit [L "ml"; L "l"; L "kg"; L "g"; L "oz"; L "lb"]))))))
       Bound).

(** The loop over [SIZE_KEYWORDS.items()], lines 72-74. *)
Fixpoint size_keyword_pass (t : str) (table : list (str * str)) : option str :=
  match table with
  | [] => None
  | (keyword, size_value) :: table' =>
      if found (word_re keyword) t then Some size_value
      else size_keyword_pass t table'
  end.

(** [_extract_size], lines 66-81. *)
Definition _extract_size (text : str) : str :=
  let t := lower text in
  match size_keyword_pass t SIZE_KEYWORDS with
  | Some size_value => size_value
  | None =>
      match Re.search generic_size_re t with
      | Some m => remove_char " " (group1 m)
      | None => []
      end
  end.

(** [extract_filters], lines 84-91. *)
Definition extract_filters (catalog : option (list str)) (text : str) : Filters :=
  let brand := _extract_brand catalog text in
  let size := _extract_size text in
  let price_max := _extract_price_max text in
  mkFilters brand price_max size.

End Filters.

(** ** [nlp/categories.py] *)
Module Categories.
Import PyStr.

Definition CATEGORY_KEYWORDS : list (str * list str) :=
  [(L "dairy", [L "milk"; L "cheese"; L "yogurt"; L "butter"]);
   (L "produce", [L "apple"; L "apples"; L "banana"; L "bananas"; L "lettuce";
                  L "tomato"; L "tomatoes"; L "onion"; L "onions"]);
   (L "snacks", [L "chips"; L "cookies"; L "crackers"; L "granola"]);
   (L "beverages", [L "water"; L "juice"; L "soda"; L "coffee"; L "tea"]);
   (L "bakery", [L "bread"; L "bagel"; L "croissant"]);
   (L "pantry", [L "rice"; L "pasta"; L "beans"; L "flour"; L "sugar"; L "salt"])].

(** [categorize_item], lines 13-23: the first category, in table order, one
    of whose keywords is a substring of the lower-cased item. *)
Definition categorize_item (item : str) : str :=
  match item with
  | [] => L "other"
  | _ =>
      let item_l := lower item in
      match find (fun cw => existsb (fun w => contains w item_l) (snd cw)) CATEGORY_KEYWORDS with
      | Some cw => fst cw
      | None => L "other"
      end
  end.

End Categories.

(** ** [nlp/parser.py] *)
Module Parser.
Import PyStr Re Schemas.

(** [[^a-zA-Z0-9áéíóúñÁÉÍÓÚÑ\s\-]] *)
Definition not_item_char (c : ascii) : bool :=
  negb (Filters.ascii_alnum c
        || existsb (Ascii.eqb c)
             [a_acute; e_acute; i_acute; o_acute; u_acute; n_tilde;
              A_acute; E_acute; I_acute; O_acute; U_acute; N_tilde]
        || is_space c
        || Ascii.eqb c "-").

(** [\b\d+\b] *)
Definition bare_digits_re : re := Seq Bound (Seq (Plus is_digit) Bound).

(** [\b(w1|w2|...)\b] *)
Definition any_word_re (ws : list str) : re :=
  Seq Bound (Seq (Grp (alts (map Lit ws))) Bound).

Definition containers_en : list str :=
  [L "bottle"; L "bottles"; L "pack"; L "packs"; L "bag"; L "bags";
   L "box"; L "boxes"; L "cans"; L "can"].

Definition containers_es : list str :=
  [L "botella"; L "botellas"; L "paquete"; L "paquetes"; L "bolsa"; L "bolsas";
   L "caja"; L "cajas"; L "latas"; L "lata"].

Definition stopwords_en : list str :=
  [L "a"; L "an"; L "the"; L "some"; L "of"; L "to"; L "for"; L "please";
   L "me"; L "i"; L "we"; L "need"; L "want"; L "buy"; L "add"; L "remove";
   L "delete"; L "change"; L "set"; L "update"; L "modify"; L "search";
   L "find"; L "look"; L "show"; L "get"].

Definition stopwords_es : list str :=
  [L "un"; L "una"; L "unos"; L "unas"; L "el"; L "la"; L "los"; L "las";
   L "de"; L "del"; L "por"; L "para"; L "porfavor"; L "por"; L "favor";
   L "yo"; L "necesito"; L "quiero"; L "compra"; L "agrega";
   L "a" ++ [n_tilde] ++ L "ade"; L "anade"; L "quita"; L "borra";
   L "elimina"; L "cambia"; L "modifica"; L "actualiza"; L "busca"; L "muestra"].

(** [extract_item], lines 21-105. *)
Definition extract_item (text language : str) : str :=
  let t := lower (sub (Cls not_item_char) (L " ") text) in
  let t := strip (sub Quantity.spaces_re (L " ") t) in
  let t := strip (sub bare_digits_re (L " ") t) in
  let t := strip (sub (any_word_re containers_en) (L " ") t) in
  let t := strip (sub (any_word_re containers_es) (L " ") t) in
  let t := strip (sub (any_word_re [L "of"; L "de"]) (L " ") t) in
  let stop := if str_eqb language (L "es") then stopwords_es else stopwords_en in
  let tokens :=
    filter (fun tok => match tok with [] => false | _ => negb (mem tok stop) end)
      (split_on " " t) in
  strip (join (L " ") tokens).

(** The process environment of a call: the two variables read by
    [_openai_parse], and what the remote model answers.  [openai_reply text
    language] stands for the part of [_openai_parse] after the two guards:
    [Raised] when constructing the client or the API call raises (neither is
    inside a [try]), [Returned None] when the import or JSON decoding fails
    (both caught), [Returned (Some data)] for the decoded fields. *)
Record Env : Type := mkEnv {
  OPENAI_API_KEY : option str;
  ENABLE_OPENAI_PARSER : option str;
  mock_products : option (list str);
  openai_reply : str -> str -> outcome (option ParsedVoiceCommand)
}.

(** [_openai_parse], lines 108-159: the two guards, then the remote call;
    [language] and [raw_text] are overwritten before validation, and a
    validation failure is caught. *)
Definition _openai_parse (env : Env) (text language : str)
    : outcome (option ParsedVoiceCommand) :=
  match OPENAI_API_KEY env with
  | None | Some [] => Returned None
  | Some (_ :: _) =>
      let flag := match ENABLE_OPENAI_PARSER env with Some v => v | None => L "false" end in
      if negb (mem (lower flag) [L "1"; L "true"; L "yes"]) then Returned None
      else
        match openai_reply env text language with
        | Raised => Raised
        | Returned None => Returned None
        | Returned (Some data) =>
            let data :=
              mkParsedVoiceCommand (action data) (item data) (quantity data)
                (category data) (Schemas.filters data) language text in
            match new_ParsedVoiceCommand data with
            | Returned c => Returned (Some c)
            | Raised => Returned None
            end
        end
  end.

(** Lines 179-201: the rule-based pipeline. *)
Definition rule_based (env : Env) (text language : str) : outcome ParsedVoiceCommand :=
  let action := Intent.detect_intent text language in
  let filters := Filters.extract_filters (mock_products env) text in
  let (quantity, cleaned_text) := Quantity.extract_quantity text language in
  let item := extract_item cleaned_text language in
  let category := Categories.categorize_item item in
  let quantity :=
    if mem action [L "remove"; L "modify"] && match item with [] => true | _ => false end
    then Z.max 1 quantity else quantity in
  new_ParsedVoiceCommand
    (mkParsedVoiceCommand action item (Z.max 1 quantity) category
       (mkFilters (brand filters) (price_max filters) [])
       language text).

(** [parse_voice_command], lines 162-201. *)
Definition parse_voice_command (env : Env) (text : str) (language_hint : option str)
    : outcome ParsedVoiceCommand :=
  let language := Language.detect_language text language_hint in
  match _openai_parse env text language with
  | Raised => Raised
  | Returned (Some parsed) =>
      if match category parsed with [] => true | _ => false end
         || str_eqb (category parsed) (L "other")
      then Returned (set_category parsed (Categories.categorize_item (item parsed)))
      else Returned parsed
  | Returned None => rule_based env text language
  end.

End Parser.

(** ** [search_service.py] *)
Module SearchService.
Import PyStr.

(** A product of [mock_products.json]: a JSON object in which any of the
    keys the service reads may be absent. *)
Record Product : Type := mkProduct {
  p_name : option str;
  p_brand : option str;
  p_size : option str;
  p_price : option Q
}.

(** [p.get(key, "")] *)
Definition get (field : option str) : str :=
  match field with
  | Some v => v
  | None => []
  end.

(** [p.get("price", 0)] *)
Definition get_price (p : Product) : Q :=
  match p_price p with
  | Some v => v
  | None => 0%Q
  end.

Definition is_empty {A : Type} (l : list A) : bool :=
  match l with
  | [] => true
  | _ :: _ => false
  end.

(** [filter_by_name], lines 37-41. *)
Definition filter_by_name (items : list Product) (query : str) : list Product :=
  if is_empty query then items
  else
    let query_lower := lower query in
    filter (fun p => contains query_lower (lower (get (p_name p)))) items.

(** [filter_by_size], lines 49-53. *)
Definition filter_by_size (items : list Product) (size : str) : list Product :=
  if is_empty size then items
  else
    let size_lower := lower size in
    filter (fun p => contains size_lower (lower (get (p_size p)))) items.

(** [filter_by_price], lines 55-58. *)
Definition filter_by_price (items : list Product) (price_max : Q) : list Product :=
  if Qle_bool price_max 0 then items
  else filter (fun p => Qle_bool (get_price p) price_max) items.

(** A Latin-1 text as code points, and [p in s] on code points. *)
Definition codes (s : str) : list N := map (fun c => N.of_nat (code c)) s.

Fixpoint startswith_codes (p s : list N) : bool :=
  match p, s with
  | [], _ => true
  | x :: p', y :: s' => N.eqb x y && startswith_codes p' s'
  | _ :: _, [] => false
  end.

Fixpoint contains_codes (p s : list N) : bool :=
  startswith_codes p s ||
  match s with
  | _ :: s' => contains_codes p s'
  | [] => false
  end.

Section Services.

(** [get_close_matches word possibilities] stands for the standard library's
    [difflib.get_close_matches(word, possibilities, n=3, cutoff=0.5)]. *)
Variable get_close_matches : str -> list str -> list str.

(** [lower_codes] stands for [str.lower] on a text given by its code points
    (the brand of [Filters], which need not be Latin-1). *)
Variable lower_codes : list N -> list N.

(** [filter_by_brand], lines 43-47. *)
Definition filter_by_brand (items : list Product) (brand : list N) : list Product :=
  if is_empty brand then items
  else
    let brand_lower := lower_codes brand in
    filter (fun p => contains_codes brand_lower (codes (lower (get (p_brand p))))) items.

(** [fuzzy_match_item] of [nlp/fuzzy.py], lines 11-19, as called here (with
    an explicit list of known items and the cutoff 0.5). *)
Definition fuzzy_match_item (query : str) (known_items : list str) : list str :=
  get_close_matches (strip (lower query)) known_items.

(** [apply_fuzzy_match], lines 60-68. *)
Definition apply_fuzzy_match (items : list Product) (query : str) : list Product :=
  if is_empty query || is_empty items then []
  else
    let query_lower := lower query in
    let product_names := map (fun p => get (p_name p)) items in
    let fuzzy_matches := fuzzy_match_item query_lower product_names in
    if negb (is_empty fuzzy_matches)
    then filter (fun p => mem (get (p_name p)) fuzzy_matches) items
    else [].

(** [search], lines 70-94, on the loaded product list. *)
Definition search (products : list Product) (query : str) (filters : Schemas.Filters)
    : list Product :=
  let results := products in
  let name_matches := filter_by_name results query in
  let name_matches :=
    if is_empty name_matches && negb (is_empty query)
    then apply_fuzzy_match results query
    else name_matches in
  let results := if negb (is_empty name_matches) then name_matches else results in
  let results := filter_by_brand results (Schemas.brand filters) in
  let results := filter_by_size results (Schemas.size filters) in
  let results := filter_by_price results (Schemas.price_max filters) in
  results.

End Services.

End SearchService.

(** ** [models.py] *)
Module Models.

(** A row of the table [shopping_items].  The primary key and the two time
    stamps are left out: the functions modelled below never read them, and
    rows are kept in the order of their keys. *)
Record ShoppingItem : Type := mkShoppingItem {
  name : str;
  quantity : Z;
  category : str;
  brand : str;
  price : Q;
  size : str
}.

(** A row of the table [user_history], without key and time stamp. *)
Record UserHistory : Type := mkUserHistory {
  item_name : str;
  purchase_count : Z;
  search_count : Z
}.

End Models.

(** ** [recommendation.py] *)
Module Recommendation.
Import PyStr.

(** [SUBSTITUTE_MAP], in the order of the dictionary's keys. *)
Definition SUBSTITUTE_MAP : list (str * list str) :=
  [ (L "milk", [L "almond milk"; L "soy milk"; L "oat milk"]);
    (L "sugar", [L "brown sugar"; L "stevia"]);
    (L "butter", [L "olive oil"; L "ghee"; L "margarine"]);
    (L "eggs", [L "flax eggs"; L "chia eggs"]);
    (L "chips", [L "popcorn"; L "pretzels"]) ].

(** [seasonal_items_for_month], lines 24-33. *)
Definition seasonal_items_for_month (month : Z) : list str :=
  if existsb (Z.eqb month) [6; 7; 8]%Z then [L "watermelon"; L "mango"; L "cold drinks"]
  else if existsb (Z.eqb month) [12; 1; 2]%Z then [L "soup"; L "oranges"]
  else if existsb (Z.eqb month) [3; 4; 5]%Z then [L "strawberries"; L "asparagus"; L "spinach"]
  else [L "pumpkin"; L "apples"; L "cinnamon"].

(** The loop of [_dedupe_preserve_order], lines 39-44, from a given set
    [seen]; the set is only tested for membership. *)
Fixpoint _dedupe_from (seen : list str) (items : list str) : list str :=
  match items with
  | [] => []
  | x :: rest =>
      let k := lower (strip x) in
      if SearchService.is_empty k || mem k seen then _dedupe_from seen rest
      else x :: _dedupe_from (k :: seen) rest
  end.

(** [_dedupe_preserve_order], lines 36-45. *)
Definition _dedupe_preserve_order (items : list str) : list str :=
  _dedupe_from [] items.

(** [items[:limit]] for an integer [limit]; a negative limit counts from the
    end. *)
Definition slice_to {A : Type} (items : list A) (limit : Z) : list A :=
  if (0 <=? limit)%Z then firstn (Z.to_nat limit) items
  else firstn (Z.to_nat (Z.of_nat (List.length items) + limit)) items.

(** The inner loop over [SUBSTITUTE_MAP.items()]: the substitutes of every
    key that occurs in [text]. *)
Definition substitutes_in (text : str) : list str :=
  flat_map (fun entry => if contains (fst entry) text then snd entry else [])
           SUBSTITUTE_MAP.

(** [get_substitutes_for_items], lines 89-96. *)
Definition get_substitutes_for_items (current_items : list Models.ShoppingItem) (limit : Z)
    : list str :=
  let base := map (fun i => lower (Models.name i)) current_items in
  let suggestions := flat_map substitutes_in base in
  slice_to (_dedupe_preserve_order suggestions) limit.

(** [get_substitutes_for_query], lines 98-107. *)
Definition get_substitutes_for_query (query : str) (limit : Z) : list str :=
  let q := strip (lower query) in
  let suggestions := substitutes_in q in
  slice_to (_dedupe_preserve_order suggestions) limit.

(** [SuggestionGroup] of [schemas.py]. *)
Record SuggestionGroup : Type := mkSuggestionGroup {
  previous : list str;
  seasonal : list str;
  substitutes : list str;
  all : list str
}.

(** [get_combined_suggestions], lines 109-115.  [history] is the answer of
    [get_history_based], a database query, and [month] the current month of
    [get_seasonal]. *)
Definition get_combined_suggestions (history : list str) (month : Z)
    (current_items : list Models.ShoppingItem) : SuggestionGroup :=
  let previous := history in
  let seasonal := seasonal_items_for_month month in
  let substitutes := get_substitutes_for_items current_items 5 in
  let all_s := _dedupe_preserve_order (previous ++ seasonal ++ substitutes) in
  mkSuggestionGroup previous seasonal substitutes all_s.

End Recommendation.

(** ** [main.py]: the shopping list and the interaction history *)
Module Main.
Import PyStr Models.

(** The exceptions the list operations raise or let through.
    [AppValidationError] is the class of line 221, a plain [Exception]: it
    replaces the class of the same name of line 47 before [_upsert_item] is
    defined.  [RequestValidationError] is what the framework raises for a
    request body that violates its schema, before the endpoint runs;
    [ParserError] is any exception that leaves [parse_voice_command]. *)
Inductive exn : Type :=
| AppValidationError (message : str)
| HTTPException (status_code : Z) (detail : str)
| MultipleResultsFound
| NoResultFound
| KeyError (key : str)
| RequestValidationError
| ParserError.

Inductive result (A : Type) : Type :=
| Ok (a : A)
| Raise (e : exn).

Arguments Ok {A} a.
Arguments Raise {A} e.

(** A table is the list of its rows, in the order of their keys; a new row
    gets the largest key and goes last. *)
Definition name_is (norm : str) (r : ShoppingItem) : bool := str_eqb (name r) norm.

(** [select(ShoppingItem).where(ShoppingItem.name == norm)] *)
Definition select_by_name (table : list ShoppingItem) (norm : str) : list ShoppingItem :=
  filter (name_is norm) table.

(** [Result.scalar_one_or_none] and [Result.scalar_one]. *)
Definition scalar_one_or_none {A : Type} (rows : list A) : result (option A) :=
  match rows with
  | [] => Ok None
  | [r] => Ok (Some r)
  | _ :: _ :: _ => Raise MultipleResultsFound
  end.

Definition scalar_one {A : Type} (rows : list A) : result A :=
  match rows with
  | [] => Raise NoResultFound
  | [r] => Ok r
  | _ :: _ :: _ => Raise MultipleResultsFound
  end.

(** Committing a change [f] of the one row selected by its name, and the
    deletion of that row. *)
Definition update_named (norm : str) (f : ShoppingItem -> ShoppingItem)
    (table : list ShoppingItem) : list ShoppingItem :=
  map (fun r => if name_is norm r then f r else r) table.

Definition delete_named (norm : str) (table : list ShoppingItem) : list ShoppingItem :=
  filter (fun r => negb (name_is norm r)) table.

(** [db.add(row); db.commit()] under the constraint
    [uq_shopping_items_name]: [None] stands for the [IntegrityError]. *)
Definition add_row (table : list ShoppingItem) (row : ShoppingItem)
    : option (list ShoppingItem) :=
  if existsb (name_is (name row)) table then None else Some (table ++ [row]).

Definition set_quantity (q : Z) (r : ShoppingItem) : ShoppingItem :=
  mkShoppingItem (name r) q (category r) (brand r) (price r) (size r).

Definition set_category (c : str) (r : ShoppingItem) : ShoppingItem :=
  mkShoppingItem (name r) (quantity r) c (brand r) (price r) (size r).

(** [a or b] on strings. *)
Definition or_else (a b : str) : str :=
  if SearchService.is_empty a then b else a.

(** The loop of [_upsert_item] over the catalog, lines 243-251: the first
    product of that very name, otherwise the first one whose name contains
    [norm] or is contained in it.  Reading the name of a product that has
    none raises [KeyError]. *)
Fixpoint lookup_product (norm : str) (best_match : option SearchService.Product)
    (products : list SearchService.Product) : result (option SearchService.Product) :=
  match products with
  | [] => Ok best_match
  | p :: rest =>
      match SearchService.p_name p with
      | None => Raise (KeyError (L "name"))
      | Some n =>
          let p_name := lower n in
          if str_eqb p_name norm then Ok (Some p)
          else if contains norm p_name || contains p_name norm then
            lookup_product norm
              (match best_match with None => Some p | Some _ => best_match end) rest
          else lookup_product norm best_match rest
      end
  end.

(** [_upsert_item], lines 224-273, on the catalog [_products()] and the
    table [shopping_items]. *)
Definition _upsert_item (products : list SearchService.Product)
    (table : list ShoppingItem) (name : str) (quantity : Z) (category : str)
    : result (list ShoppingItem) :=
  if (quantity <=? 0)%Z || (100 <? quantity)%Z then
    Raise (AppValidationError (L "Quantity must be between 1 and 100"))
  else
    let norm := lower (strip name) in
    if SearchService.is_empty norm then
      Raise (HTTPException 400 (L "No item detected in voice command."))
    else
      match scalar_one_or_none (select_by_name table norm) with
      | Raise e => Raise e
      | Ok (Some existing) =>
          Ok (update_named norm
                (fun r =>
                   set_category (or_else category (or_else (Models.category r) (L "other")))
                     (set_quantity (Models.quantity r + Z.max 1 quantity) r))
                table)
      | Ok None =>
          match lookup_product norm None products with
          | Raise e => Raise e
          | Ok best_match =>
              let brand :=
                match best_match with
                | Some p => SearchService.get (SearchService.p_brand p)
                | None => []
                end in
              let price :=
                match best_match with
                | Some p => SearchService.get_price p
                | None => 0%Q
                end in
              let size :=
                match best_match with
                | Some p => SearchService.get (SearchService.p_size p)
                | None => []
                end in
              let row :=
                mkShoppingItem norm (Z.max 1 quantity) (or_else category (L "other"))
                  brand price size in
              match add_row table row with
              | Some table' => Ok table'
              | None =>
                  match scalar_one (select_by_name table norm) with
                  | Raise e => Raise e
                  | Ok existing =>
                      Ok (update_named norm
                            (fun r => set_quantity (Models.quantity r + Z.max 1 quantity) r)
                            table)
                  end
              end
          end
      end.

(** [_modify_item], lines 276-292. *)
Definition _modify_item (table : list ShoppingItem) (name : str) (quantity : Z)
    (category : str) : result (list ShoppingItem) :=
  if (quantity <? 0)%Z || (100 <? quantity)%Z then
    Raise (HTTPException 400 (L "Quantity must be between 0 and 100"))
  else
    let norm := lower (strip name) in
    if SearchService.is_empty norm then
      Raise (HTTPException 400 (L "No item detected to modify."))
    else
      match scalar_one_or_none (select_by_name table norm) with
      | Raise e => Raise e
      | Ok None => Raise (HTTPException 404 (L "Item '" ++ norm ++ L "' not found."))
      | Ok (Some existing) =>
          if (quantity =? 0)%Z then Ok (delete_named norm table)
          else
            Ok (update_named norm
                  (fun r =>
                     let r := set_quantity quantity r in
                     if SearchService.is_empty category then r else set_category category r)
                  table)
      end.

(** What [_remove_item] reports: the item is not in the list, or so many
    units were removed and so many remain. *)
Inductive removal : Type :=
| ItemNotFound
| Removed (removed remaining : Z).

(** [_remove_item], lines 295-315. *)
Definition _remove_item (table : list ShoppingItem) (name : str) (quantity : Z)
    : result (list ShoppingItem * removal) :=
  let norm := lower (strip name) in
  if SearchService.is_empty norm then Ok (table, ItemNotFound)
  else
    match scalar_one_or_none (select_by_name table norm) with
    | Raise e => Raise e
    | Ok None => Ok (table, ItemNotFound)
    | Ok (Some existing) =>
        if (0 <? quantity)%Z && (quantity <? Models.quantity existing)%Z then
          Ok (update_named norm (fun r => set_quantity (Models.quantity r - quantity) r) table,
              Removed quantity (Models.quantity existing - quantity))
        else
          Ok (delete_named norm table, Removed (Models.quantity existing) 0)
    end.

(** [_touch_history], lines 198-218, on the table [user_history]. *)
Definition history_is (norm : str) (r : UserHistory) : bool := str_eqb (item_name r) norm.

Definition _touch_history (history : list UserHistory) (item_name : str)
    (action_type : str) : result (list UserHistory) :=
  let name := lower (strip item_name) in
  if SearchService.is_empty name then Ok history
  else
    match scalar_one_or_none (filter (history_is name) history) with
    | Raise e => Raise e
    | Ok None =>
        let row :=
          if str_eqb action_type (L "purchase") then mkUserHistory name 1 0
          else mkUserHistory name 0 1 in
        Ok (history ++ [row])
    | Ok (Some _) =>
        Ok (map (fun r =>
                   if history_is name r then
                     if str_eqb action_type (L "purchase")
                     then mkUserHistory (Models.item_name r) (purchase_count r + 1)
                            (search_count r)
                     else mkUserHistory (Models.item_name r) (purchase_count r)
                            (search_count r + 1)
                   else r)
                history)
    end.

(** *** The endpoints *)

(** The two tables of the database. *)
Record Db : Type := mkDb {
  shopping_items : list ShoppingItem;
  user_history : list UserHistory
}.

(** What the endpoints take from outside the program: the process
    environment of the parser, the catalog [mock_products.json] (taken to be
    readable), the two library functions of the product search, the answer
    of the query of [get_history_based] on a history table, and the current
    month. *)
Record World : Type := mkWorld {
  parser_env : Parser.Env;
  products : list SearchService.Product;
  get_close_matches : str -> list str -> list str;
  lower_codes : list N -> list N;
  get_history_based : list UserHistory -> list str;
  month : Z
}.

(** [_search_products], lines 183-191. *)
Definition _search_products (w : World) (query : str) (filters : Schemas.Filters)
    : list SearchService.Product :=
  SearchService.search (get_close_matches w) (lower_codes w) (products w) query filters.

(** [build_suggestions] of [recommendation.py], lines 118-123. *)
Definition build_suggestions (w : World) (db : Db) (current_items : list ShoppingItem)
    : Recommendation.SuggestionGroup :=
  Recommendation.get_combined_suggestions (get_history_based w (user_history db)) (month w)
    current_items.

(** [modify_item], lines 333-358, after the validation of the request
    against [ModifyItemRequest]: an item of 1 to 120 characters, a quantity
    of 1 to 100. *)
Definition modify_item (table : list ShoppingItem) (item : str) (quantity : Z)
    : result (list ShoppingItem) :=
  if negb ((1 <=? List.length item)%nat && (List.length item <=? 120)%nat
           && (1 <=? quantity)%Z && (quantity <=? 100)%Z)
  then Raise RequestValidationError
  else
    let norm_name := lower (strip item) in
    if SearchService.is_empty norm_name then
      Raise (HTTPException 400 (L "Item name is required."))
    else if (quantity <? 0)%Z || (100 <? quantity)%Z then
      Raise (HTTPException 400 (L "Quantity must be between 0 and 100."))
    else
      match scalar_one_or_none (select_by_name table norm_name) with
      | Raise e => Raise e
      | Ok None => Raise (HTTPException 404 (L "Item '" ++ norm_name ++ L "' not found."))
      | Ok (Some existing) =>
          if (quantity =? 0)%Z then Ok (delete_named norm_name table)
          else Ok (update_named norm_name (set_quantity quantity) table)
      end.

(** [SearchResponse]. *)
Record SearchResponse : Type := mkSearchResponse {
  query : str;
  filters : Schemas.Filters;
  results : list SearchService.Product
}.

(** [search], lines 366-385. *)
Definition search (w : World) (query_text voice_text brand : str) (price_max : Q)
    : result SearchResponse :=
  let query := strip query_text in
  let filters := Schemas.mkFilters (SearchService.codes brand) price_max [] in
  let continue (query : str) (filters : Schemas.Filters) : result SearchResponse :=
    let results := _search_products w query filters in
    let results :=
      if SearchService.is_empty results && negb (SearchService.is_empty query) then
        let subs := Recommendation.get_substitutes_for_query query 5 in
        map (fun s => SearchService.mkProduct (Some s) (Some []) None (Some 0%Q)) subs
      else results in
    Ok (mkSearchResponse query filters results) in
  if negb (SearchService.is_empty (strip voice_text)) then
    match Parser.parse_voice_command (parser_env w) voice_text None with
    | Schemas.Raised => Raise ParserError
    | Schemas.Returned parsed =>
        if str_eqb (Schemas.action parsed) (L "search")
        then continue (or_else (Schemas.item parsed) query) (Schemas.filters parsed)
        else continue query filters
    end
  else continue query filters.

(** The [error] of a response of [process_voice]; [INTERNAL_ERROR] carries
    the exception whose text is the message. *)
Inductive failure : Type :=
| INVALID_COMMAND
| VALIDATION_ERROR (message : str)
| ITEM_NOT_FOUND
| INTERNAL_ERROR (e : exn).

Record VoiceResponse : Type := mkVoiceResponse {
  success : bool;
  error : option failure;
  parsed : option Schemas.ParsedVoiceCommand;
  items : list ShoppingItem;
  suggestions : Recommendation.SuggestionGroup;
  search_results : list SearchService.Product
}.

Definition no_suggestions : Recommendation.SuggestionGroup :=
  Recommendation.mkSuggestionGroup [] [] [] [].

(** The two early answers of [process_voice]: a command that is not
    understood, and the handler of the outer [try]. *)
Definition not_understood (parsed : Schemas.ParsedVoiceCommand) : VoiceResponse :=
  mkVoiceResponse false (Some INVALID_COMMAND) (Some parsed) [] no_suggestions [].

Definition crashed (e : exn) : VoiceResponse :=
  mkVoiceResponse false (Some (INTERNAL_ERROR e)) None [] no_suggestions [].

(** The end of [process_voice], lines 458-471. *)
Definition respond (w : World) (db : Db) (parsed : Schemas.ParsedVoiceCommand)
    (success : bool) (error : option failure)
    (search_results : list SearchService.Product) : Db * VoiceResponse :=
  let items := shopping_items db in
  let suggestions := build_suggestions w db items in
  (db, mkVoiceResponse success error (Some parsed) items suggestions search_results).

(** [[item["name"].lower() for item in json.load(f)]], line 417. *)
Fixpoint product_names (products : list SearchService.Product) : result (list str) :=
  match products with
  | [] => Ok []
  | p :: rest =>
      match SearchService.p_name p with
      | None => Raise (KeyError (L "name"))
      | Some n =>
          match product_names rest with
          | Raise e => Raise e
          | Ok names => Ok (lower n :: names)
          end
      end
  end.

(** [process_voice], lines 388-486, on a request that passed the validation
    against [VoiceRequest]; the database is threaded through, and an
    exception leaves it as the last commit made it. *)
Definition process_voice (w : World) (db : Db) (text : str) (language : option str)
    : Db * VoiceResponse :=
  match Parser.parse_voice_command (parser_env w) text language with
  | Schemas.Raised => (db, crashed ParserError)
  | Schemas.Returned parsed =>
      let action := Schemas.action parsed in
      if str_eqb action (L "invalid") then (db, not_understood parsed)
      else if str_eqb action (L "add") then
        match product_names (products w) with
        | Raise e => (db, crashed e)
        | Ok mock_products =>
            let item_l := strip (lower (Schemas.item parsed)) in
            let valid :=
              existsb (fun words => existsb (fun w => contains w item_l) (snd words))
                Categories.CATEGORY_KEYWORDS
              || mem item_l mock_products in
            let touch (db : Db) (success : bool) (error : option failure) :=
              match _touch_history (user_history db) (Schemas.item parsed) (L "purchase") with
              | Raise e => (db, crashed e)
              | Ok history => respond w (mkDb (shopping_items db) history) parsed success error []
              end in
            match
              _upsert_item (products w) (shopping_items db) (Schemas.item parsed)
                (Schemas.quantity parsed) (Schemas.category parsed)
            with
            | Ok table => touch (mkDb table (user_history db)) true None
            | Raise (AppValidationError message) =>
                touch db false (Some (VALIDATION_ERROR message))
            | Raise e => (db, crashed e)
            end
        end
      else if str_eqb action (L "modify") then
        match
          _modify_item (shopping_items db) (Schemas.item parsed) (Schemas.quantity parsed)
            (Schemas.category parsed)
        with
        | Ok table => respond w (mkDb table (user_history db)) parsed true None []
        | Raise (HTTPException _ detail) =>
            respond w db parsed false (Some (VALIDATION_ERROR detail)) []
        | Raise e => (db, crashed e)
        end
      else if str_eqb action (L "remove") then
        match _remove_item (shopping_items db) (Schemas.item parsed) (Schemas.quantity parsed) with
        | Ok (table, ItemNotFound) =>
            respond w (mkDb table (user_history db)) parsed false (Some ITEM_NOT_FOUND) []
        | Ok (table, Removed _ _) =>
            respond w (mkDb table (user_history db)) parsed true None []
        | Raise e => (db, crashed e)
        end
      else if str_eqb action (L "search") then
        let search_results := _search_products w (Schemas.item parsed) (Schemas.filters parsed) in
        match _touch_history (user_history db) (Schemas.item parsed) (L "search") with
        | Raise e => (db, crashed e)
        | Ok history =>
            respond w (mkDb (shopping_items db) history) parsed true None search_results
        end
      else (db, not_understood parsed)
  end.

End Main.

(** ** Environments and statement vocabulary *)

(** The environment of the test suite: no API key, OpenAI parser disabled. *)
Definition rule_env (catalog : option (list str)) : Parser.Env :=
  Parser.mkEnv None None catalog (fun _ _ => Schemas.Returned None).

(** An environment with the OpenAI parser enabled, whose model answers with
    the fields of [reply]. *)
Definition openai_env (reply : Schemas.ParsedVoiceCommand) : Parser.Env :=
  Parser.mkEnv (Some (L "sk-test")) (Some (L "true")) None
    (fun _ _ => Schemas.Returned (Some reply)).

(** The "quantity followed by a noun" pattern as the specification words it,
    with the number words of the language's own table; the source pattern is
    [Intent.quantity_noun_pattern]. *)
Definition spec_quantity_noun_pattern (language : str) : Re.re :=
  Re.Seq Re.Bound
    (Re.Seq (Re.Grp (Re.alts (map Re.Lit (map fst (Quantity.number_words language))
                                ++ [Re.Plus PyStr.is_digit])))
       (Re.Seq Re.Bound (Re.Seq (Re.Plus PyStr.is_space) (Re.Plus PyStr.is_word)))).

(** The words of all four trigger lists of a lexicon. *)
Definition trigger_words (lex : Intent.ActionLexicon) : list str :=
  Intent.add lex ++ Intent.remove lex ++ Intent.modify lex ++ Intent.search lex.

(** [wordy w]: [w] is a non-empty run of word characters that does not
    start with a digit, like every entry of the number-word tables. *)
Definition wordy (w : str) : bool :=
  match w with
  | c :: _ => negb (PyStr.is_digit c) && forallb PyStr.is_word w
  | [] => false
  end.

(** [has_word_from w pw t]: [w] occurs in [t] as a whole word, [pw] telling
    whether the character before [t] is a word character. *)
Fixpoint has_word_from (w : str) (pw : bool) (t : str) : bool :=
  (negb pw && PyStr.startswith w t && negb (Re.word_at (skipn (List.length w) t)))
  || match t with
     | c :: t' => has_word_from w (PyStr.is_word c) t'
     | [] => false
     end.

(** The first entry of a number-word table whose word occurs in [t] as a
    whole word. *)
Definition first_number_word (table : list (str * Z)) (t : str) : option (str * Z) :=
  find (fun wv => Re.found (Re.word_re (fst wv)) t) table.

(** The words of a text: its maximal runs of word characters, in order.
    [words_from cur t] reads [t] after the characters [cur] (latest first)
    of a word under way. *)
Fixpoint words_from (cur : str) (t : str) : list str :=
  match t with
  | [] => match cur with [] => [] | _ :: _ => [rev cur] end
  | c :: t' =>
      if PyStr.is_word c then words_from (c :: cur) t'
      else match cur with
           | [] => words_from [] t'
           | _ :: _ => rev cur :: words_from [] t'
           end
  end.

Definition words (t : str) : list str := words_from [] t.

(** [wordish w]: [w] is a non-empty run of word characters. *)
Definition wordish (w : str) : bool :=
  match w with
  | [] => false
  | _ :: _ => forallb PyStr.is_word w
  end.

(** An environment with the OpenAI parser enabled, in which the call of the
    remote model raises (no network, a rejected key, ...). *)
Definition openai_failing_env : Parser.Env :=
  Parser.mkEnv (Some (L "sk-test")) (Some (L "true")) None (fun _ _ => Schemas.Raised).

(** [ascii_text s]: every character of [s] is an ASCII character. *)
Definition ascii_text (s : str) : bool := forallb (fun c => PyStr.code c <? 128) s.

(** [nodigit s]: no character of [s] is a decimal digit. *)
Definition nodigit (s : str) : bool := forallb (fun c => negb (PyStr.is_digit c)) s.

(** [digit_at t]: [t] starts with a decimal digit. *)
Definition digit_at (t : str) : bool :=
  match t with
  | c :: _ => PyStr.is_digit c
  | [] => false
  end.

(** [lowered s]: [s] is its own lower-case form. *)
Definition lowered (s : str) : bool :=
  forallb (fun c => Ascii.eqb (PyStr.lower_char c) c) s.

(** The number written at the head of [t]: its longest run of digits,
    followed by a dot and the longest run of digits after it when the dot is
    followed by a digit. *)
Definition take_number (t : str) : str :=
  let (ip, r) := PyStr.span_digits t in
  match r with
  | c :: r' =>
      if Ascii.eqb c "."
      then match fst (PyStr.span_digits r') with
           | [] => ip
           | fp => ip ++ c :: fp
           end
      else ip
  | [] => ip
  end.

(** [first_trigger T pre t]: no trigger of the list [T] occurs in the text
    [t] starting before the end of its prefix [pre]. *)
Definition first_trigger (T : list str) (pre t : str) : Prop :=
  forall a b w, In w T -> t = a ++ w ++ b -> List.length pre <= List.length a.

(** [space_at t]: [t] starts with a white-space character. *)
Definition space_at (t : str) : bool :=
  match t with
  | c :: _ => PyStr.is_space c
  | [] => false
  end.

(** [single_spaced s]: every white-space character of [s] is a blank that
    is not followed by another white-space character. *)
Fixpoint single_spaced (s : str) : bool :=
  match s with
  | [] => true
  | c :: s' =>
      (if PyStr.is_space c then Ascii.eqb c " " && negb (space_at s') else true)
      && single_spaced s'
  end.

(** [openai_disabled env]: the optional OpenAI parser yields no result,
    whatever the text; this is the case when [OPENAI_API_KEY] is unset. *)
Definition openai_disabled (env : Parser.Env) : Prop :=
  forall text language, Parser._openai_parse env text language = Schemas.Returned None.

(** [blank_spaced s]: the only white-space character of [s] is the blank. *)
Definition blank_spaced (s : str) : bool :=
  forallb (fun c => negb (PyStr.is_space c) || Ascii.eqb c " ") s.

(** [spaceless s]: [s] has no white-space character. *)
Definition spaceless (s : str) : bool := forallb (fun c => negb (PyStr.is_space c)) s.

(** The tests the filters of the product search apply to a product. *)
Definition text_test (wanted : str) (field : SearchService.Product -> option str)
    (p : SearchService.Product) : bool :=
  SearchService.is_empty wanted
  || PyStr.contains (PyStr.lower wanted) (PyStr.lower (SearchService.get (field p))).

Definition brand_test (lower_codes : list N -> list N) (wanted : list N)
    (p : SearchService.Product) : bool :=
  SearchService.is_empty wanted
  || SearchService.contains_codes (lower_codes wanted)
       (SearchService.codes (PyStr.lower (SearchService.get (SearchService.p_brand p)))).

Definition price_test (price_max : Q) (p : SearchService.Product) : bool :=
  Qle_bool price_max 0 || Qle_bool (SearchService.get_price p) price_max.

(** The products [search] keeps after its name stage (search_service.py,
    lines 74-83), before the brand, size and price filters. *)
Definition name_stage (get_close_matches : str -> list str -> list str)
    (products : list SearchService.Product) (query : str) : list SearchService.Product :=
  let name_matches := SearchService.filter_by_name products query in
  let name_matches :=
    if SearchService.is_empty name_matches && negb (SearchService.is_empty query)
    then SearchService.apply_fuzzy_match get_close_matches products query
    else name_matches in
  if negb (SearchService.is_empty name_matches) then name_matches else products.

(** [str.lower] on the code points of title-cased Latin-1 text: besides
    Latin-1, the capital letters Y with diaeresis and Greek Mu. *)
Definition lower_code (n : N) : N :=
  if (n <? 256)%N then N.of_nat (PyStr.code (PyStr.lower_char (chr (N.to_nat n))))
  else if (n =? 376)%N then 255%N
  else if (n =? 924)%N then 956%N
  else n.

Definition lower_title_codes (s : list N) : list N := map lower_code s.

(** A small catalog in the shape of [mock_products.json]. *)
Definition milk_amul : SearchService.Product :=
  SearchService.mkProduct (Some (L "Amul Milk")) (Some (L "Amul")) (Some (L "1L")) (Some (3 # 1)%Q).

Definition milk_organic : SearchService.Product :=
  SearchService.mkProduct (Some (L "Organic Milk")) (Some (L "Horizon")) (Some (L "2L")) (Some (11 # 2)%Q).

Definition toothpaste : SearchService.Product :=
  SearchService.mkProduct (Some (L "Toothpaste")) (Some (L "Colgate")) None (Some (5 # 2)%Q).

Definition sample_products : list SearchService.Product :=
  [milk_amul; milk_organic; toothpaste].

(** The key under which suggestions are compared: trimmed and lower-cased. *)
Definition suggestion_key (x : str) : str := PyStr.lower (PyStr.strip x).

(** [a] is [b] with some elements left out, the others in the same order. *)
Inductive subsequence {A : Type} : list A -> list A -> Prop :=
| subsequence_nil : subsequence [] []
| subsequence_skip x a b : subsequence a b -> subsequence a (x :: b)
| subsequence_keep x a b : subsequence a b -> subsequence (x :: a) (x :: b).

(** The row of a shopping list under a name, and the row of the history. *)
Definition find_item (norm : str) (table : list Models.ShoppingItem)
    : option Models.ShoppingItem :=
  find (Main.name_is norm) table.

Definition find_history (norm : str) (history : list Models.UserHistory)
    : option Models.UserHistory :=
  find (Main.history_is norm) history.

(** The quantity a shopping list holds of an item, 0 when it is not listed. *)
Definition quantity_of (norm : str) (table : list Models.ShoppingItem) : Z :=
  match find_item norm table with
  | Some r => Models.quantity r
  | None => 0%Z
  end.

(** The purchases and the searches the history records for an item. *)
Definition purchases (norm : str) (history : list Models.UserHistory) : Z :=
  match find_history norm history with
  | Some r => Models.purchase_count r
  | None => 0%Z
  end.

Definition searches (norm : str) (history : list Models.UserHistory) : Z :=
  match find_history norm history with
  | Some r => Models.search_count r
  | None => 0%Z
  end.

(** A well-formed shopping list: no two rows of the same name, every name
    non-empty, trimmed and lower-cased, every quantity at least 1. *)
Definition list_ok (table : list Models.ShoppingItem) : Prop :=
  NoDup (map Models.name table) /\
  Forall (fun r =>
            Models.name r <> [] /\
            PyStr.lower (PyStr.strip (Models.name r)) = Models.name r /\
            (1 <= Models.quantity r)%Z) table.

(** A well-formed history: no two rows of the same item name. *)
Definition history_ok (history : list Models.UserHistory) : Prop :=
  NoDup (map Models.item_name history).

(** A catalog in which every product has a name. *)
Definition named_products (products : list SearchService.Product) : Prop :=
  Forall (fun p => SearchService.p_name p <> None) products.

(** A shopping list and a history to run the operations on. *)
Definition sample_list : list Models.ShoppingItem :=
  [ Models.mkShoppingItem (L "milk") 2 (L "dairy") (L "Amul") (3 # 1)%Q (L "1L");
    Models.mkShoppingItem (L "eggs") 12 (L "dairy") [] 0%Q [] ].

Definition sample_history : list Models.UserHistory :=
  [ Models.mkUserHistory (L "milk") 4 1 ].

(** A fuzzy matcher that proposes nothing. *)
Definition no_close_matches (_ : str) (_ : list str) : list str := [].

(** An answer the query of [get_history_based] gives: the items with at
    least two interactions, by decreasing score (twice the purchases plus the
    searches), at most three of them; equal scores are left in table order. *)
Definition history_score (r : Models.UserHistory) : Z :=
  (Models.purchase_count r * 2 + Models.search_count r)%Z.

Fixpoint insert_by_score (r : Models.UserHistory) (sorted : list Models.UserHistory)
    : list Models.UserHistory :=
  match sorted with
  | [] => [r]
  | x :: rest =>
      if (history_score x <? history_score r)%Z || (history_score x =? history_score r)%Z
      then r :: sorted
      else x :: insert_by_score r rest
  end.

Definition history_top3 (history : list Models.UserHistory) : list str :=
  map Models.item_name
    (firstn 3
       (fold_right insert_by_score []
          (filter (fun r => (2 <=? Models.purchase_count r + Models.search_count r)%Z)
             history))).

(** A world in which the OpenAI parser is off. *)
Definition sample_world : Main.World :=
  Main.mkWorld (rule_env None) sample_products no_close_matches lower_title_codes
    history_top3 7.

Definition sample_db : Main.Db := Main.mkDb sample_list sample_history.

(** The normal form of an item name: trimmed and lower-cased. *)
Definition normal_name (name : str) : str := PyStr.lower (PyStr.strip name).

(** * Properties *)

Unset Implicit Arguments.

Import PyStr Re Schemas.

(** ** Basic facts *)

Lemma str_eqb_eq (a b : str) : str_eqb a b = true <-> a = b.
Proof.
  revert b. induction a as [|x a IH]; intros [|y b]; simpl; split; intro H;
    try discriminate; try reflexivity.
  - apply andb_true_iff in H as [Hxy Hab].
    apply Ascii.eqb_eq in Hxy. apply IH in Hab. congruence.
  - injection H as -> ->. rewrite Ascii.eqb_refl. simpl. now apply IH.
Qed.

Lemma str_eqb_refl (s : str) : str_eqb s s = true.
Proof. now apply str_eqb_eq. Qed.

Lemma str_eqb_neq (a b : str) : str_eqb a b = false <-> a <> b.
Proof.
  split.
  - intros H E. subst. rewrite str_eqb_refl in H. discriminate.
  - intro H. destruct (str_eqb a b) eqn:E; [|reflexivity].
    apply str_eqb_eq in E. contradiction.
Qed.

Lemma mem_In (x : str) (l : list str) : mem x l = true <-> In x l.
Proof.
  unfold mem. rewrite existsb_exists. split.
  - intros [y [Hy Heq]]. apply str_eqb_eq in Heq. now subst.
  - intro H. exists x. split; [assumption|]. now apply str_eqb_eq.
Qed.

Lemma detect_intent_in_Action (text language : str) :
  In (Intent.detect_intent text language) Action.
Proof.
  unfold Intent.detect_intent.
  repeat match goal with
         | |- context [if ?b then _ else _] => destruct b
         end; vm_compute; intuition.
Qed.

(** ** Quantity extraction on the specification's example *)

(** C7 (as the code behaves): [extract_quantity("buy 3 apples", "en")] returns
    quantity 3 and the residual text ["buy apples"]: the digit token is
    blanked and the run of blanks left behind is collapsed to one space. *)
Theorem extract_quantity_buy_3_apples :
  Quantity.extract_quantity (L "buy 3 apples") (L "en") = (3%Z, L "buy apples").
Proof. vm_compute. reflexivity. Qed.

(** C7 as stated fails: the residual text is not ["buy  apples"] with two
    spaces. *)
Lemma extract_quantity_buy_3_apples_not_two_spaces :
  Quantity.extract_quantity (L "buy 3 apples") (L "en") <> (3%Z, L "buy  apples").
Proof. vm_compute. discriminate. Qed.

(** ** Item phrase and trigger words *)

(** C4 (failing input): "grab" is an English add trigger, yet
    [extract_item("grab milk", "en")] returns ["grab milk"], whose first token
    is that trigger word. *)
Theorem extract_item_keeps_grab :
  In (L "grab") (trigger_words Intent.LEXICON_EN) /\
  Parser.extract_item (L "grab milk") (L "en") = L "grab milk" /\
  In (L "grab") (split_on " " (Parser.extract_item (L "grab milk") (L "en"))).
Proof. vm_compute. intuition. Qed.

(** ** Intent classification *)

(** C9: whenever the lower-cased, trimmed text contains one of the stop
    phrases "how", "why", "what", "make", "recipe" as a substring,
    [detect_intent] returns "invalid", for every language and whatever trigger
    words the text also contains. *)
Theorem detect_intent_stop_phrase :
  forall text language phrase,
    In phrase Intent.stop_phrases ->
    contains phrase (strip (lower text)) = true ->
    Intent.detect_intent text language = L "invalid".
Proof.
  intros text language phrase Hin Hc. unfold Intent.detect_intent.
  assert (Hstop : existsb (fun p => contains p (strip (lower text))) Intent.stop_phrases = true).
  { apply existsb_exists. exists phrase. split; assumption. }
  rewrite Hstop. reflexivity.
Qed.

(** C9, the specification's instance: "how do I add milk" is invalid although
    it contains the add trigger "add". *)
Lemma detect_intent_stop_phrase_witness :
  In (L "how") Intent.stop_phrases /\
  contains (L "how") (strip (lower (L "how do I add milk"))) = true /\
  Intent._has_any (strip (lower (L "how do I add milk"))) (Intent.add Intent.LEXICON_EN) = true /\
  Intent.detect_intent (L "how do I add milk") (L "en") = L "invalid".
Proof.
  split; [left; reflexivity|]. split; [reflexivity|]. split; [reflexivity|].
  apply (detect_intent_stop_phrase (L "how do I add milk") (L "en") (L "how")).
  - left; reflexivity.
  - reflexivity.
Defined.

(** C5 (failing input): the Spanish text "dos manzanas" has no stop phrase,
    no negated add and no trigger word, and it matches the pattern built from
    the Spanish number-word table, where "dos" stands for 2; yet
    [detect_intent] returns "invalid", because the source pattern lists the
    English number words whatever the language.  The English counterpart
    "two apples" is classified as "add". *)
Theorem detect_intent_dos_manzanas :
  let t := strip (lower (L "dos manzanas")) in
  In (L "dos", 2%Z) (Quantity.number_words (L "es")) /\
  existsb (fun p => contains p t) Intent.stop_phrases = false /\
  Intent._is_negated_add t (L "es") = false /\
  Intent._has_any t (trigger_words Intent.LEXICON_ES) = false /\
  found (spec_quantity_noun_pattern (L "es")) t = true /\
  found Intent.quantity_noun_pattern t = false /\
  Intent.detect_intent (L "dos manzanas") (L "es") = L "invalid" /\
  Intent.detect_intent (L "dos manzanas") (L "es") <> L "add" /\
  Intent.detect_intent (L "two apples") (L "en") = L "add".
Proof.
  intro t. split; [vm_compute; tauto|].
  vm_compute. repeat split; discriminate.
Qed.

(** ** The matcher on literals and whole words *)

Ltac by_cases_on_char c :=
  destruct c as [[] [] [] [] [] [] [] []]; vm_compute; try reflexivity; try discriminate; auto.

Lemma digit_is_word (c : ascii) : is_digit c = true -> is_word c = true.
Proof. by_cases_on_char c. Qed.

Lemma lower_char_idem (c : ascii) : lower_char (lower_char c) = lower_char c.
Proof. by_cases_on_char c. Qed.

Lemma startswith_app (w t : str) :
  startswith w t = true <-> exists r, t = w ++ r.
Proof.
  revert t. induction w as [|c w IH]; intros t; simpl.
  - split; [exists t; reflexivity | reflexivity].
  - destruct t as [|c' t'].
    + split; [discriminate | intros [r Hr]; discriminate].
    + rewrite andb_true_iff, Ascii.eqb_eq, IH. split.
      * intros [-> [r ->]]. exists r. reflexivity.
      * intros [r Hr]. injection Hr as -> ->. split; [reflexivity | exists r; reflexivity].
Qed.

Lemma startswith_skipn (w t : str) :
  startswith w t = true -> t = w ++ skipn (List.length w) t.
Proof.
  intro H. apply startswith_app in H as [r ->].
  rewrite skipn_app, skipn_all, Nat.sub_diag. reflexivity.
Qed.

Lemma startswith_self_app (w r : str) : startswith w (w ++ r) = true.
Proof. apply startswith_app. exists r. reflexivity. Qed.

Lemma skipn_length_app (w r : str) : skipn (List.length w) (w ++ r) = r.
Proof. rewrite skipn_app, skipn_all, Nat.sub_diag. reflexivity. Qed.

Lemma m_Lit (A : Type) (w : str) (k : mstate -> option A) (p t : str) (g : option str) :
  m (Lit w) k (MState p t g) =
  if startswith w t then k (MState (rev w ++ p) (skipn (List.length w) t) g) else None.
Proof.
  revert p t. induction w as [|c w IH]; intros p t; simpl.
  - reflexivity.
  - destruct t as [|c' t']; [reflexivity|]. simpl.
    destruct (Ascii.eqb c c') eqn:E; simpl; [|reflexivity].
    apply Ascii.eqb_eq in E. subst c'. rewrite IH, <- app_assoc. reflexivity.
Qed.

(** A whole-word literal matches at a position exactly when the position is
    a word boundary, the literal is a prefix, and its end is a boundary. *)
Lemma match_at_word_re (w p t : str) :
  match_at (word_re w) p t =
  if at_boundary p t && startswith w t
     && at_boundary (rev w ++ p) (skipn (List.length w) t)
  then Some (MState (rev w ++ p) (skipn (List.length w) t) None)
  else None.
Proof.
  unfold match_at, word_re. cbn [m prev rest grp1].
  destruct (at_boundary p t); [|reflexivity]. cbn [andb].
  rewrite m_Lit. destruct (startswith w t); [|reflexivity]. cbn [andb m prev rest].
  reflexivity.
Qed.

Lemma wordy_inv (w : str) :
  wordy w = true ->
  exists c w', w = c :: w' /\ is_digit c = false /\ is_word c = true /\ forallb is_word w' = true.
Proof.
  destruct w as [|c w']; [discriminate|]. unfold wordy. cbn [forallb].
  rewrite !andb_true_iff, negb_true_iff. intros [Hd [Hc Hw]].
  exists c, w'. auto.
Qed.

Lemma word_at_rev_words (w p : str) :
  w <> [] -> forallb is_word w = true -> word_at (rev w ++ p) = true.
Proof.
  intros Hne Hw. destruct (rev w) as [|c r] eqn:E.
  - apply (f_equal (@rev ascii)) in E. rewrite rev_involutive in E. simpl in E. contradiction.
  - simpl. rewrite forallb_forall in Hw. apply Hw. apply in_rev. rewrite E. left. reflexivity.
Qed.

Lemma match_at_word_re_words (w p t : str) :
  w <> [] -> forallb is_word w = true ->
  match_at (word_re w) p t =
  if negb (word_at p) && startswith w t && negb (word_at (skipn (List.length w) t))
  then Some (MState (rev w ++ p) (skipn (List.length w) t) None)
  else None.
Proof.
  intros Hne Hw. rewrite match_at_word_re.
  destruct (startswith w t) eqn:Hs.
  - assert (Ht : word_at t = true).
    { apply startswith_app in Hs as [r ->]. destruct w as [|c w']; [contradiction|].
      simpl in *. now apply andb_true_iff in Hw as [Hc _]. }
    unfold at_boundary. rewrite Ht, (word_at_rev_words w p Hne Hw).
    rewrite xorb_true_r. cbn [xorb]. reflexivity.
  - rewrite !andb_false_r. reflexivity.
Qed.

Lemma wordy_words (w : str) : wordy w = true -> w <> [] /\ forallb is_word w = true.
Proof.
  intro H. destruct (wordy_inv w H) as [c [w' [-> [_ [Hc Hw]]]]].
  split; [discriminate|]. simpl. now rewrite Hc, Hw.
Qed.

Lemma search_from_word_re (w p t : str) :
  wordy w = true ->
  match search_from (word_re w) p t with Some _ => true | None => false end
  = has_word_from w (word_at p) t.
Proof.
  intro Hw. destruct (wordy_words w Hw) as [Hne Hall].
  revert p. induction t as [|c t IH]; intro p.
  - cbn [search_from has_word_from]. rewrite (match_at_word_re_words w p [] Hne Hall).
    destruct (negb (word_at p) && startswith w [] && negb (word_at (skipn (List.length w) [])));
      reflexivity.
  - cbn [search_from has_word_from]. rewrite (match_at_word_re_words w p (c :: t) Hne Hall).
    destruct (negb (word_at p) && startswith w (c :: t)
              && negb (word_at (skipn (List.length w) (c :: t)))).
    + reflexivity.
    + rewrite IH. reflexivity.
Qed.

Lemma found_word_re (w t : str) :
  wordy w = true -> found (word_re w) t = has_word_from w false t.
Proof. intro Hw. unfold found, search. now rewrite search_from_word_re. Qed.

(** ** Blanking a digit token keeps every number word *)

Lemma sub_from_skip (r : re) (repl u p t : str) :
  sub_from r repl p (u ++ t) (List.length u) = sub_from r repl (rev u ++ p) t 0.
Proof.
  revert p. induction u as [|c u IH]; intro p.
  - reflexivity.
  - cbn [app List.length sub_from]. rewrite IH. cbn [rev]. now rewrite <- app_assoc.
Qed.

Lemma word_head (c : ascii) (w' : str) :
  wordy (c :: w') = true -> is_word c = true /\ is_digit c = false.
Proof.
  intro H. destruct (wordy_inv _ H) as [c1 [w1 [E [Hdg [Hwd _]]]]].
  injection E as -> ->. auto.
Qed.

Section WordFacts.
Variable w : str.
Hypothesis Hw : wordy w = true.


Lemma startswith_word_nonword (t : str) :
  word_at t = false -> startswith w t = false.
Proof.
  intro Ht. destruct (startswith w t) eqn:Hs; [|reflexivity].
  apply startswith_app in Hs as [r ->].
  destruct w as [|c w']; [discriminate|]. apply word_head in Hw as [Hc _].
  cbn [app word_at] in Ht. congruence.
Qed.

Lemma has_word_nonword_start (pw pw' : bool) (t : str) :
  word_at t = false -> has_word_from w pw t = has_word_from w pw' t.
Proof.
  intro Ht. destruct t as [|c t]; cbn [has_word_from];
    rewrite (startswith_word_nonword _ Ht), !andb_false_r; reflexivity.
Qed.

Lemma has_word_digit_head (pw : bool) (c : ascii) (t : str) :
  is_digit c = true -> has_word_from w pw (c :: t) = has_word_from w true t.
Proof.
  intro Hc. cbn [has_word_from].
  assert (Hs : startswith w (c :: t) = false).
  { destruct (startswith w (c :: t)) eqn:Hs; [|reflexivity].
    apply startswith_app in Hs as [r Hr].
    destruct w as [|c0 w']; [discriminate|]. apply word_head in Hw as [_ Hnd].
    injection Hr as -> _. congruence. }
  rewrite Hs, andb_false_r, (digit_is_word _ Hc). reflexivity.
Qed.

Lemma has_word_skip_digits (d : str) (pw : bool) (t : str) :
  d <> [] -> forallb is_digit d = true ->
  has_word_from w pw (d ++ t) = has_word_from w true t.
Proof.
  revert pw. induction d as [|c d' IH]; [contradiction|].
  intros pw _ Hd. cbn [forallb] in Hd. apply andb_true_iff in Hd as [Hc Hd'].
  cbn [app]. rewrite has_word_digit_head by exact Hc.
  destruct d' as [|c' d'']; [reflexivity|].
  apply IH; [discriminate | assumption].
Qed.

Lemma has_word_space_head (pw : bool) (t : str) :
  has_word_from w pw (L " " ++ t) = has_word_from w false t.
Proof.
  change (L " " ++ t) with (" "%char :: t). cbn [has_word_from].
  rewrite startswith_word_nonword by reflexivity.
  rewrite andb_false_r. reflexivity.
Qed.

End WordFacts.

Section Blank.
Variables w d : str.
Hypothesis Hw : wordy w = true.
Hypothesis Hd_ne : d <> [].
Hypothesis Hd : forallb is_digit d = true.

Let blank (p t : str) : str := sub_from (word_re d) (L " ") p t 0.

Lemma digits_are_words : forallb is_word d = true.
Proof.
  rewrite forallb_forall in *. intros x Hx. apply digit_is_word. now apply Hd.
Qed.

Lemma blank_step (p : str) (c : ascii) (t : str) :
  blank p (c :: t) =
  if negb (word_at p) && startswith d (c :: t)
     && negb (word_at (skipn (List.length d) (c :: t)))
  then L " " ++ blank (rev d ++ p) (skipn (List.length d) (c :: t))
  else c :: blank (c :: p) t.
Proof.
  unfold blank. cbn [sub_from].
  rewrite (match_at_word_re_words d p (c :: t) Hd_ne digits_are_words).
  destruct (startswith d (c :: t)) eqn:Hs.
  2:{ rewrite andb_false_r. reflexivity. }
  pose proof (startswith_skipn _ _ Hs) as Ht.
  remember (skipn (List.length d) (c :: t)) as r eqn:Er.
  destruct (negb (word_at p) && true && negb (word_at r)); [|reflexivity].
  cbn [rest]. clear Er Hs.
  destruct d as [|c0 d']; [contradiction|].
  cbn [app] in Ht. injection Ht as Hc Ht'. subst c0 t.
  replace (List.length (c :: d' ++ r) - List.length r) with (S (List.length d'))
    by (cbn [List.length]; rewrite length_app; lia).
  rewrite sub_from_skip. cbn [rev]. rewrite <- app_assoc. reflexivity.
Qed.

Lemma blank_after_word (p : str) (c : ascii) (t : str) :
  word_at p = true -> blank p (c :: t) = c :: blank (c :: p) t.
Proof. intro Hp. rewrite blank_step, Hp. reflexivity. Qed.

Lemma startswith_digits_word (t : str) : startswith d t = true -> word_at t = true.
Proof.
  intro Hs. apply startswith_app in Hs as [r ->].
  destruct d as [|c0 d']; [contradiction|]. cbn [app word_at].
  cbn [forallb] in Hd. apply andb_true_iff in Hd as [Hc _]. now apply digit_is_word.
Qed.

Lemma blank_nonword_head (p t : str) : word_at t = false -> word_at (blank p t) = false.
Proof.
  intro Ht. destruct t as [|c t]; [reflexivity|].
  rewrite blank_step.
  destruct (startswith d (c :: t)) eqn:Hs.
  - apply startswith_digits_word in Hs. congruence.
  - rewrite andb_false_r. exact Ht.
Qed.

(** Inside a word no digit token is blanked, so a literal prefix ending at a
    boundary is there after blanking exactly when it was there before. *)
Lemma blank_inside_word (u p t : str) :
  word_at p = true -> forallb is_word u = true ->
  startswith u (blank p t) && negb (word_at (skipn (List.length u) (blank p t)))
  = startswith u t && negb (word_at (skipn (List.length u) t)).
Proof.
  revert p t. induction u as [|x u IH]; intros p t Hp Hu.
  - cbn [startswith List.length skipn andb].
    destruct t as [|c t]; [reflexivity|]. rewrite blank_after_word by exact Hp. reflexivity.
  - destruct t as [|c t]; [reflexivity|]. rewrite blank_after_word by exact Hp.
    cbn [startswith List.length skipn].
    cbn [forallb] in Hu. apply andb_true_iff in Hu as [Hx Hu].
    destruct (Ascii.eqb x c) eqn:E; [|reflexivity]. cbn [andb].
    apply Ascii.eqb_eq in E. subst c. apply IH; assumption.
Qed.

Lemma has_word_blank_len (n : nat) :
  forall t p, List.length t <= n ->
    has_word_from w (word_at p) (blank p t) = has_word_from w (word_at p) t.
Proof.
  induction n as [|n IH]; intros t p Hlen.
  - destruct t; [reflexivity | cbn in Hlen; lia].
  - destruct t as [|c t]; [reflexivity|].
    rewrite blank_step.
    destruct (negb (word_at p) && startswith d (c :: t)
              && negb (word_at (skipn (List.length d) (c :: t)))) eqn:Hm.
    + apply andb_true_iff in Hm as [Hm Hend]. apply andb_true_iff in Hm as [Hp Hs].
      apply negb_true_iff in Hp, Hend.
      pose proof (startswith_skipn _ _ Hs) as Ht.
      set (t2 := skipn (List.length d) (c :: t)) in *.
      rewrite Ht. rewrite (has_word_skip_digits w Hw d _ t2 Hd_ne Hd). rewrite (has_word_space_head w Hw).
      assert (Hlen2 : List.length t2 <= n).
      { apply (f_equal (@List.length ascii)) in Ht. rewrite length_app in Ht.
        cbn [List.length] in Ht, Hlen.
        destruct d; [contradiction|]. cbn [List.length] in Ht. lia. }
      pose proof (IH t2 (rev d ++ p) Hlen2) as IH2.
      rewrite (word_at_rev_words d p Hd_ne digits_are_words) in IH2.
      rewrite <- IH2.
      apply (has_word_nonword_start w Hw). now apply blank_nonword_head.
    + cbn [has_word_from].
      assert (IH1 : has_word_from w (is_word c) (blank (c :: p) t)
                    = has_word_from w (is_word c) t).
      { apply (IH t (c :: p)). cbn in Hlen. lia. }
      rewrite IH1. f_equal.
      destruct w as [|x w'] eqn:Ew; [discriminate|].
      cbn [startswith List.length skipn].
      destruct (Ascii.eqb x c) eqn:E; [|rewrite !andb_false_r; reflexivity].
      apply Ascii.eqb_eq in E. subst c.
      destruct (word_head _ _ Hw) as [Hxw _].
      destruct (wordy_inv _ Hw) as [x1 [w1 [E1 [_ [_ Hw1]]]]]. injection E1 as <- <-.
      cbn [andb]. rewrite <- !andb_assoc. f_equal.
      apply blank_inside_word; [exact Hxw | exact Hw1].
Qed.

Lemma has_word_blank (t : str) :
  has_word_from w false (sub (word_re d) (L " ") t) = has_word_from w false t.
Proof. exact (has_word_blank_len (List.length t) t [] (le_n _)). Qed.

End Blank.

(** ** The number-word pass overrides the digit pass *)

Lemma digits_val_digits (s : str) (acc q : Z) :
  digits_val acc s = Some q -> forallb is_digit s = true.
Proof.
  revert acc. induction s as [|c s IH]; intros acc H; [reflexivity|].
  cbn [digits_val] in H. cbn [forallb].
  destruct (is_digit c); [|discriminate]. now apply IH in H.
Qed.

Lemma int_some_digits (s : str) (q : Z) :
  int s = Some q -> s <> [] /\ forallb is_digit s = true.
Proof.
  destruct s as [|c s]; [discriminate|]. unfold int.
  destruct (4300 <? List.length (c :: s)); [discriminate|].
  intro H. split; [discriminate|].
  exact (digits_val_digits _ _ _ H).
Qed.

(** After the digit pass the working copy is the lower-cased text itself, or
    that text with the whole-word occurrences of one digit token blanked. *)
Lemma digit_pass_cases (t : str) :
  snd (Quantity.digit_pass t) = t \/
  exists d, d <> [] /\ forallb is_digit d = true /\
            snd (Quantity.digit_pass t) = sub (word_re d) (L " ") t.
Proof.
  unfold Quantity.digit_pass.
  destruct (search Quantity.digits_re t) as [mt|]; [|now left].
  destruct (int (group1 mt)) as [q|] eqn:Hq; [|now left].
  destruct (q >? 0)%Z; [|now left].
  right. exists (group1 mt). destruct (int_some_digits _ _ Hq). auto.
Qed.

Lemma number_words_wordy (language : str) :
  forallb (fun wv => wordy (fst wv)) (Quantity.number_words language) = true.
Proof.
  unfold Quantity.number_words. destruct (str_eqb language (L "es")); vm_compute; reflexivity.
Qed.

Lemma digit_pass_keeps_number_words (t w : str) :
  wordy w = true ->
  found (word_re w) (snd (Quantity.digit_pass t)) = found (word_re w) t.
Proof.
  intro Hw. destruct (digit_pass_cases t) as [-> | [d [Hne [Hd ->]]]]; [reflexivity|].
  rewrite !found_word_re by exact Hw. now apply has_word_blank.
Qed.

Lemma first_number_word_digit_pass (table : list (str * Z)) (t : str) :
  forallb (fun wv => wordy (fst wv)) table = true ->
  first_number_word table (snd (Quantity.digit_pass t)) = first_number_word table t.
Proof.
  unfold first_number_word. induction table as [|[w v] table IH]; intro Hall; [reflexivity|].
  cbn [forallb fst] in Hall. apply andb_true_iff in Hall as [Hw Hall].
  cbn [find fst]. rewrite (digit_pass_keeps_number_words t w Hw), (IH Hall). reflexivity.
Qed.

Lemma number_word_pass_fst (table : list (str * Z)) (q : Z) (c : str) :
  fst (Quantity.number_word_pass table q c)
  = match first_number_word table c with
    | Some wv => snd wv
    | None => q
    end.
Proof.
  unfold first_number_word. induction table as [|[w v] table IH]; [reflexivity|].
  cbn [Quantity.number_word_pass find fst].
  destruct (found (word_re w) c); [reflexivity | exact IH].
Qed.

(** The quantity of [extract_quantity] in terms of the two passes: the value
    of the first table word occurring in the lower-cased text if there is
    one, else the quantity of the digit pass. *)
Lemma extract_quantity_fst (text language : str) :
  fst (Quantity.extract_quantity text language)
  = match first_number_word (Quantity.number_words language) (lower text) with
    | Some wv => snd wv
    | None => fst (Quantity.digit_pass (lower text))
    end.
Proof.
  unfold Quantity.extract_quantity.
  destruct (Quantity.digit_pass (lower text)) as [q c] eqn:Hdp.
  pose proof (number_word_pass_fst (Quantity.number_words language) q c) as Hp.
  destruct (Quantity.number_word_pass (Quantity.number_words language) q c) as [q' c'].
  cbn [fst] in *. rewrite Hp.
  replace c with (snd (Quantity.digit_pass (lower text))) by now rewrite Hdp.
  rewrite first_number_word_digit_pass by apply number_words_wordy.
  reflexivity.
Qed.



(** ** Substrings, trimming and the stop phrases *)

Lemma contains_spec (p s : str) :
  contains p s = true <-> exists a b, s = a ++ p ++ b.
Proof.
  induction s as [|c s IH]; cbn [contains].
  - rewrite orb_false_r, startswith_app. split.
    + intros [r Hr]. exists [], r. exact Hr.
    + intros [a [b H]]. destruct a; [exists b; exact H | discriminate].
  - rewrite orb_true_iff, startswith_app, IH. split.
    + intros [[r Hr] | [a [b H]]].
      * exists [], r. exact Hr.
      * exists (c :: a), b. now rewrite H.
    + intros [a [b H]]. destruct a as [|x a].
      * left. exists b. exact H.
      * right. injection H as _ H. exists a, b. exact H.
Qed.

Lemma lstrip_keeps (a : str) (x : ascii) (r : str) :
  is_space x = false -> exists a', lstrip (a ++ x :: r) = a' ++ x :: r.
Proof.
  intro Hx. induction a as [|c a IH]; cbn [app lstrip].
  - exists []. now rewrite Hx.
  - destruct (is_space c); [exact IH | now exists (c :: a)].
Qed.

Lemma rstrip_keeps (a : str) (y : ascii) (b : str) :
  is_space y = false -> exists b', rstrip (a ++ y :: b) = a ++ y :: b'.
Proof.
  intro Hy. unfold rstrip. rewrite rev_app_distr. cbn [rev]. rewrite <- app_assoc.
  cbn [app]. destruct (lstrip_keeps (rev b) y (rev a) Hy) as [b' ->].
  exists (rev b'). rewrite rev_app_distr. cbn [rev]. rewrite rev_involutive, <- app_assoc.
  reflexivity.
Qed.

(** Trimming keeps every substring that starts and ends with a character
    that is not white space. *)
Lemma strip_keeps (a : str) (x : ascii) (u : str) (y : ascii) (b : str) :
  is_space x = false -> is_space y = false ->
  exists a' b', strip (a ++ x :: u ++ y :: b) = a' ++ x :: u ++ y :: b'.
Proof.
  intros Hx Hy. unfold strip.
  destruct (lstrip_keeps a x (u ++ y :: b) Hx) as [a' ->].
  replace (a' ++ x :: u ++ y :: b) with ((a' ++ x :: u) ++ y :: b)
    by now rewrite <- app_assoc.
  destruct (rstrip_keeps (a' ++ x :: u) y b Hy) as [b' ->].
  exists a', b'. now rewrite <- app_assoc.
Qed.

Lemma has_word_contains (w : str) (pw : bool) (t : str) :
  has_word_from w pw t = true -> contains w t = true.
Proof.
  revert pw. induction t as [|c t IH]; intro pw; cbn [has_word_from contains].
  - rewrite orb_false_r. intro H. apply andb_true_iff in H as [H _].
    apply andb_true_iff in H as [_ H]. now rewrite H.
  - intro H. apply orb_true_iff in H as [H | H].
    + apply andb_true_iff in H as [H _]. apply andb_true_iff in H as [_ H]. now rewrite H.
    + apply IH in H. rewrite H. apply orb_true_r.
Qed.

Lemma show_contains_how (t : str) :
  contains (L "show") t = true -> contains (L "how") t = true.
Proof.
  rewrite !contains_spec. intros [a [b ->]].
  exists (a ++ L "s"), b. rewrite <- app_assoc. reflexivity.
Qed.

Lemma strip_keeps_how (t : str) :
  contains (L "how") t = true -> contains (L "how") (strip t) = true.
Proof.
  rewrite !contains_spec. intros [a [b ->]].
  destruct (strip_keeps a "h"%char (L "o") "w"%char b) as [a' [b' H]];
    [reflexivity | reflexivity |].
  exists a', b'. exact H.
Qed.

(** C10: every text whose lower-cased form contains "show" -- a member of the
    English search trigger list -- is classified as "invalid" and not as
    "search": the stop phrase "how" is a substring of "show" and the
    stop-phrase test comes first.  The same holds whenever the whole-word
    test for the trigger "show" would succeed, so that trigger never decides
    the result. *)
Theorem detect_intent_show_is_invalid :
  forall text language,
    contains (L "show") (lower text) = true \/
    Intent._has_any (strip (lower text)) [L "show"] = true ->
    Intent.detect_intent text language = L "invalid" /\
    Intent.detect_intent text language <> L "search".
Proof.
  intros text language H.
  assert (Hhow : contains (L "how") (strip (lower text)) = true).
  { destruct H as [H | H].
    - apply strip_keeps_how, show_contains_how, H.
    - apply show_contains_how. unfold Intent._has_any in H. cbn [existsb] in H.
      rewrite orb_false_r in H. rewrite found_word_re in H by reflexivity.
      exact (has_word_contains _ _ _ H). }
  assert (Hinv : Intent.detect_intent text language = L "invalid").
  { unfold Intent.detect_intent.
    assert (Hstop : existsb (fun p => contains p (strip (lower text))) Intent.stop_phrases
                    = true).
    { apply existsb_exists. exists (L "how"). split; [left; reflexivity | exact Hhow]. }
    rewrite Hstop. reflexivity. }
  split; [exact Hinv|]. rewrite Hinv. discriminate.
Qed.

Lemma detect_intent_show_is_invalid_witness :
  In (L "show") (Intent.search Intent.LEXICON_EN) /\
  (contains (L "show") (lower (L "Show me milk")) = true \/
   Intent._has_any (strip (lower (L "Show me milk"))) [L "show"] = true) /\
  Intent.detect_intent (L "Show me milk") (L "en") = L "invalid" /\
  Intent.detect_intent (L "Show me milk") (L "en") <> L "search".
Proof.
  split; [vm_compute; intuition|].
  split; [left; vm_compute; reflexivity|].
  apply (detect_intent_show_is_invalid (L "Show me milk") (L "en")).
  left. vm_compute. reflexivity.
Defined.

(** ** The price pattern *)

Lemma lowered_lower (s : str) : lowered (lower s) = true.
Proof.
  unfold lowered, lower. rewrite forallb_forall. intros x Hx.
  apply in_map_iff in Hx as [y [<- _]]. rewrite lower_char_idem. apply Ascii.eqb_refl.
Qed.

Lemma lowered_app (a b : str) : lowered (a ++ b) = lowered a && lowered b.
Proof. unfold lowered. apply forallb_app. Qed.

Lemma m_LitI_lowered (A : Type) (w : str) (k : mstate -> option A) (p t : str) (g : option str) :
  lowered w = true -> lowered t = true ->
  m (LitI w) k (MState p t g) = m (Lit w) k (MState p t g).
Proof.
  revert p t. induction w as [|c w IH]; intros p t Hw Ht; [reflexivity|].
  cbn [LitI Lit m rest prev grp1].
  destruct t as [|c' t']; [reflexivity|].
  cbn [lowered forallb] in Hw, Ht.
  apply andb_true_iff in Hw as [Hc Hw]. apply andb_true_iff in Ht as [Hc' Ht].
  apply Ascii.eqb_eq in Hc, Hc'. rewrite Hc, Hc'. rewrite (Ascii.eqb_sym c' c).
  destruct (Ascii.eqb c c'); [|reflexivity].
  apply IH; assumption.
Qed.

Lemma m_alts_cons (A : Type) (r : re) (l : list re) (k : mstate -> option A) (s : mstate) :
  m (alts (r :: l)) k s =
  match m r k s with
  | Some x => Some x
  | None => m (alts l) k s
  end.
Proof.
  destruct l as [|r' l]; [|reflexivity].
  cbn [alts Fail m]. destruct (m r k s); [reflexivity|].
  destruct (rest s); reflexivity.
Qed.

Section Triggers.
Variable A : Type.
Variable k : mstate -> option A.

(** The alternation of trigger literals at a position of a lower-cased text:
    either it fails, or the result is the continuation after one trigger
    that is a prefix of the text. *)
Lemma m_triggers_cases (T : list str) (p t : str) (g : option str) :
  forallb lowered T = true -> lowered t = true ->
  m (alts (map LitI T)) k (MState p t g) = None \/
  exists w, In w T /\ startswith w t = true /\
            m (alts (map LitI T)) k (MState p t g)
            = k (MState (rev w ++ p) (skipn (List.length w) t) g).
Proof.
  intros HT Ht. induction T as [|w T IH]; [left; cbn; destruct t; reflexivity|].
  cbn [forallb] in HT. apply andb_true_iff in HT as [Hw HT].
  cbn [map]. rewrite m_alts_cons, (m_LitI_lowered _ w k p t g Hw Ht), m_Lit.
  destruct (startswith w t) eqn:Hs.
  - destruct (k (MState (rev w ++ p) (skipn (List.length w) t) g)) as [x|] eqn:Hk.
    + right. exists w. split; [left; reflexivity|]. split; [exact Hs | now rewrite Hk].
    + destruct (IH HT) as [-> | [w' [Hin [Hs' ->]]]]; [now left|].
      right. exists w'. split; [right; exact Hin|]. split; [exact Hs' | reflexivity].
  - destruct (IH HT) as [-> | [w' [Hin [Hs' ->]]]]; [now left|].
    right. exists w'. split; [right; exact Hin|]. split; [exact Hs' | reflexivity].
Qed.

Lemma m_triggers_none (T : list str) (p t : str) (g : option str) :
  forallb lowered T = true -> lowered t = true ->
  (forall w, In w T -> startswith w t = false) ->
  m (alts (map LitI T)) k (MState p t g) = None.
Proof.
  intros HT Ht Hno.
  destruct (m_triggers_cases T p t g HT Ht) as [H | [w [Hin [Hs _]]]]; [exact H|].
  rewrite (Hno w Hin) in Hs. discriminate.
Qed.

Lemma m_triggers_some (T : list str) (w p t : str) (g : option str) :
  forallb lowered T = true -> lowered t = true ->
  In w T -> startswith w t = true ->
  k (MState (rev w ++ p) (skipn (List.length w) t) g) <> None ->
  m (alts (map LitI T)) k (MState p t g) <> None.
Proof.
  intros HT Ht Hin Hs Hk. induction T as [|w0 T IH]; [contradiction|].
  cbn [forallb] in HT. apply andb_true_iff in HT as [Hw0 HT].
  cbn [map]. rewrite m_alts_cons, (m_LitI_lowered _ w0 k p t g Hw0 Ht), m_Lit.
  destruct Hin as [-> | Hin].
  - rewrite Hs. destruct (k (MState (rev w ++ p) (skipn (List.length w) t) g));
      [discriminate | contradiction].
  - destruct (startswith w0 t).
    + destruct (k (MState (rev w0 ++ p) (skipn (List.length w0) t) g));
        [discriminate | now apply IH].
    + now apply IH.
Qed.

End Triggers.

(** *** The number group *)

Lemma span_digits_app (t : str) : t = fst (span_digits t) ++ snd (span_digits t).
Proof.
  induction t as [|c t IH]; [reflexivity|]. cbn [span_digits].
  destruct (is_digit c); [|reflexivity].
  destruct (span_digits t) as [d r]. cbn [fst snd app] in *. now rewrite <- IH.
Qed.

Lemma span_digits_digits (t : str) : forallb is_digit (fst (span_digits t)) = true.
Proof.
  induction t as [|c t IH]; [reflexivity|]. cbn [span_digits].
  destruct (is_digit c) eqn:Hc; [|reflexivity].
  destruct (span_digits t) as [d r]. cbn [fst forallb] in *. now rewrite Hc, IH.
Qed.

Lemma span_digits_rest (t : str) : digit_at (snd (span_digits t)) = false.
Proof.
  induction t as [|c t IH]; [reflexivity|]. cbn [span_digits].
  destruct (is_digit c) eqn:Hc; [|exact Hc].
  destruct (span_digits t) as [d r]. exact IH.
Qed.

Lemma span_digits_cons (c : ascii) (t : str) :
  is_digit c = true ->
  span_digits (c :: t) = (c :: fst (span_digits t), snd (span_digits t)).
Proof.
  intro Hc. cbn [span_digits]. rewrite Hc. now destruct (span_digits t).
Qed.

Lemma star_greedy_digits (A : Type) (K : mstate -> option A) (r p : str) (g : option str) (x : A) :
  K (MState (rev (fst (span_digits r)) ++ p) (snd (span_digits r)) g) = Some x ->
  star_greedy is_digit K p r g = Some x.
Proof.
  revert p. induction r as [|c r IH]; intros p HK; [exact HK|].
  cbn [star_greedy]. destruct (is_digit c) eqn:Hc.
  - rewrite (span_digits_cons c r Hc) in HK. cbn [fst snd rev] in HK.
    rewrite <- app_assoc in HK. cbn [app] in HK. now rewrite (IH (c :: p) HK).
  - cbn [span_digits] in HK. rewrite Hc in HK. exact HK.
Qed.

Lemma m_Plus_digits (A : Type) (K : mstate -> option A) (p t : str) (g : option str) (x : A) :
  digit_at t = true ->
  K (MState (rev (fst (span_digits t)) ++ p) (snd (span_digits t)) g) = Some x ->
  m (Plus is_digit) K (MState p t g) = Some x.
Proof.
  intros Hd HK. destruct t as [|c r]; [discriminate|]. cbn [digit_at] in Hd.
  unfold Plus. cbn [m rest prev grp1]. rewrite Hd.
  apply star_greedy_digits.
  rewrite (span_digits_cons c r Hd) in HK. cbn [fst snd rev] in HK.
  rewrite <- app_assoc in HK. exact HK.
Qed.

Lemma m_Plus_digits_none (A : Type) (K : mstate -> option A) (p t : str) (g : option str) :
  digit_at t = false -> m (Plus is_digit) K (MState p t g) = None.
Proof.
  intro Hd. unfold Plus. cbn [m rest]. destruct t as [|c r]; [reflexivity|].
  cbn [digit_at] in Hd. now rewrite Hd.
Qed.

Lemma m_number_group_none (A : Type) (K : mstate -> option A) (p t : str) (g : option str) :
  digit_at t = false -> m Filters.number_group K (MState p t g) = None.
Proof.
  intro Hd. unfold Filters.number_group. cbn [m]. now apply m_Plus_digits_none.
Qed.

Lemma take_number_whole (t : str) :
  match snd (span_digits t) with
  | c :: r' => Ascii.eqb c "." && digit_at r'
  | [] => false
  end = false ->
  take_number t = fst (span_digits t).
Proof.
  unfold take_number. destruct (span_digits t) as [ip r]. cbn [fst snd].
  destruct r as [|c r']; [reflexivity|].
  destruct (Ascii.eqb c "."); [|reflexivity]. cbn [andb]. intro Hd.
  destruct r' as [|c' r'']; [reflexivity|]. cbn [digit_at] in Hd.
  cbn [span_digits]. rewrite Hd. reflexivity.
Qed.

Lemma take_number_fraction (t r' : str) :
  snd (span_digits t) = "."%char :: r' -> digit_at r' = true ->
  take_number t = fst (span_digits t) ++ "."%char :: fst (span_digits r').
Proof.
  unfold take_number. destruct (span_digits t) as [ip r]. cbn [fst snd].
  intros -> Hd. cbn [Ascii.eqb Bool.eqb].
  destruct r' as [|c r'']; [discriminate|]. cbn [digit_at] in Hd.
  rewrite (span_digits_cons c r'' Hd). reflexivity.
Qed.

(** At a digit the number group matches the number written there, and the
    match cannot fail later: nothing follows the group in the patterns that
    use it this way. *)
Lemma m_number_group (p t : str) (g : option str) :
  digit_at t = true ->
  m Filters.number_group (@Some mstate) (MState p t g)
  = Some (MState (rev (take_number t) ++ p)
            (skipn (List.length (take_number t)) t) (Some (take_number t))).
Proof.
  intro Hd. unfold Filters.number_group. cbn [m rest prev grp1].
  apply (m_Plus_digits _ _ p t g _ Hd).
  unfold Opt. cbn [m rest prev grp1].
  pose proof (span_digits_app t) as Happ.
  set (ip := fst (span_digits t)) in *. set (r := snd (span_digits t)) in *.
  assert (Hcase : (exists r', r = "."%char :: r' /\ digit_at r' = true) \/
                  match r with
                  | c :: r' => Ascii.eqb c "." && digit_at r'
                  | [] => false
                  end = false).
  { destruct r as [|c r']; [now right|].
    destruct (Ascii.eqb c ".") eqn:Ec; [|now right].
    destruct (digit_at r') eqn:Hr; [|now right].
    left. apply Ascii.eqb_eq in Ec. subst c. now exists r'. }
  destruct Hcase as [[r' [Hr Hr']] | Hno].
  - rewrite Hr. cbn [Ascii.eqb Bool.eqb].
    pose proof (span_digits_app r') as Happ'.
    set (fp := fst (span_digits r')) in *. set (rr := snd (span_digits r')) in *.
    assert (Htn : take_number t = ip ++ "."%char :: fp)
      by (apply take_number_fraction; assumption).
    rewrite (m_Plus_digits _ _ ("."%char :: rev ip ++ p) r' g
               (MState (rev (take_number t) ++ p)
                  (skipn (List.length (take_number t)) t) (Some (take_number t))) Hr');
      [reflexivity|].
    fold fp. fold rr. cbn [prev rest].
    assert (Ht : t = take_number t ++ rr).
    { rewrite Htn, Happ, Hr, Happ', <- app_assoc. reflexivity. }
    set (n := take_number t) in *. clearbody n. rewrite Ht, skipn_length_app.
    replace (List.length (n ++ rr) - List.length rr)
      with (List.length n) by (rewrite length_app; lia).
    rewrite firstn_app, firstn_all, Nat.sub_diag, app_nil_r.
    rewrite Htn, rev_app_distr. cbn [rev]. rewrite <- !app_assoc. reflexivity.
  - assert (Htn : take_number t = ip) by now apply take_number_whole.
    assert (Hfail : m (Seq (Chr ".") (Plus is_digit))
                      (fun s' => Some (MState (prev s') (rest s')
                         (Some (firstn (List.length t - List.length (rest s')) t))))
                      (MState (rev ip ++ p) r g) = None).
    { cbn [m rest prev grp1]. destruct r as [|c r']; [reflexivity|].
      destruct (Ascii.eqb "." c) eqn:Ec; [|reflexivity].
      apply Ascii.eqb_eq in Ec. subst c. cbn [Ascii.eqb Bool.eqb andb] in Hno.
      now apply m_Plus_digits_none. }
    cbn [m rest prev grp1] in Hfail. rewrite Hfail. cbn [prev rest].
    assert (Ht : t = take_number t ++ r) by now rewrite Htn.
    set (n := take_number t) in *. clearbody n. rewrite Ht, skipn_length_app.
    replace (List.length (n ++ r) - List.length r)
      with (List.length n) by (rewrite length_app; lia).
    rewrite firstn_app, firstn_all, Nat.sub_diag, app_nil_r, Htn. reflexivity.
Qed.

(** *** From the trigger to the number *)

Lemma star_lazy_eq (A : Type) (f : ascii -> bool) (k : mstate -> option A)
    (p r : str) (g : option str) :
  star_lazy f k p r g =
  match k (MState p r g) with
  | Some x => Some x
  | None =>
      match r with
      | c :: r' => if f c then star_lazy f k (c :: p) r' g else None
      | [] => None
      end
  end.
Proof. destruct r; reflexivity. Qed.

(** The lazy [.*?] in front of the number group: over digit-free text it
    stops at the first digit, unless a line break comes first. *)
Lemma star_lazy_number (z p tail : str) (g : option str) :
  nodigit z = true -> digit_at tail = true ->
  star_lazy dot (m Filters.number_group (@Some mstate)) p (z ++ tail) g =
  if forallb dot z
  then Some (MState (rev (take_number tail) ++ rev z ++ p)
               (skipn (List.length (take_number tail)) tail) (Some (take_number tail)))
  else None.
Proof.
  intros Hz Ht. revert p. induction z as [|c z IH]; intro p.
  - cbn [app forallb rev]. rewrite star_lazy_eq, (m_number_group p tail g Ht). reflexivity.
  - cbn [nodigit forallb] in Hz. apply andb_true_iff in Hz as [Hc Hz].
    apply negb_true_iff in Hc.
    cbn [app forallb]. rewrite star_lazy_eq.
    rewrite m_number_group_none by exact Hc.
    destruct (dot c); [|reflexivity]. cbn [andb].
    rewrite (IH Hz). cbn [rev]. rewrite <- !app_assoc. reflexivity.
Qed.

Lemma prefix_in_zone (w z tail : str) :
  startswith w (z ++ tail) = true -> nodigit w = true -> digit_at tail = true ->
  exists z', z = w ++ z'.
Proof.
  revert z. induction w as [|c w IH]; intros z Hs Hw Ht; [now exists z|].
  cbn [nodigit forallb] in Hw. apply andb_true_iff in Hw as [Hc Hw].
  apply negb_true_iff in Hc.
  destruct z as [|c' z].
  - cbn [app] in Hs. destruct tail as [|d tail]; [discriminate|].
    cbn [startswith digit_at] in Hs, Ht.
    apply andb_true_iff in Hs as [E _]. apply Ascii.eqb_eq in E. congruence.
  - cbn [app startswith] in Hs. apply andb_true_iff in Hs as [E Hs].
    apply Ascii.eqb_eq in E. subst c'.
    destruct (IH z Hs Hw Ht) as [z' ->]. now exists z'.
Qed.

Lemma m_Seq (A : Type) (a b : re) (k : mstate -> option A) (s : mstate) :
  m (Seq a b) k s = m a (m b k) s.
Proof. reflexivity. Qed.

Lemma match_at_price_re (T : list str) (p t : str) :
  match_at (Filters.price_re T) p t
  = m (alts (map LitI T)) (m (Seq (Star false dot) Filters.number_group) (@Some mstate))
      (MState p t None).
Proof. reflexivity. Qed.

Lemma m_lazy_number (p t : str) (g : option str) :
  m (Seq (Star false dot) Filters.number_group) (@Some mstate) (MState p t g)
  = star_lazy dot (m Filters.number_group (@Some mstate)) p t g.
Proof. reflexivity. Qed.

Section Price.
Variable T : list str.
Hypothesis T_lowered : forallb lowered T = true.
Hypothesis T_nodigit : forallb nodigit T = true.
Hypothesis T_dot : forallb (forallb dot) T = true.

Lemma nodigit_app (a b : str) : nodigit (a ++ b) = nodigit a && nodigit b.
Proof. unfold nodigit. apply forallb_app. Qed.

(** A match of the price pattern that starts inside digit-free text in
    front of a number captures that number. *)
Lemma match_at_price_zone (p z tail : str) :
  lowered (z ++ tail) = true -> nodigit z = true -> digit_at tail = true ->
  match_at (Filters.price_re T) p (z ++ tail) = None \/
  exists s, match_at (Filters.price_re T) p (z ++ tail) = Some s /\
            group1 s = take_number tail.
Proof.
  intros Hl Hz Ht. rewrite match_at_price_re.
  destruct (m_triggers_cases _ (m (Seq (Star false dot) Filters.number_group) (@Some mstate))
              T p (z ++ tail) None T_lowered Hl) as [-> | [w [Hin [Hs ->]]]]; [now left|].
  assert (Hw : nodigit w = true).
  { rewrite forallb_forall in T_nodigit. now apply T_nodigit. }
  destruct (prefix_in_zone w z tail Hs Hw Ht) as [z' ->].
  rewrite nodigit_app in Hz. apply andb_true_iff in Hz as [_ Hz'].
  rewrite <- app_assoc, skipn_length_app, m_lazy_number.
  rewrite (star_lazy_number z' (rev w ++ p) tail None Hz' Ht).
  destruct (forallb dot z'); [|now left].
  right. eexists. split; reflexivity.
Qed.

Lemma match_at_price_trigger (p trig gap tail : str) :
  In trig T -> lowered (trig ++ gap ++ tail) = true ->
  nodigit gap = true -> forallb dot gap = true -> digit_at tail = true ->
  exists s, match_at (Filters.price_re T) p (trig ++ gap ++ tail) = Some s /\
            group1 s = take_number tail.
Proof.
  intros Hin Hl Hg Hdot Ht.
  assert (Hw : nodigit trig = true).
  { rewrite forallb_forall in T_nodigit. now apply T_nodigit. }
  assert (Hz : nodigit (trig ++ gap) = true) by now rewrite nodigit_app, Hw, Hg.
  pose proof (match_at_price_zone p (trig ++ gap) tail) as Hzone.
  rewrite <- app_assoc in Hzone. destruct (Hzone Hl Hz Ht) as [Hnone | Hsome]; [|exact Hsome].
  exfalso. revert Hnone. rewrite match_at_price_re.
  apply (m_triggers_some _ _ T trig p (trig ++ gap ++ tail) None T_lowered Hl Hin).
  - apply startswith_self_app.
  - rewrite skipn_length_app, m_lazy_number.
    rewrite (star_lazy_number gap (rev trig ++ p) tail None Hg Ht), Hdot. discriminate.
Qed.

Lemma match_at_price_no_trigger (p t : str) :
  lowered t = true ->
  (forall w, In w T -> startswith w t = false) ->
  match_at (Filters.price_re T) p t = None.
Proof.
  intros Hl Hno. rewrite match_at_price_re.
  now apply m_triggers_none.
Qed.

Lemma search_from_eq (r : re) (p t : str) :
  search_from r p t =
  match match_at r p t with
  | Some s => Some s
  | None =>
      match t with
      | c :: t' => search_from r (c :: p) t'
      | [] => None
      end
  end.
Proof. destruct t; reflexivity. Qed.

(** The leftmost match of the price pattern starts at the first trigger
    occurrence and captures the first number after it. *)
Lemma search_from_price (pre p trig gap tail : str) :
  In trig T -> lowered (pre ++ trig ++ gap ++ tail) = true ->
  first_trigger T pre (pre ++ trig ++ gap ++ tail) ->
  nodigit gap = true -> forallb dot gap = true -> digit_at tail = true ->
  exists s, search_from (Filters.price_re T) p (pre ++ trig ++ gap ++ tail) = Some s /\
            group1 s = take_number tail.
Proof.
  intros Hin Hl Hfirst Hg Hdot Ht. revert p Hl Hfirst.
  induction pre as [|c pre IH]; intros p Hl Hfirst.
  - cbn [app] in *. rewrite search_from_eq.
    destruct (match_at_price_trigger p trig gap tail Hin Hl Hg Hdot Ht) as [s [-> Hs]].
    now exists s.
  - cbn [app] in *. rewrite search_from_eq.
    rewrite match_at_price_no_trigger; [| exact Hl |].
    + apply IH.
      * cbn [lowered forallb] in Hl. now apply andb_true_iff in Hl as [_ Hl].
      * intros a b w Hw E.
        pose proof (Hfirst (c :: a) b w Hw) as H. cbn [app List.length] in H.
        rewrite E in H. specialize (H eq_refl). lia.
    + intros w Hw. destruct (startswith w (c :: pre ++ trig ++ gap ++ tail)) eqn:Hs;
        [|reflexivity].
      apply startswith_app in Hs as [r Hr].
      pose proof (Hfirst [] r w Hw Hr) as H. cbn [List.length] in H. lia.
Qed.

End Price.

(** *** Reading the number *)

Lemma span_digits_all (d r : str) :
  forallb is_digit d = true -> digit_at r = false -> span_digits (d ++ r) = (d, r).
Proof.
  intros Hd Hr. induction d as [|c d IH].
  - destruct r as [|c r]; [reflexivity|]. cbn [app span_digits].
    cbn [digit_at] in Hr. now rewrite Hr.
  - cbn [forallb] in Hd. apply andb_true_iff in Hd as [Hc Hd].
    cbn [app]. rewrite (span_digits_cons c (d ++ r) Hc), (IH Hd). reflexivity.
Qed.

Lemma digits_val_nonneg (s : str) (acc v : Z) :
  (0 <= acc)%Z -> digits_val acc s = Some v -> (0 <= v)%Z.
Proof.
  revert acc. induction s as [|c s IH]; intros acc Hacc H.
  - injection H as <-. exact Hacc.
  - cbn [digits_val] in H. destruct (is_digit c); [|discriminate].
    apply (IH (10 * acc + digit_val c)%Z); [|exact H].
    unfold digit_val. lia.
Qed.

Lemma int_nonneg (s : str) (n : Z) : int s = Some n -> (0 <= n)%Z.
Proof.
  destruct s as [|c s]; [discriminate|]. unfold int.
  destruct (4300 <? List.length (c :: s)); [discriminate|].
  apply digits_val_nonneg. lia.
Qed.

Lemma round_half_even_1 (n : Z) : round_half_even n 1 = n.
Proof.
  unfold round_half_even. rewrite Z.mod_1_r, Z.div_1_r. reflexivity.
Qed.

Lemma Qred_int (n : Z) : Qred (n # 1) = (n # 1)%Q.
Proof.
  unfold Qred. pose proof (Z.ggcd_correct_divisors n 1) as H.
  pose proof (Z.ggcd_gcd n 1) as Hg. rewrite Z.gcd_1_r in Hg.
  change (Z.pos 1) with 1%Z.
  destruct (Z.ggcd n 1) as [g [aa bb]]. cbn [fst snd] in *. subst g.
  destruct H as [Ha Hb]. rewrite Z.mul_1_l in Ha, Hb. now subst aa bb.
Qed.

(** An integer below [2 ^ 53] is a double. *)
Lemma nearest_double_int (n : Z) :
  (0 <= n < 2 ^ 53)%Z -> nearest_double n 1 = Some (n # 1)%Q.
Proof.
  intros [Hn Hlt]. unfold nearest_double.
  destruct (Z.leb_spec n 0) as [H0 | Hpos].
  { replace n with 0%Z by lia. reflexivity. }
  change (Z.log2 1) with 0%Z. rewrite Z.sub_0_r.
  pose proof (Z.log2_nonneg n) as Hl0.
  assert (Hl : (Z.log2 n < 53)%Z) by (apply Z.log2_lt_pow2; lia).
  destruct (Z.leb_spec 0 (Z.log2 n)) as [_|]; [|lia].
  assert (Hb : (n <? 1 * 2 ^ Z.log2 n)%Z = false).
  { apply Z.ltb_ge. rewrite Z.mul_1_l. now apply Z.log2_spec. }
  rewrite Hb.
  assert (He : Z.max (Z.log2 n - 52) (-1074) = (Z.log2 n - 52)%Z) by lia.
  rewrite He.
  destruct (Z.leb_spec 0 (Z.log2 n - 52)) as [Hge | Hneg].
  - replace (Z.log2 n - 52)%Z with 0%Z by lia.
    change (2 ^ 0)%Z with 1%Z. rewrite !Z.mul_1_r, round_half_even_1.
    destruct (Z.leb_spec (2 ^ 1024) n) as [Hbig|]; [|reflexivity].
    exfalso. assert (2 ^ 53 < 2 ^ 1024)%Z by (apply Z.pow_lt_mono_r; lia). lia.
  - rewrite round_half_even_1. f_equal.
    set (k := (- (Z.log2 n - 52))%Z).
    assert (Hk : (0 < 2 ^ k)%Z) by (apply Z.pow_pos_nonneg; unfold k; lia).
    rewrite <- (Qred_int n). apply Qred_complete.
    unfold Qeq. cbn [Qnum Qden]. rewrite Z2Pos.id by exact Hk. lia.
Qed.

Lemma float_int (s : str) (n : Z) :
  int s = Some n -> (n < 2 ^ 53)%Z -> float s = Some (n # 1)%Q.
Proof.
  intros Hi Hlt. pose proof (int_nonneg s n Hi) as Hn.
  destruct (int_some_digits s n Hi) as [Hne Hd].
  unfold int in Hi. destruct s as [|c s]; [contradiction|].
  destruct (4300 <? List.length (c :: s)); [discriminate|].
  unfold float.
  pose proof (span_digits_all (c :: s) [] Hd eq_refl) as Hsp.
  rewrite app_nil_r in Hsp. rewrite Hsp, Hi.
  apply nearest_double_int. lia.
Qed.

Lemma digits_val_some (s : str) (acc : Z) :
  forallb is_digit s = true -> exists v, digits_val acc s = Some v.
Proof.
  revert acc. induction s as [|c s IH]; intros acc Hs; [now exists acc|].
  cbn [forallb] in Hs. apply andb_true_iff in Hs as [Hc Hs].
  cbn [digits_val]. rewrite Hc. now apply IH.
Qed.

Lemma take_number_shape (t : str) :
  take_number t = fst (span_digits t) \/
  exists fp, fp <> [] /\ forallb is_digit fp = true /\
             take_number t = fst (span_digits t) ++ "."%char :: fp.
Proof.
  unfold take_number. destruct (span_digits t) as [ip r]. cbn [fst].
  destruct r as [|c r']; [now left|].
  destruct (Ascii.eqb c ".") eqn:Ec; [|now left].
  apply Ascii.eqb_eq in Ec. subst c.
  pose proof (span_digits_digits r') as Hfp.
  destruct (fst (span_digits r')) as [|x fp]; [now left|].
  right. exists (x :: fp). split; [discriminate|]. split; [exact Hfp | reflexivity].
Qed.

(** *** The rule-based pipeline *)

(** What the rule-based pipeline returns, field by field. *)
Lemma rule_based_fields (env : Parser.Env) (text language : str) :
  exists c,
    Parser.rule_based env text language = Returned c /\
    action c = Intent.detect_intent text language /\
    quantity c = Z.max 1 (fst (Quantity.extract_quantity text language)) /\
    brand (filters c) = Filters._extract_brand (Parser.mock_products env) text /\
    price_max (filters c) = Filters._extract_price_max text /\
    size (filters c) = [] /\
    Schemas.language c = language /\
    raw_text c = text.
Proof.
  unfold Parser.rule_based.
  destruct (Quantity.extract_quantity text language) as [q cleaned].
  unfold new_ParsedVoiceCommand. cbn [action].
  rewrite (proj2 (mem_In _ _) (detect_intent_in_Action text language)).
  eexists. split; [reflexivity|].
  cbn [action quantity filters brand price_max size Schemas.language raw_text fst].
  repeat split.
  destruct (_ && _); lia.
Qed.

(** *** The price ceiling of a text *)

Lemma price_triggers_facts (T : list str) :
  T = Filters.price_triggers_en \/ T = Filters.price_triggers_es ->
  forallb lowered T = true /\ forallb nodigit T = true.
Proof. intros [-> | ->]; vm_compute; split; reflexivity. Qed.

Lemma extract_price_max_first_trigger (text : str) (T : list str) (pre trig gap tail : str)
    (v : Q) :
  T = Filters.price_triggers_en \/
  T = Filters.price_triggers_es /\
  search (Filters.price_re Filters.price_triggers_en) (lower text) = None ->
  In trig T ->
  lower text = pre ++ trig ++ gap ++ tail ->
  first_trigger T pre (lower text) ->
  nodigit gap = true -> forallb dot gap = true -> digit_at tail = true ->
  float (take_number tail) = Some v ->
  Filters._extract_price_max text = v.
Proof.
  intros HT Hin Ht Hfirst Hg Hdot Htail Hv.
  assert (Hfacts : forallb lowered T = true /\ forallb nodigit T = true).
  { apply price_triggers_facts. destruct HT as [-> | [-> _]]; auto. }
  destruct Hfacts as [HTl HTn].
  assert (Hl : lowered (pre ++ trig ++ gap ++ tail) = true)
    by (rewrite <- Ht; apply lowered_lower).
  rewrite Ht in Hfirst.
  destruct (search_from_price T HTl HTn pre [] trig gap tail Hin Hl Hfirst Hg Hdot Htail)
    as [s [Hs Hgrp]].
  unfold Filters._extract_price_max. rewrite Ht.
  destruct HT as [-> | [-> Hen]].
  - unfold search. rewrite Hs, Hgrp, Hv. reflexivity.
  - rewrite Ht in Hen. rewrite Hen. unfold search. rewrite Hs, Hgrp, Hv. reflexivity.
Qed.

(** A check that decides [first_trigger] on a given text. *)
Lemma first_trigger_check (T : list str) (pre t : str) :
  forallb (fun i => forallb (fun w => negb (startswith w (skipn i t))) T)
    (seq 0 (List.length pre)) = true ->
  first_trigger T pre t.
Proof.
  intros Hchk a b w Hw Et.
  destruct (Nat.le_gt_cases (List.length pre) (List.length a)) as [Hle | Hlt]; [exact Hle|].
  exfalso. rewrite forallb_forall in Hchk.
  assert (Hi : In (List.length a) (seq 0 (List.length pre))) by (apply in_seq; lia).
  specialize (Hchk _ Hi). rewrite forallb_forall in Hchk. specialize (Hchk w Hw).
  rewrite Et, skipn_length_app, startswith_self_app in Hchk. discriminate.
Qed.

(** The Spanish test sentence of the repository: no English trigger, the
    Spanish trigger "hasta", then the number 5. *)
Lemma extract_price_max_hasta_5 :
  Filters._extract_price_max (L "Busca leche hasta 5") = (5 # 1)%Q.
Proof.
  apply (extract_price_max_first_trigger (L "Busca leche hasta 5")
           Filters.price_triggers_es (L "busca leche ") (L "hasta") (L " ") (L "5")).
  - right. split; [reflexivity | vm_compute; reflexivity].
  - vm_compute; intuition.
  - vm_compute; reflexivity.
  - apply first_trigger_check. vm_compute; reflexivity.
  - reflexivity.
  - reflexivity.
  - reflexivity.
  - vm_compute; reflexivity.
Qed.

(** C2 as stated fails, in two ways.  In "cheaper than" + line break +
    "4 dollars" the trigger "cheaper than" is followed by the number 4, yet
    the price ceiling of the returned command is 0, because [.] does not
    match a line break.  In "under 9007199254740993" the price ceiling is
    not that number but the double nearest to it, 9007199254740992. *)
Lemma parse_voice_command_price_not_the_number :
  let text := L "cheaper than" ++ [chr 10] ++ L "4" ++ L " dollars" in
  let text' := L "under 9007199254740993" in
  In (L "cheaper than") Filters.price_triggers_en /\
  In (L "under") Filters.price_triggers_en /\
  (exists c,
     Parser.parse_voice_command (rule_env None) text None = Returned c /\
     price_max (filters c) = (0 # 1)%Q /\
     ~ (price_max (filters c) == 4 # 1)%Q) /\
  (exists c,
     Parser.parse_voice_command (rule_env None) text' None = Returned c /\
     price_max (filters c) = (9007199254740992 # 1)%Q /\
     ~ (price_max (filters c) == 9007199254740993 # 1)%Q).
Proof.
  split; [vm_compute; intuition|]. split; [vm_compute; intuition|]. split.
  - eexists. split; [vm_compute; reflexivity|]. split; [reflexivity|].
    cbn [price_max filters]. intro H. vm_compute in H. discriminate.
  - eexists. split; [vm_compute; reflexivity|]. split; [reflexivity|].
    cbn [price_max filters]. intro H. vm_compute in H. discriminate.
Qed.

(** C2 (amended): when the optional OpenAI parser yields no result, for every
    text (of Latin-1 characters, as all text here) whose lower-cased form
    reads [pre ++ trig ++ gap ++ tail] -- where [trig] is an English price
    trigger, or a Spanish one when the English pattern matches nowhere in the
    text; no trigger of that list occurs earlier; [gap] has no digit and no
    line break; [tail] starts with a digit -- [parse_voice_command] returns a
    command whose [filters.price_max] is [float] of the number written at the
    head of [tail]: the double nearest to it, [v], when the number is within
    the range of the doubles, and the number itself when it is an integer
    below [2 ^ 53].  The filters are taken from the original text, so the
    later removal of the same digit by quantity extraction does not affect
    them. *)
Theorem parse_voice_command_price_max :
  forall env text hint T pre trig gap tail v,
    Parser._openai_parse env text (Language.detect_language text hint) = Returned None ->
    (T = Filters.price_triggers_en \/
     T = Filters.price_triggers_es /\
     search (Filters.price_re Filters.price_triggers_en) (lower text) = None) ->
    In trig T ->
    lower text = pre ++ trig ++ gap ++ tail ->
    first_trigger T pre (lower text) ->
    nodigit gap = true -> forallb dot gap = true -> digit_at tail = true ->
    float (take_number tail) = Some v ->
    exists c,
      Parser.parse_voice_command env text hint = Returned c /\
      price_max (filters c) = v /\
      (forall n, int (take_number tail) = Some n -> (n < 2 ^ 53)%Z ->
                 price_max (filters c) = (n # 1)%Q).
Proof.
  intros env text hint T pre trig gap tail v Hoff HT Hin Ht Hfirst Hg Hdot Htail Hv.
  unfold Parser.parse_voice_command. rewrite Hoff.
  destruct (rule_based_fields env text (Language.detect_language text hint))
    as [c [Hc [_ [_ [_ [Hprice _]]]]]].
  assert (Hp : price_max (filters c) = v).
  { rewrite Hprice.
    exact (extract_price_max_first_trigger text T pre trig gap tail v
             HT Hin Ht Hfirst Hg Hdot Htail Hv). }
  exists c. split; [exact Hc|]. split; [exact Hp|].
  intros n Hn Hlt. rewrite Hp.
  rewrite (float_int (take_number tail) n Hn Hlt) in Hv. now injection Hv.
Qed.

Lemma parse_voice_command_price_max_witness :
  let text := L "Search for milk cheaper than 4 dollars" in
  let T := Filters.price_triggers_en in
  let pre := L "search for milk " in
  let trig := L "cheaper than" in
  let gap := L " " in
  let tail := L "4 dollars" in
  Parser._openai_parse (rule_env None) text (Language.detect_language text None)
    = Returned None /\
  In trig T /\
  lower text = pre ++ trig ++ gap ++ tail /\
  first_trigger T pre (lower text) /\
  nodigit gap = true /\ forallb dot gap = true /\ digit_at tail = true /\
  float (take_number tail) = Some (4 # 1)%Q /\
  int (take_number tail) = Some 4%Z /\
  fst (Quantity.extract_quantity text (L "en")) = 4%Z /\
  exists c,
    Parser.parse_voice_command (rule_env None) text None = Returned c /\
    price_max (filters c) = (4 # 1)%Q /\
    (forall n, int (take_number tail) = Some n -> (n < 2 ^ 53)%Z ->
               price_max (filters c) = (n # 1)%Q).
Proof.
  intros text T pre trig gap tail.
  assert (Hfirst : first_trigger T pre (lower text))
    by (apply first_trigger_check; vm_compute; reflexivity).
  split; [vm_compute; reflexivity|].
  split; [vm_compute; intuition|].
  split; [vm_compute; reflexivity|].
  split; [exact Hfirst|].
  split; [vm_compute; reflexivity|].
  split; [vm_compute; reflexivity|].
  split; [vm_compute; reflexivity|].
  split; [vm_compute; reflexivity|].
  split; [vm_compute; reflexivity|].
  split; [vm_compute; reflexivity|].
  apply (parse_voice_command_price_max (rule_env None) text None T pre trig gap tail).
  - vm_compute; reflexivity.
  - left; reflexivity.
  - vm_compute; intuition.
  - vm_compute; reflexivity.
  - exact Hfirst.
  - vm_compute; reflexivity.
  - vm_compute; reflexivity.
  - vm_compute; reflexivity.
  - vm_compute; reflexivity.
Defined.

(** ** The residual text of quantity extraction *)

Lemma lstrip_suffix (s : str) :
  exists u, s = u ++ lstrip s /\ forallb is_space u = true.
Proof.
  induction s as [|c s IH]; [now exists []|]. cbn [lstrip].
  destruct (is_space c) eqn:Hc.
  - destruct IH as [u [Hu Hsp]]. exists (c :: u). cbn [app forallb].
    rewrite Hc, Hsp. split; [now rewrite <- Hu | reflexivity].
  - now exists [].
Qed.

Lemma lstrip_no_space (s : str) : space_at (lstrip s) = false.
Proof.
  induction s as [|c s IH]; [reflexivity|]. cbn [lstrip].
  destruct (is_space c) eqn:Hc; [exact IH | exact Hc].
Qed.

Lemma lstrip_fixed (s : str) : space_at s = false -> lstrip s = s.
Proof. destruct s as [|c s]; [reflexivity|]. cbn [space_at lstrip]. now intros ->. Qed.

Lemma lstrip_length (s : str) : List.length (lstrip s) <= List.length s.
Proof.
  destruct (lstrip_suffix s) as [u [Hu _]].
  apply (f_equal (@List.length ascii)) in Hu. rewrite length_app in Hu. lia.
Qed.

Lemma rstrip_prefix (s : str) : exists u, s = rstrip s ++ u.
Proof.
  unfold rstrip. destruct (lstrip_suffix (rev s)) as [u [Hu _]].
  exists (rev u). rewrite <- rev_app_distr, <- Hu, rev_involutive. reflexivity.
Qed.

Lemma rstrip_fixed (s : str) : space_at (rev s) = false -> rstrip s = s.
Proof. intro H. unfold rstrip. rewrite (lstrip_fixed _ H). apply rev_involutive. Qed.

Lemma strip_strip (s : str) : strip (strip s) = strip s.
Proof.
  assert (Hhead : space_at (strip s) = false).
  { unfold strip. destruct (rstrip_prefix (lstrip s)) as [u Hu].
    pose proof (lstrip_no_space s) as Hz. rewrite Hu in Hz.
    destruct (rstrip (lstrip s)); [reflexivity | exact Hz]. }
  assert (Hlast : space_at (rev (strip s)) = false).
  { unfold strip, rstrip. rewrite rev_involutive. apply lstrip_no_space. }
  unfold strip at 1. rewrite (lstrip_fixed _ Hhead). now apply rstrip_fixed.
Qed.

Section CharProperty.
Variable P : ascii -> bool.

Lemma forallb_rev (s : str) : forallb P (rev s) = forallb P s.
Proof.
  induction s as [|c s IH]; [reflexivity|].
  cbn [rev forallb]. rewrite forallb_app, IH. cbn [forallb]. rewrite andb_true_r.
  apply andb_comm.
Qed.

Lemma forallb_lstrip (s : str) : forallb P s = true -> forallb P (lstrip s) = true.
Proof.
  destruct (lstrip_suffix s) as [u [Hu _]]. intro H. rewrite Hu, forallb_app in H.
  now apply andb_true_iff in H as [_ H].
Qed.

Lemma forallb_strip (s : str) : forallb P s = true -> forallb P (strip s) = true.
Proof.
  intro H. unfold strip, rstrip. rewrite forallb_rev. apply forallb_lstrip.
  rewrite forallb_rev. now apply forallb_lstrip.
Qed.

Lemma forallb_sub_from (r : re) (repl p t : str) (skip : nat) :
  forallb P repl = true -> forallb P t = true ->
  forallb P (sub_from r repl p t skip) = true.
Proof.
  intros Hr. revert p skip. induction t as [|c t IH]; intros p skip Ht; [reflexivity|].
  cbn [forallb] in Ht. apply andb_true_iff in Ht as [Hc Ht].
  cbn [sub_from]. destruct skip as [|n]; [|now apply IH].
  destruct (match_at r p (c :: t)) as [s|].
  - destruct (List.length (c :: t) - List.length (rest s)).
    + cbn [forallb]. rewrite Hc. now apply IH.
    + rewrite forallb_app, Hr. now apply IH.
  - cbn [forallb]. rewrite Hc. now apply IH.
Qed.

Lemma forallb_sub (r : re) (repl t : str) :
  forallb P repl = true -> forallb P t = true -> forallb P (sub r repl t) = true.
Proof. apply forallb_sub_from. Qed.

End CharProperty.

Lemma lowered_fixed (s : str) : lowered s = true -> lower s = s.
Proof.
  induction s as [|c s IH]; [reflexivity|]. cbn [lowered forallb lower map].
  intro H. apply andb_true_iff in H as [Hc Hs]. apply Ascii.eqb_eq in Hc.
  rewrite Hc. f_equal. now apply IH.
Qed.

Lemma number_word_pass_snd (table : list (str * Z)) (q : Z) (c : str) :
  snd (Quantity.number_word_pass table q c) = c \/
  exists w, snd (Quantity.number_word_pass table q c) = sub (word_re w) (L " ") c.
Proof.
  induction table as [|[w v] table IH]; [now left|].
  cbn [Quantity.number_word_pass]. destruct (found (word_re w) c); [|exact IH].
  right. now exists w.
Qed.

(** The residual text is in lower case. *)
Lemma extract_quantity_lowered (text language : str) :
  lowered (snd (Quantity.extract_quantity text language)) = true.
Proof.
  unfold Quantity.extract_quantity.
  assert (H1 : lowered (snd (Quantity.digit_pass (lower text))) = true).
  { destruct (digit_pass_cases (lower text)) as [-> | [d [_ [_ ->]]]].
    - apply lowered_lower.
    - apply forallb_sub; [reflexivity | apply lowered_lower]. }
  destruct (Quantity.digit_pass (lower text)) as [q c]. cbn [snd] in H1.
  assert (H2 : lowered (snd (Quantity.number_word_pass (Quantity.number_words language) q c))
               = true).
  { destruct (number_word_pass_snd (Quantity.number_words language) q c) as [-> | [w ->]].
    - exact H1.
    - apply forallb_sub; [reflexivity | exact H1]. }
  destruct (Quantity.number_word_pass (Quantity.number_words language) q c) as [q' c'].
  cbn [snd] in *. apply forallb_strip. apply forallb_sub; [reflexivity | exact H2].
Qed.

(** *** Collapsing white space *)

Lemma star_greedy_spaces (r p : str) (g : option str) :
  exists p', star_greedy is_space (@Some mstate) p r g = Some (MState p' (lstrip r) g).
Proof.
  revert p. induction r as [|c r IH]; intro p; [now exists p|].
  cbn [star_greedy lstrip]. destruct (is_space c).
  - destruct (IH (c :: p)) as [p' ->]. now exists p'.
  - now exists p.
Qed.

Lemma match_at_spaces (p t : str) :
  if space_at t
  then exists p', match_at Quantity.spaces_re p t = Some (MState p' (lstrip t) None)
  else match_at Quantity.spaces_re p t = None.
Proof.
  unfold match_at, Quantity.spaces_re, Plus. cbn [m rest prev grp1].
  destruct t as [|c t]; [reflexivity|]. cbn [space_at lstrip].
  destruct (is_space c); [|reflexivity]. apply star_greedy_spaces.
Qed.

Lemma sub_spaces_prev (repl p p' t : str) (n : nat) :
  sub_from Quantity.spaces_re repl p t n = sub_from Quantity.spaces_re repl p' t n.
Proof.
  revert p p' n. induction t as [|c t IH]; intros p p' n; [reflexivity|].
  cbn [sub_from]. destruct n as [|n]; [|apply IH].
  pose proof (match_at_spaces p (c :: t)) as H1.
  pose proof (match_at_spaces p' (c :: t)) as H2.
  destruct (space_at (c :: t)).
  - destruct H1 as [q1 ->]. destruct H2 as [q2 ->]. cbn [rest].
    destruct (List.length (c :: t) - List.length (lstrip (c :: t)));
      f_equal; apply IH.
  - rewrite H1, H2. f_equal. apply IH.
Qed.

Lemma collapse_step (c : ascii) (t : str) :
  sub Quantity.spaces_re (L " ") (c :: t) =
  if is_space c then " "%char :: sub Quantity.spaces_re (L " ") (lstrip t)
  else c :: sub Quantity.spaces_re (L " ") t.
Proof.
  unfold sub. cbn [sub_from].
  pose proof (match_at_spaces [] (c :: t)) as H. cbn [space_at lstrip] in H.
  destruct (is_space c).
  - destruct H as [q ->]. cbn [rest].
    destruct (lstrip_suffix t) as [u [Hu _]].
    pose proof (lstrip_length t) as Hlen.
    replace (List.length (c :: t) - List.length (lstrip t))
      with (S (List.length u)).
    2:{ apply (f_equal (@List.length ascii)) in Hu. rewrite length_app in Hu.
        cbn [List.length]. lia. }
    rewrite Hu at 1. rewrite sub_from_skip.
    cbn [L list_ascii_of_string app]. f_equal. apply sub_spaces_prev.
  - rewrite H. f_equal. apply sub_spaces_prev.
Qed.

Lemma collapse_no_space_head (t : str) :
  space_at t = false -> space_at (sub Quantity.spaces_re (L " ") t) = false.
Proof.
  destruct t as [|c t]; [reflexivity|]. cbn [space_at]. intro Hc.
  rewrite collapse_step, Hc. exact Hc.
Qed.

Lemma collapse_single_spaced_len (n : nat) (t : str) :
  List.length t <= n -> single_spaced (sub Quantity.spaces_re (L " ") t) = true.
Proof.
  revert t. induction n as [|n IH]; intros t Hlen.
  - destruct t; [reflexivity | cbn in Hlen; lia].
  - destruct t as [|c t]; [reflexivity|]. rewrite collapse_step.
    cbn [List.length] in Hlen.
    destruct (is_space c) eqn:Hc.
    + cbn [single_spaced]. change (is_space " ") with true. cbn iota.
      rewrite (collapse_no_space_head _ (lstrip_no_space t)).
      rewrite IH; [reflexivity|]. pose proof (lstrip_length t). lia.
    + cbn [single_spaced]. rewrite Hc, IH; [reflexivity | lia].
Qed.

Lemma collapse_single_spaced (t : str) :
  single_spaced (sub Quantity.spaces_re (L " ") t) = true.
Proof. exact (collapse_single_spaced_len (List.length t) t (le_n _)). Qed.

(** Collapsing changes nothing in a text that is already single-spaced. *)
Lemma collapse_fixed (s : str) :
  single_spaced s = true -> sub Quantity.spaces_re (L " ") s = s.
Proof.
  induction s as [|c s IH]; [reflexivity|]. cbn [single_spaced].
  intro H. apply andb_true_iff in H as [Hc Hs]. rewrite collapse_step.
  destruct (is_space c).
  - apply andb_true_iff in Hc as [Ec Hn]. apply Ascii.eqb_eq in Ec.
    apply negb_true_iff in Hn. rewrite (lstrip_fixed _ Hn), (IH Hs). now subst c.
  - now rewrite (IH Hs).
Qed.

Lemma single_spaced_app_r (u v : str) :
  single_spaced (u ++ v) = true -> single_spaced v = true.
Proof.
  induction u as [|c u IH]; [trivial|]. cbn [app single_spaced].
  intro H. apply andb_true_iff in H as [_ H]. now apply IH.
Qed.

Lemma single_spaced_app_l (u v : str) :
  single_spaced (u ++ v) = true -> single_spaced u = true.
Proof.
  induction u as [|c u IH]; [reflexivity|]. cbn [app single_spaced].
  intro H. apply andb_true_iff in H as [Hc H]. rewrite (IH H), andb_true_r.
  destruct (is_space c); [|reflexivity].
  apply andb_true_iff in Hc as [-> Hn]. destruct u; [reflexivity | exact Hn].
Qed.

Lemma single_spaced_strip (s : str) :
  single_spaced s = true -> single_spaced (strip s) = true.
Proof.
  intro H. unfold strip.
  destruct (lstrip_suffix s) as [u [Hu _]]. rewrite Hu in H.
  apply single_spaced_app_r in H.
  destruct (rstrip_prefix (lstrip s)) as [v Hv]. rewrite Hv in H.
  now apply single_spaced_app_l in H.
Qed.

(** Collapsing and trimming a second time changes nothing. *)
Lemma normalize_twice (x : str) :
  let r := strip (sub Quantity.spaces_re (L " ") x) in
  strip (sub Quantity.spaces_re (L " ") r) = r.
Proof.
  intro r.
  assert (Hss : single_spaced r = true)
    by (apply single_spaced_strip, collapse_single_spaced).
  rewrite (collapse_fixed r Hss). apply strip_strip.
Qed.

Lemma number_word_pass_none (table : list (str * Z)) (q : Z) (c : str) :
  first_number_word table c = None -> Quantity.number_word_pass table q c = (q, c).
Proof.
  unfold first_number_word. induction table as [|[w v] table IH]; [reflexivity|].
  cbn [find fst Quantity.number_word_pass].
  destruct (found (word_re w) c); [discriminate | exact IH].
Qed.

Lemma extract_quantity_snd (text language : str) :
  exists x, snd (Quantity.extract_quantity text language)
            = strip (sub Quantity.spaces_re (L " ") x).
Proof.
  unfold Quantity.extract_quantity.
  destruct (Quantity.digit_pass (lower text)) as [q c].
  destruct (Quantity.number_word_pass (Quantity.number_words language) q c) as [q' c'].
  now exists c'.
Qed.

(** *** The words of a text *)

Lemma words_nonword (c : ascii) (t : str) :
  is_word c = false -> words (c :: t) = words t.
Proof. intro Hc. unfold words. cbn [words_from]. now rewrite Hc. Qed.

Lemma words_from_run (run r cur : str) :
  forallb is_word run = true -> word_at r = false -> cur ++ run <> [] ->
  words_from cur (run ++ r) = (rev cur ++ run) :: words r.
Proof.
  revert cur. induction run as [|x run IH]; intros cur Hrun Hr Hne.
  - rewrite app_nil_r in *. cbn [app].
    destruct cur as [|a cur]; [contradiction|].
    destruct r as [|c r]; [reflexivity|].
    cbn [word_at] in Hr. cbn [words_from]. rewrite Hr.
    now rewrite (words_nonword c r Hr).
  - cbn [forallb] in Hrun. apply andb_true_iff in Hrun as [Hx Hrun].
    cbn [app words_from]. rewrite Hx.
    rewrite (IH (x :: cur) Hrun Hr) by discriminate.
    cbn [rev]. now rewrite <- app_assoc.
Qed.

Lemma words_run (run r : str) :
  run <> [] -> forallb is_word run = true -> word_at r = false ->
  words (run ++ r) = run :: words r.
Proof.
  intros Hne Hrun Hr. unfold words at 1.
  now rewrite (words_from_run run r [] Hrun Hr).
Qed.

(** Every text starts with a maximal run of word characters. *)
Lemma word_run_split (t : str) :
  exists run r, t = run ++ r /\ forallb is_word run = true /\ word_at r = false.
Proof.
  induction t as [|c t [run [r [Ht [Hrun Hr]]]]].
  - now exists [], [].
  - destruct (is_word c) eqn:Hc.
    + exists (c :: run), r. cbn [app forallb]. rewrite Hc, Hrun, Ht. auto.
    + exists [], (c :: t). auto.
Qed.

Lemma word_run_split_cons (c : ascii) (t : str) :
  is_word c = true ->
  exists run r, t = run ++ r /\ forallb is_word (c :: run) = true /\ word_at r = false.
Proof.
  intro Hc. destruct (word_run_split t) as [run [r [Ht [Hrun Hr]]]].
  exists run, r. cbn [forallb]. rewrite Hc, Hrun. auto.
Qed.

Lemma words_from_wordish (t cur u : str) :
  forallb is_word cur = true -> In u (words_from cur t) -> wordish u = true.
Proof.
  revert cur. induction t as [|c t IH]; intros cur Hcur Hin.
  - destruct cur as [|a cur]; [contradiction|]. destruct Hin as [<- | []].
    assert (H : forallb is_word (rev (a :: cur)) = true) by now rewrite forallb_rev.
    destruct (rev (a :: cur)) eqn:E; [|exact H].
    apply (f_equal (@rev ascii)) in E. rewrite rev_involutive in E. discriminate.
  - cbn [words_from] in Hin. destruct (is_word c) eqn:Hc.
    + apply (IH (c :: cur)); [|exact Hin]. cbn [forallb]. now rewrite Hc.
    + destruct cur as [|a cur]; [now apply (IH [])|].
      destruct Hin as [<- | Hin]; [|now apply (IH [])].
      assert (H : forallb is_word (rev (a :: cur)) = true) by now rewrite forallb_rev.
      destruct (rev (a :: cur)) eqn:E; [|exact H].
      apply (f_equal (@rev ascii)) in E. rewrite rev_involutive in E. discriminate.
Qed.

Lemma words_wordish (t u : str) : In u (words t) -> wordish u = true.
Proof. now apply words_from_wordish. Qed.

Lemma wordish_inv (w : str) :
  wordish w = true -> w <> [] /\ forallb is_word w = true.
Proof. destruct w; [discriminate|]. intro H. split; [discriminate | exact H]. Qed.

Lemma digits_wordish (d : str) :
  d <> [] -> forallb is_digit d = true -> wordish d = true.
Proof.
  intros Hne Hd. destruct d as [|c d]; [contradiction|]. unfold wordish.
  rewrite forallb_forall in *. intros x Hx. apply digit_is_word. now apply Hd.
Qed.

Lemma wordy_wordish (w : str) : wordy w = true -> wordish w = true.
Proof.
  intro H. destruct (wordy_words w H) as [Hne Hall].
  destruct w; [contradiction | exact Hall].
Qed.

(** A word-character prefix that ends at a boundary is the whole run. *)
Lemma prefix_word_run (x run r : str) :
  forallb is_word x = true -> forallb is_word run = true -> word_at r = false ->
  startswith x (run ++ r) = true ->
  word_at (skipn (List.length x) (run ++ r)) = false ->
  x = run.
Proof.
  revert run. induction x as [|a x IH]; intros run Hx Hrun Hr Hs Hend.
  - destruct run as [|b run]; [reflexivity|].
    cbn [List.length skipn app word_at forallb] in *.
    apply andb_true_iff in Hrun as [Hb _]. congruence.
  - cbn [forallb] in Hx. apply andb_true_iff in Hx as [Ha Hx].
    destruct run as [|b run].
    + cbn [app] in Hs. destruct r as [|c r]; [discriminate|].
      cbn [startswith] in Hs. apply andb_true_iff in Hs as [E _].
      apply Ascii.eqb_eq in E. subst c. cbn [word_at] in Hr. congruence.
    + cbn [app startswith] in Hs. apply andb_true_iff in Hs as [E Hs].
      apply Ascii.eqb_eq in E. subst b.
      cbn [forallb] in Hrun. apply andb_true_iff in Hrun as [_ Hrun].
      cbn [List.length skipn app] in Hend.
      f_equal. now apply IH.
Qed.

Lemma startswith_run_self (run r : str) :
  word_at r = false ->
  startswith run (run ++ r) && negb (word_at (skipn (List.length run) (run ++ r))) = true.
Proof.
  intro Hr. now rewrite startswith_self_app, skipn_length_app, Hr.
Qed.

(** A whole-word literal is found at the head of a run exactly when it is
    the run. *)
Lemma word_test_run (x run r : str) :
  forallb is_word x = true -> forallb is_word run = true -> word_at r = false ->
  startswith x (run ++ r) && negb (word_at (skipn (List.length x) (run ++ r)))
  = str_eqb run x.
Proof.
  intros Hx Hrun Hr.
  destruct (str_eqb run x) eqn:E.
  - apply str_eqb_eq in E. subst x. now apply startswith_run_self.
  - apply str_eqb_neq in E.
    destruct (startswith x (run ++ r)) eqn:Hs; [|reflexivity].
    destruct (word_at (skipn (List.length x) (run ++ r))) eqn:Hend; [reflexivity|].
    exfalso. apply E. symmetry. now apply (prefix_word_run x run r).
Qed.

(** *** Blanking a whole word removes it from the words of the text *)

Section BlankWord.
Variable x : str.
Hypothesis Hx_ne : x <> [].
Hypothesis Hx : forallb is_word x = true.

Let blank (p t : str) : str := sub_from (word_re x) (L " ") p t 0.

Lemma bw_step (p : str) (c : ascii) (t : str) :
  blank p (c :: t) =
  if negb (word_at p) && startswith x (c :: t)
     && negb (word_at (skipn (List.length x) (c :: t)))
  then L " " ++ blank (rev x ++ p) (skipn (List.length x) (c :: t))
  else c :: blank (c :: p) t.
Proof.
  unfold blank. cbn [sub_from].
  rewrite (match_at_word_re_words x p (c :: t) Hx_ne Hx).
  destruct (startswith x (c :: t)) eqn:Hs.
  2:{ rewrite andb_false_r. reflexivity. }
  pose proof (startswith_skipn _ _ Hs) as Ht.
  remember (skipn (List.length x) (c :: t)) as r eqn:Er.
  destruct (negb (word_at p) && true && negb (word_at r)); [|reflexivity].
  cbn [rest]. clear Er Hs.
  destruct x as [|c0 x']; [contradiction|].
  cbn [app] in Ht. injection Ht as Hc Ht'. subst c0 t.
  replace (List.length (c :: x' ++ r) - List.length r) with (S (List.length x'))
    by (cbn [List.length]; rewrite length_app; lia).
  rewrite sub_from_skip. cbn [rev]. rewrite <- app_assoc. reflexivity.
Qed.

Lemma bw_nonword (p : str) (c : ascii) (t : str) :
  is_word c = false -> blank p (c :: t) = c :: blank (c :: p) t.
Proof.
  intro Hc. rewrite bw_step.
  destruct (startswith x (c :: t)) eqn:Hs; [|now rewrite andb_false_r].
  exfalso. destruct x as [|a x']; [contradiction|].
  cbn [startswith] in Hs. apply andb_true_iff in Hs as [E _].
  apply Ascii.eqb_eq in E. subst a. cbn [forallb] in Hx.
  apply andb_true_iff in Hx as [Ha _]. congruence.
Qed.

Lemma bw_inside (run r q : str) :
  word_at q = true -> forallb is_word run = true ->
  blank q (run ++ r) = run ++ blank (rev run ++ q) r.
Proof.
  revert q. induction run as [|c run IH]; intros q Hq Hrun; [reflexivity|].
  cbn [forallb] in Hrun. apply andb_true_iff in Hrun as [Hc Hrun].
  cbn [app]. rewrite bw_step, Hq. cbn [negb andb].
  rewrite (IH (c :: q)); [|exact Hc | exact Hrun].
  cbn [rev]. now rewrite <- app_assoc.
Qed.

Lemma bw_run (p run r : str) :
  word_at p = false -> run <> [] -> forallb is_word run = true -> word_at r = false ->
  blank p (run ++ r) =
  (if str_eqb run x then L " " else run) ++ blank (rev run ++ p) r.
Proof.
  intros Hp Hne Hrun Hr.
  destruct run as [|c run]; [contradiction|].
  change ((c :: run) ++ r) with (c :: (run ++ r)).
  rewrite bw_step, Hp. cbn [negb andb].
  change (c :: (run ++ r)) with ((c :: run) ++ r).
  rewrite (word_test_run x (c :: run) r Hx Hrun Hr).
  destruct (str_eqb (c :: run) x) eqn:E.
  - apply str_eqb_eq in E. subst x. now rewrite skipn_length_app.
  - cbn [forallb] in Hrun. apply andb_true_iff in Hrun as [Hc Hrun].
    cbn [app]. f_equal.
    rewrite (bw_inside run r (c :: p)); [|exact Hc | exact Hrun].
    cbn [rev]. now rewrite <- app_assoc.
Qed.

Lemma bw_nonword_head (p t : str) : word_at t = false -> word_at (blank p t) = false.
Proof.
  intro Ht. destruct t as [|c t]; [reflexivity|].
  cbn [word_at] in Ht. now rewrite bw_nonword.
Qed.

Lemma words_blank_len (n : nat) :
  forall t p, List.length t <= n -> word_at p = false \/ word_at t = false ->
    words (blank p t) = filter (fun u => negb (str_eqb u x)) (words t).
Proof.
  induction n as [|n IH]; intros t p Hlen Hpt.
  - destruct t; [reflexivity | cbn in Hlen; lia].
  - destruct t as [|c t]; [reflexivity|].
    cbn [List.length] in Hlen.
    destruct (is_word c) eqn:Hc.
    + destruct Hpt as [Hp | Ht]; [|cbn [word_at] in Ht; congruence].
      destruct (word_run_split_cons c t Hc) as [run [r [Ht [Hrun Hr]]]].
      subst t. change (c :: run ++ r) with ((c :: run) ++ r).
      rewrite (bw_run p (c :: run) r Hp) by (discriminate || assumption).
      rewrite (words_run (c :: run) r) by (discriminate || assumption).
      cbn [filter].
      assert (IHr : words (blank (rev (c :: run) ++ p) r)
                    = filter (fun u => negb (str_eqb u x)) (words r)).
      { apply IH; [|now right]. rewrite length_app in Hlen. lia. }
      destruct (str_eqb (c :: run) x); cbn [negb].
      * change (L " " ++ blank (rev (c :: run) ++ p) r)
          with (" "%char :: blank (rev (c :: run) ++ p) r).
        rewrite words_nonword by reflexivity. exact IHr.
      * rewrite (words_run (c :: run)); [now rewrite IHr | discriminate | exact Hrun |].
        now apply bw_nonword_head.
    + rewrite (bw_nonword p c t Hc), !(words_nonword c _ Hc).
      apply IH; [lia|]. left. exact Hc.
Qed.

Lemma words_sub_word (t : str) :
  words (sub (word_re x) (L " ") t) = filter (fun u => negb (str_eqb u x)) (words t).
Proof. apply (words_blank_len (List.length t) t []); [apply le_n | now left]. Qed.

End BlankWord.

(** *** White space and the words of a text *)

Lemma space_nonword (c : ascii) : is_space c = true -> is_word c = false.
Proof. by_cases_on_char c. Qed.

Lemma words_from_spaces (u cur : str) :
  forallb is_space u = true -> words_from cur u = words_from cur [].
Proof.
  revert cur. induction u as [|c u IH]; intros cur Hu; [reflexivity|].
  cbn [forallb] in Hu. apply andb_true_iff in Hu as [Hc Hu].
  cbn [words_from]. rewrite (space_nonword c Hc), (IH [] Hu). now destruct cur.
Qed.

Lemma words_from_app_spaces (a u cur : str) :
  forallb is_space u = true -> words_from cur (a ++ u) = words_from cur a.
Proof.
  intro Hu. revert cur. induction a as [|c a IH]; intro cur.
  - now apply words_from_spaces.
  - cbn [app words_from]. now rewrite !IH.
Qed.

Lemma words_spaces_app (u t : str) :
  forallb is_space u = true -> words (u ++ t) = words t.
Proof.
  intro Hu. induction u as [|c u IH]; [reflexivity|].
  cbn [forallb] in Hu. apply andb_true_iff in Hu as [Hc Hu].
  cbn [app]. rewrite (words_nonword c _ (space_nonword c Hc)). now apply IH.
Qed.

Lemma words_lstrip (t : str) : words (lstrip t) = words t.
Proof.
  destruct (lstrip_suffix t) as [u [Hu Hsp]].
  rewrite Hu at 2. now rewrite words_spaces_app.
Qed.

Lemma rstrip_prefix_spaces (s : str) :
  exists u, s = rstrip s ++ u /\ forallb is_space u = true.
Proof.
  unfold rstrip. destruct (lstrip_suffix (rev s)) as [u [Hu Hsp]].
  exists (rev u). split.
  - rewrite <- rev_app_distr, <- Hu, rev_involutive. reflexivity.
  - now rewrite forallb_rev.
Qed.

Lemma words_rstrip (t : str) : words (rstrip t) = words t.
Proof.
  destruct (rstrip_prefix_spaces t) as [u [Hu Hsp]].
  rewrite Hu at 2. unfold words. now rewrite words_from_app_spaces.
Qed.

Lemma words_strip (t : str) : words (strip t) = words t.
Proof. unfold strip. now rewrite words_rstrip, words_lstrip. Qed.

Lemma words_from_collapse_len (n : nat) :
  forall t cur, List.length t <= n ->
    words_from cur (sub Quantity.spaces_re (L " ") t) = words_from cur t.
Proof.
  induction n as [|n IH]; intros t cur Hlen.
  - destruct t; [reflexivity | cbn in Hlen; lia].
  - destruct t as [|c t]; [reflexivity|]. cbn [List.length] in Hlen.
    rewrite collapse_step. destruct (is_space c) eqn:Hc.
    + cbn [words_from]. change (is_word " ") with false. cbn iota.
      rewrite (space_nonword c Hc).
      assert (E : words_from [] (sub Quantity.spaces_re (L " ") (lstrip t)) = words_from [] t).
      { rewrite IH by (pose proof (lstrip_length t); lia). apply words_lstrip. }
      now rewrite E.
    + cbn [words_from]. rewrite !IH by lia. reflexivity.
Qed.

Lemma words_collapse (t : str) : words (sub Quantity.spaces_re (L " ") t) = words t.
Proof. exact (words_from_collapse_len (List.length t) t [] (le_n _)). Qed.

(** *** Whole-word search and the words of a text *)

Lemma str_eqb_sym (a b : str) : str_eqb a b = str_eqb b a.
Proof.
  destruct (str_eqb a b) eqn:E.
  - apply str_eqb_eq in E. subst b. symmetry. apply str_eqb_refl.
  - symmetry. apply str_eqb_neq. apply str_eqb_neq in E. congruence.
Qed.

Section FoundWord.
Variable u : str.
Hypothesis Hu_ne : u <> [].
Hypothesis Hu : forallb is_word u = true.

Lemma search_from_word (p t : str) :
  match search_from (word_re u) p t with Some _ => true | None => false end
  = has_word_from u (word_at p) t.
Proof.
  revert p. induction t as [|c t IH]; intro p.
  - cbn [search_from has_word_from]. rewrite (match_at_word_re_words u p [] Hu_ne Hu).
    destruct (negb (word_at p) && startswith u [] && negb (word_at (skipn (List.length u) [])));
      reflexivity.
  - cbn [search_from has_word_from]. rewrite (match_at_word_re_words u p (c :: t) Hu_ne Hu).
    destruct (negb (word_at p) && startswith u (c :: t)
              && negb (word_at (skipn (List.length u) (c :: t)))).
    + reflexivity.
    + rewrite IH. reflexivity.
Qed.

Lemma startswith_nonword (t : str) : word_at t = false -> startswith u t = false.
Proof.
  intro Ht. destruct u as [|a u']; [contradiction|].
  destruct t as [|c t]; [reflexivity|]. cbn [startswith].
  destruct (Ascii.eqb a c) eqn:E; [|reflexivity].
  apply Ascii.eqb_eq in E. subst c. cbn [forallb] in Hu.
  apply andb_true_iff in Hu as [Ha _]. cbn [word_at] in Ht. congruence.
Qed.

Lemma has_word_inside (run r : str) :
  forallb is_word run = true ->
  has_word_from u true (run ++ r) = has_word_from u true r.
Proof.
  induction run as [|c run IH]; intro Hrun; [reflexivity|].
  cbn [forallb] in Hrun. apply andb_true_iff in Hrun as [Hc Hrun].
  cbn [app has_word_from negb andb orb]. rewrite Hc. now apply IH.
Qed.

Lemma has_word_words_len (n : nat) :
  forall t pw, List.length t <= n -> pw = false \/ word_at t = false ->
    has_word_from u pw t = mem u (words t).
Proof.
  induction n as [|n IH]; intros t pw Hlen Hpt.
  - destruct t; [|cbn in Hlen; lia]. cbn [has_word_from].
    rewrite (startswith_nonword [] eq_refl), andb_false_r. reflexivity.
  - destruct t as [|c t].
    { cbn [has_word_from]. rewrite (startswith_nonword [] eq_refl), andb_false_r.
      reflexivity. }
    cbn [List.length] in Hlen. destruct (is_word c) eqn:Hc.
    + destruct Hpt as [-> | Ht]; [|cbn [word_at] in Ht; congruence].
      destruct (word_run_split_cons c t Hc) as [run [r [Ht [Hrun Hr]]]].
      subst t. cbn [has_word_from negb andb]. rewrite Hc.
      change (c :: run ++ r) with ((c :: run) ++ r).
      rewrite (word_test_run u (c :: run) r Hu Hrun Hr).
      rewrite (words_run (c :: run) r) by (discriminate || assumption).
      cbn [forallb] in Hrun. apply andb_true_iff in Hrun as [_ Hrun].
      rewrite (has_word_inside run r Hrun).
      rewrite (IH r true); [|rewrite length_app in Hlen; lia | now right].
      unfold mem. cbn [existsb]. now rewrite (str_eqb_sym u).
    + cbn [has_word_from]. rewrite (startswith_nonword (c :: t) Hc), andb_false_r.
      cbn [orb]. rewrite Hc, (words_nonword c t Hc).
      apply IH; [lia | now left].
Qed.

(** A whole-word pattern is found in a text exactly when the word is one of
    the words of the text. *)
Lemma found_words (t : str) : found (word_re u) t = mem u (words t).
Proof.
  unfold found, search. rewrite search_from_word.
  apply (has_word_words_len (List.length t)); [apply le_n | now left].
Qed.

End FoundWord.

(** *** The first digit token *)

Lemma nonword_nondigit (t : str) : word_at t = false -> digit_at t = false.
Proof.
  destruct t as [|c t]; [reflexivity|]. cbn [word_at digit_at]. intro Hc.
  destruct (is_digit c) eqn:Hd; [|reflexivity].
  apply digit_is_word in Hd. congruence.
Qed.

(** Inside a word the greedy digit run has one way to end at a boundary:
    taking the whole run. *)
Lemma star_greedy_digits_bound (A : Type) (K : mstate -> option A) :
  (forall s, at_boundary (prev s) (rest s) = false -> K s = None) ->
  forall D r q g,
    forallb is_digit D = true -> digit_at r = false -> word_at q = true ->
    star_greedy is_digit K q (D ++ r) g = K (MState (rev D ++ q) r g).
Proof.
  intros HK D. induction D as [|c D IH]; intros r q g HD Hr Hq.
  - cbn [app rev]. destruct r as [|c r]; [reflexivity|].
    cbn [digit_at] in Hr. cbn [star_greedy]. now rewrite Hr.
  - cbn [forallb] in HD. apply andb_true_iff in HD as [Hc HD].
    cbn [app star_greedy]. rewrite Hc.
    rewrite (IH r (c :: q) g HD Hr) by (cbn [word_at]; now apply digit_is_word).
    cbn [rev]. rewrite <- app_assoc. cbn [app].
    destruct (K (MState (rev D ++ c :: q) r g)) eqn:E; [reflexivity|].
    apply HK. cbn [prev rest]. unfold at_boundary. rewrite Hq. cbn [word_at].
    now rewrite (digit_is_word c Hc).
Qed.

Lemma span_digits_in_run (run r : str) :
  forallb is_word run = true -> forallb is_digit run = false ->
  word_at (snd (span_digits (run ++ r))) = true.
Proof.
  induction run as [|c run IH]; intros Hw Hd; [discriminate|].
  cbn [forallb] in Hw, Hd. apply andb_true_iff in Hw as [Hc Hw].
  cbn [app span_digits]. destruct (is_digit c) eqn:Hdc.
  - cbn [andb] in Hd. specialize (IH Hw Hd).
    destruct (span_digits (run ++ r)). exact IH.
  - exact Hc.
Qed.

Lemma firstn_length_app_diff (a b : str) :
  firstn (List.length (a ++ b) - List.length b) (a ++ b) = a.
Proof.
  rewrite length_app. replace (List.length a + List.length b - List.length b)
    with (List.length a) by lia.
  rewrite firstn_app, Nat.sub_diag, firstn_all. cbn [firstn]. now rewrite app_nil_r.
Qed.

(** At the start of a word the digit-token pattern matches exactly when the
    word consists of digits, and the token is the word. *)
Lemma match_at_digits_run (p run r : str) :
  word_at p = false -> run <> [] -> forallb is_word run = true -> word_at r = false ->
  match_at Quantity.digits_re p (run ++ r) =
  if forallb is_digit run then Some (MState (rev run ++ p) r (Some run)) else None.
Proof.
  intros Hp Hne Hrun Hr. destruct run as [|c run]; [contradiction|].
  cbn [forallb] in Hrun. apply andb_true_iff in Hrun as [Hc Hrun].
  unfold match_at, Quantity.digits_re, Plus. cbn [m prev rest grp1 app].
  unfold at_boundary at 1. rewrite Hp. cbn [word_at]. rewrite Hc. cbn [xorb].
  cbn [forallb]. destruct (is_digit c) eqn:Hdc; [|reflexivity]. cbn [andb].
  set (K := fun s' : mstate =>
              if at_boundary (prev s') (rest s')
              then Some (MState (prev s') (rest s')
                           (Some (firstn (List.length (c :: run ++ r) - List.length (rest s'))
                                    (c :: run ++ r))))
              else None).
  change (star_greedy is_digit K (c :: p) (run ++ r) None
          = if forallb is_digit run then Some (MState (rev (c :: run) ++ p) r (Some (c :: run)))
            else None).
  assert (HK : forall s, at_boundary (prev s) (rest s) = false -> K s = None).
  { intros s Hs. unfold K. now rewrite Hs. }
  destruct (forallb is_digit run) eqn:Hd.
  - rewrite (star_greedy_digits_bound _ K HK run r (c :: p) None Hd
               (nonword_nondigit r Hr) Hc).
    unfold K. cbn [prev rest]. unfold at_boundary. rewrite Hr.
    assert (Hq : word_at (rev run ++ c :: p) = true).
    { destruct (rev run) as [|y z] eqn:E; [exact Hc|].
      cbn [app word_at]. rewrite forallb_forall in Hrun. apply Hrun.
      apply in_rev. rewrite E. now left. }
    rewrite Hq. cbn [xorb].
    change (c :: run ++ r) with ((c :: run) ++ r). rewrite firstn_length_app_diff.
    cbn [rev]. now rewrite <- app_assoc.
  - pose proof (span_digits_app (run ++ r)) as Hsplit.
    pose proof (span_digits_digits (run ++ r)) as HD.
    pose proof (span_digits_rest (run ++ r)) as Hrest.
    pose proof (span_digits_in_run run r Hrun Hd) as Hin.
    rewrite Hsplit.
    rewrite (star_greedy_digits_bound _ K HK _ _ (c :: p) None HD Hrest Hc).
    apply HK. cbn [prev rest]. unfold at_boundary. rewrite Hin.
    assert (Hq : word_at (rev (fst (span_digits (run ++ r))) ++ c :: p) = true).
    { destruct (rev (fst (span_digits (run ++ r)))) as [|y z] eqn:E; [exact Hc|].
      cbn [app word_at]. apply digit_is_word.
      rewrite forallb_forall in HD. apply HD. apply in_rev. rewrite E. now left. }
    now rewrite Hq.
Qed.

Lemma match_at_digits_none (p t : str) :
  word_at t = false \/ word_at p = true ->
  match_at Quantity.digits_re p t = None.
Proof.
  intro H. unfold match_at, Quantity.digits_re. cbn [m prev rest].
  destruct (at_boundary p t) eqn:Hb; [|reflexivity].
  destruct (word_at t) eqn:Ht.
  - destruct H as [H | H]; [discriminate|].
    unfold at_boundary in Hb. rewrite H, Ht in Hb. discriminate.
  - apply m_Plus_digits_none. now apply nonword_nondigit.
Qed.

Lemma search_digits_inside (run r q : str) :
  word_at q = true -> forallb is_word run = true ->
  search_from Quantity.digits_re q (run ++ r)
  = search_from Quantity.digits_re (rev run ++ q) r.
Proof.
  revert q. induction run as [|c run IH]; intros q Hq Hrun; [reflexivity|].
  cbn [forallb] in Hrun. apply andb_true_iff in Hrun as [Hc Hrun].
  cbn [app search_from]. rewrite (match_at_digits_none q _ (or_intror Hq)).
  rewrite (IH (c :: q) Hc Hrun). cbn [rev]. now rewrite <- app_assoc.
Qed.

Lemma search_digits_words_len (n : nat) :
  forall t p, List.length t <= n -> word_at p = false \/ word_at t = false ->
    option_map group1 (search_from Quantity.digits_re p t)
    = find (forallb is_digit) (words t).
Proof.
  induction n as [|n IH]; intros t p Hlen Hpt.
  - destruct t; [|cbn in Hlen; lia]. cbn [search_from].
    now rewrite (match_at_digits_none p [] (or_introl eq_refl)).
  - destruct t as [|c t].
    { cbn [search_from]. now rewrite (match_at_digits_none p [] (or_introl eq_refl)). }
    cbn [List.length] in Hlen. destruct (is_word c) eqn:Hc.
    + destruct Hpt as [Hp | Ht]; [|cbn [word_at] in Ht; congruence].
      destruct (word_run_split_cons c t Hc) as [run [r [Ht [Hrun Hr]]]].
      subst t. cbn [search_from].
      change (c :: run ++ r) with ((c :: run) ++ r).
      rewrite (words_run (c :: run) r) by (discriminate || assumption).
      cbn [find].
      rewrite (match_at_digits_run p (c :: run) r Hp) by (discriminate || assumption).
      destruct (forallb is_digit (c :: run)); [reflexivity|].
      cbn [forallb] in Hrun. apply andb_true_iff in Hrun as [_ Hrun].
      rewrite (search_digits_inside run r (c :: p) Hc Hrun).
      apply IH; [rewrite length_app in Hlen; lia | now right].
    + cbn [search_from].
      rewrite (match_at_digits_none p (c :: t) (or_introl Hc)).
      rewrite (words_nonword c t Hc). apply IH; [lia | now left].
Qed.

(** The digit token [re.search] finds is the first word of the text that
    consists of digits. *)
Lemma search_digits_words (t : str) :
  option_map group1 (search Quantity.digits_re t) = find (forallb is_digit) (words t).
Proof.
  apply (search_digits_words_len (List.length t)); [apply le_n | now left].
Qed.

(** *** The two passes in terms of the words of the text *)

Lemma digits_words (d : str) : forallb is_digit d = true -> forallb is_word d = true.
Proof.
  intro Hd. rewrite forallb_forall in *. intros x Hx. apply digit_is_word. now apply Hd.
Qed.

Lemma digit_pass_words (t : str) :
  Quantity.digit_pass t =
  match find (forallb is_digit) (words t) with
  | Some d =>
      match int d with
      | Some q => if (q >? 0)%Z then (q, sub (word_re d) (L " ") t) else (1%Z, t)
      | None => (1%Z, t)
      end
  | None => (1%Z, t)
  end.
Proof.
  unfold Quantity.digit_pass. rewrite <- search_digits_words.
  destruct (search Quantity.digits_re t); reflexivity.
Qed.

Lemma number_word_pass_first (table : list (str * Z)) (q : Z) (c : str) :
  Quantity.number_word_pass table q c =
  match first_number_word table c with
  | Some wv => (snd wv, sub (word_re (fst wv)) (L " ") c)
  | None => (q, c)
  end.
Proof.
  unfold first_number_word. induction table as [|[w v] table IH]; [reflexivity|].
  cbn [Quantity.number_word_pass find fst].
  destruct (found (word_re w) c); [reflexivity | exact IH].
Qed.

Lemma extract_quantity_passes (text language : str) :
  snd (Quantity.extract_quantity text language)
  = strip (sub Quantity.spaces_re (L " ")
             (snd (Quantity.number_word_pass (Quantity.number_words language)
                     (fst (Quantity.digit_pass (lower text)))
                     (snd (Quantity.digit_pass (lower text)))))).
Proof.
  unfold Quantity.extract_quantity.
  destruct (Quantity.digit_pass (lower text)) as [q c]. cbn [fst snd].
  now destruct (Quantity.number_word_pass (Quantity.number_words language) q c).
Qed.

Lemma in_words_sub_word (x u t : str) :
  wordish x = true ->
  In u (words (sub (word_re x) (L " ") t)) <-> In u (words t) /\ u <> x.
Proof.
  intro Hx. destruct (wordish_inv x Hx) as [Hne Hall].
  rewrite (words_sub_word x Hne Hall t), filter_In, negb_true_iff, str_eqb_neq.
  reflexivity.
Qed.

Lemma found_words_in (u t : str) :
  wordish u = true -> found (word_re u) t = true <-> In u (words t).
Proof.
  intro Hu. destruct (wordish_inv u Hu) as [Hne Hall].
  rewrite (found_words u Hne Hall t). apply mem_In.
Qed.

Lemma number_word_wordish (language w : str) (v : Z) :
  In (w, v) (Quantity.number_words language) -> wordish w = true.
Proof.
  intro Hin. apply wordy_wordish.
  pose proof (number_words_wordy language) as H. rewrite forallb_forall in H.
  exact (H (w, v) Hin).
Qed.

(** Texts with one digit token, or one number word: a test that computes. *)
Lemma digit_tokens_equal (t d0 : str) :
  forallb (fun u => negb (forallb is_digit u) || str_eqb u d0) (words t) = true ->
  forall d d',
    d <> [] -> forallb is_digit d = true -> d' <> [] -> forallb is_digit d' = true ->
    found (word_re d) t = true -> found (word_re d') t = true -> d = d'.
Proof.
  intros Hall d d' Hne Hd Hne' Hd' Hf Hf'. rewrite forallb_forall in Hall.
  apply (found_words_in d t (digits_wordish d Hne Hd)) in Hf.
  apply (found_words_in d' t (digits_wordish d' Hne' Hd')) in Hf'.
  apply Hall in Hf, Hf'. rewrite Hd in Hf. rewrite Hd' in Hf'. cbn [negb orb] in Hf, Hf'.
  apply str_eqb_eq in Hf, Hf'. congruence.
Qed.

Lemma table_words_equal (table : list (str * Z)) (t w0 : str) :
  forallb (fun wv => negb (found (word_re (fst wv)) t) || str_eqb (fst wv) w0) table = true ->
  forall w v w' v',
    In (w, v) table -> In (w', v') table ->
    found (word_re w) t = true -> found (word_re w') t = true -> w = w'.
Proof.
  intros Hall w v w' v' Hin Hin' Hf Hf'. rewrite forallb_forall in Hall.
  apply Hall in Hin, Hin'. cbn [fst] in Hin, Hin'. rewrite Hf in Hin. rewrite Hf' in Hin'.
  cbn [negb orb] in Hin, Hin'. apply str_eqb_eq in Hin, Hin'. congruence.
Qed.

(** C6 as stated fails: "add 2 packs of 6 eggs" yields quantity 2 and the
    residual "add packs of 6 eggs"; extracting again from that residual
    yields 6, not the default 1.  Likewise "add one or two eggs" yields 1 and
    the residual "add or two eggs", from which the second extraction yields
    2.  And the digit token of "add 0 milk" is not removed, although the
    quantity stays 1. *)
Lemma extract_quantity_twice_2_then_6 :
  (Quantity.extract_quantity (L "add 2 packs of 6 eggs") (L "en")
     = (2%Z, L "add packs of 6 eggs") /\
   fst (Quantity.extract_quantity
          (snd (Quantity.extract_quantity (L "add 2 packs of 6 eggs") (L "en"))) (L "en"))
     = 6%Z) /\
  (Quantity.extract_quantity (L "add one or two eggs") (L "en")
     = (1%Z, L "add or two eggs") /\
   fst (Quantity.extract_quantity
          (snd (Quantity.extract_quantity (L "add one or two eggs") (L "en"))) (L "en"))
     = 2%Z) /\
  (Quantity.extract_quantity (L "add 0 milk") (L "en") = (1%Z, L "add 0 milk") /\
   found Quantity.digits_re (L "add 0 milk") = true).
Proof. vm_compute. repeat split; reflexivity. Qed.

(** C6 (amended): for every text and language, when all the bare digit
    tokens of the lower-cased text are one and the same token, and at most
    one number word of the language's table occurs in it as a whole word,
    running [extract_quantity] on the residual text it returned gives the
    default quantity 1 and the residual unchanged, and no number word of the
    table is left in the residual. *)
Theorem extract_quantity_residual_default :
  forall text language,
    (forall d d',
       d <> [] -> forallb is_digit d = true -> d' <> [] -> forallb is_digit d' = true ->
       found (word_re d) (lower text) = true -> found (word_re d') (lower text) = true ->
       d = d') ->
    (forall w v w' v',
       In (w, v) (Quantity.number_words language) ->
       In (w', v') (Quantity.number_words language) ->
       found (word_re w) (lower text) = true -> found (word_re w') (lower text) = true ->
       w = w') ->
    let r := snd (Quantity.extract_quantity text language) in
    Quantity.extract_quantity r language = (1%Z, r) /\
    first_number_word (Quantity.number_words language) r = None.
Proof.
  intros text language H1 H2 r.
  set (t := lower text) in *. set (table := Quantity.number_words language) in *.
  set (c := snd (Quantity.digit_pass t)).
  set (c' := snd (Quantity.number_word_pass table (fst (Quantity.digit_pass t)) c)).
  assert (Hr : r = strip (sub Quantity.spaces_re (L " ") c'))
    by apply extract_quantity_passes.
  assert (Hlow : lower r = r) by apply lowered_fixed, extract_quantity_lowered.
  assert (Hwr : words r = words c') by (rewrite Hr, words_strip; apply words_collapse).
  (* the digit pass *)
  assert (Hc : (c = t /\
                forall d, In d (words t) -> forallb is_digit d = true ->
                  match int d with Some q => (q >? 0)%Z = false | None => True end) \/
               (exists d1, d1 <> [] /\ forallb is_digit d1 = true /\ In d1 (words t) /\
                           c = sub (word_re d1) (L " ") t)).
  { unfold c. rewrite (digit_pass_words t).
    destruct (find (forallb is_digit) (words t)) as [d1|] eqn:Hfind.
    - apply find_some in Hfind as [Hin1 Hd1].
      assert (Hne1 : d1 <> []).
      { pose proof (words_wordish t d1 Hin1) as Hw. now destruct (wordish_inv d1 Hw). }
      assert (Hsame : forall d, In d (words t) -> forallb is_digit d = true -> d = d1).
      { intros d Hin Hd.
        assert (Hne : d <> []).
        { pose proof (words_wordish t d Hin) as Hw. now destruct (wordish_inv d Hw). }
        apply (H1 d d1 Hne Hd Hne1 Hd1).
        - now apply (found_words_in d t (digits_wordish d Hne Hd)).
        - now apply (found_words_in d1 t (digits_wordish d1 Hne1 Hd1)). }
      destruct (int d1) as [q|] eqn:Hq.
      + destruct (q >? 0)%Z eqn:Hpos.
        * right. exists d1. cbn [snd]. auto.
        * left. split; [reflexivity|]. intros d Hin Hd.
          rewrite (Hsame d Hin Hd), Hq. exact Hpos.
      + left. split; [reflexivity|]. intros d Hin Hd.
        now rewrite (Hsame d Hin Hd), Hq.
    - left. split; [reflexivity|]. intros d Hin Hd.
      pose proof (find_none _ _ Hfind d Hin) as Hn. cbv beta in Hn. congruence. }
  assert (Hwc : forall u, In u (words c) -> In u (words t)).
  { intros u Hu. destruct Hc as [[-> _] | [d1 [Hne1 [Hd1 [_ ->]]]]]; [exact Hu|].
    now apply (in_words_sub_word d1 u t (digits_wordish d1 Hne1 Hd1)) in Hu. }
  (* the number-word pass *)
  assert (Hc' : (c' = c /\ first_number_word table c = None) \/
                (exists w v, In (w, v) table /\ In w (words c) /\
                             c' = sub (word_re w) (L " ") c)).
  { unfold c'. rewrite (number_word_pass_first table).
    destruct (first_number_word table c) as [[w v]|] eqn:Hfirst.
    - right. exists w, v. unfold first_number_word in Hfirst.
      apply find_some in Hfirst as [Hin Hf]. cbn [fst] in Hf.
      split; [exact Hin|]. split; [|reflexivity].
      now apply (found_words_in w c (number_word_wordish language w v Hin)).
    - now left. }
  assert (Hwc' : forall u, In u (words c') -> In u (words c)).
  { intros u Hu. destruct Hc' as [[-> _] | [w [v [Hin [_ ->]]]]]; [exact Hu|].
    now apply (in_words_sub_word w u c (number_word_wordish language w v Hin)) in Hu. }
  (* no table word is left *)
  assert (HN : first_number_word table r = None).
  { destruct (first_number_word table r) as [[w' v']|] eqn:Hfirst; [|reflexivity].
    exfalso. unfold first_number_word in Hfirst.
    apply find_some in Hfirst as [Hin' Hf']. cbn [fst] in Hf'.
    pose proof (number_word_wordish language w' v' Hin') as Hw'.
    apply (found_words_in w' r Hw') in Hf'. rewrite Hwr in Hf'.
    destruct Hc' as [[Ec Hnone] | [w [v [Hin [Hwin Ec]]]]].
    - rewrite Ec in Hf'. unfold first_number_word in Hnone.
      pose proof (find_none _ _ Hnone (w', v') Hin') as Hn. cbn [fst] in Hn.
      apply (found_words_in w' c Hw') in Hf'. congruence.
    - pose proof (number_word_wordish language w v Hin) as Hw.
      rewrite Ec in Hf'. apply (in_words_sub_word w w' c Hw) in Hf' as [Hin2 Hneq].
      apply Hneq. apply (H2 w' v' w v Hin' Hin).
      + apply (found_words_in w' t Hw'). now apply Hwc.
      + apply (found_words_in w t Hw). now apply Hwc. }
  split; [|exact HN].
  (* the digit pass on the residual *)
  assert (HD : Quantity.digit_pass r = (1%Z, r)).
  { rewrite (digit_pass_words r).
    destruct (find (forallb is_digit) (words r)) as [d|] eqn:Hfind; [|reflexivity].
    apply find_some in Hfind as [Hin Hd]. rewrite Hwr in Hin.
    apply Hwc' in Hin.
    destruct Hc as [[Ec Hnp] | [d1 [Hne1 [Hd1 [Hin1 Ec]]]]].
    - rewrite Ec in Hin. specialize (Hnp d Hin Hd).
      destruct (int d) as [q|]; [now rewrite Hnp | reflexivity].
    - exfalso. rewrite Ec in Hin.
      apply (in_words_sub_word d1 d t (digits_wordish d1 Hne1 Hd1)) in Hin as [Hin Hneq].
      apply Hneq.
      assert (Hne : d <> []).
      { pose proof (words_wordish t d Hin) as Hw. now destruct (wordish_inv d Hw). }
      apply (H1 d d1 Hne Hd Hne1 Hd1).
      + now apply (found_words_in d t (digits_wordish d Hne Hd)).
      + now apply (found_words_in d1 t (digits_wordish d1 Hne1 Hd1)). }
  unfold Quantity.extract_quantity. rewrite Hlow, HD.
  fold table. rewrite (number_word_pass_none table 1%Z r HN).
  f_equal. rewrite Hr. apply normalize_twice.
Qed.

Lemma extract_quantity_residual_default_witness :
  let text := L "Buy 2 packs of six eggs" in
  Quantity.extract_quantity text (L "en") = (6%Z, L "buy packs of eggs") /\
  Quantity.extract_quantity (L "buy packs of eggs") (L "en") = (1%Z, L "buy packs of eggs") /\
  first_number_word (Quantity.number_words (L "en")) (L "buy packs of eggs") = None.
Proof.
  intro text. split; [vm_compute; reflexivity|].
  change (L "buy packs of eggs") with (snd (Quantity.extract_quantity text (L "en"))).
  apply (extract_quantity_residual_default text (L "en")).
  - apply (digit_tokens_equal (lower text) (L "2")). vm_compute. reflexivity.
  - apply (table_words_equal (Quantity.number_words (L "en")) (lower text) (L "six")).
    vm_compute. reflexivity.
Defined.

(** ** The assembled command *)

(** C1 (failing input): on "find 500ml milk" the filter extractor finds the
    size "500ml"; the command returned by [parse_voice_command] carries the
    extractor's brand and price ceiling, but its [filters.size] is empty,
    whatever the product catalog. *)
Theorem parse_voice_command_drops_size :
  forall catalog,
    let f := Filters.extract_filters catalog (L "find 500ml milk") in
    size f = L "500ml" /\
    exists c,
      Parser.parse_voice_command (rule_env catalog) (L "find 500ml milk") None = Returned c /\
      brand (filters c) = brand f /\
      price_max (filters c) = price_max f /\
      size (filters c) = [] /\
      size (filters c) <> size f.
Proof.
  intros catalog f.
  assert (Hsize : size f = L "500ml").
  { unfold f, Filters.extract_filters. cbn [size]. vm_compute. reflexivity. }
  split; [exact Hsize|].
  unfold Parser.parse_voice_command.
  change (Parser._openai_parse (rule_env catalog) (L "find 500ml milk")
            (Language.detect_language (L "find 500ml milk") None))
    with (@Returned (option ParsedVoiceCommand) None).
  cbv iota.
  destruct (rule_based_fields (rule_env catalog) (L "find 500ml milk")
              (Language.detect_language (L "find 500ml milk") None))
    as [c [Hc [_ [_ [Hb [Hp [Hs _]]]]]]].
  exists c. split; [exact Hc|]. split; [exact Hb|]. split; [exact Hp|].
  split; [exact Hs|]. rewrite Hs, Hsize. discriminate.
Qed.

Lemma openai_parse_validated (env : Parser.Env) (text language : str) (c : ParsedVoiceCommand) :
  Parser._openai_parse env text language = Returned (Some c) -> In (action c) Action.
Proof.
  unfold Parser._openai_parse.
  destruct (Parser.OPENAI_API_KEY env) as [[|x key]|]; try discriminate.
  destruct (negb _); [discriminate|].
  destruct (Parser.openai_reply env text language) as [[data|]|]; try discriminate.
  unfold new_ParsedVoiceCommand. cbn [action].
  destruct (mem (action data) Action) eqn:Hm; [|discriminate].
  intro H. injection H as <-. cbn [action]. now apply mem_In.
Qed.

(** C3 (failing inputs): [parse_voice_command] hands on what the OpenAI
    parser gives, without the safeguards of the rule-based path.  With the
    parser enabled, a model answer of quantity 0 for "add milk" is returned
    as a command of quantity 0; and when the call of the remote model raises,
    so does [parse_voice_command].  The rule-based path floors the quantity:
    "add 0 milk" gives quantity 1. *)
Theorem parse_voice_command_openai_unchecked :
  let reply := mkParsedVoiceCommand (L "add") (L "milk") 0%Z (L "dairy")
                 (mkFilters [] 0%Q []) (L "en") (L "add milk") in
  (exists c,
     Parser.parse_voice_command (openai_env reply) (L "add milk") None = Returned c /\
     quantity c = 0%Z /\ ~ (quantity c >= 1)%Z) /\
  Parser.parse_voice_command openai_failing_env (L "add milk") None = Raised /\
  (exists c,
     Parser.parse_voice_command (rule_env None) (L "add 0 milk") None = Returned c /\
     quantity c = 1%Z).
Proof.
  intro reply. split; [|split].
  - eexists. split; [vm_compute; reflexivity|].
    split; [reflexivity|]. simpl. lia.
  - vm_compute. reflexivity.
  - eexists. split; [vm_compute; reflexivity|]. reflexivity.
Qed.

(** * Further properties of the pipeline *)

(** ** Quantity extraction: range and shape of the result *)

Lemma number_words_positive (language : str) :
  forallb (fun wv => (1 <=? snd wv)%Z) (Quantity.number_words language) = true.
Proof.
  unfold Quantity.number_words. destruct (str_eqb language (L "es")); vm_compute; reflexivity.
Qed.

Lemma digit_pass_positive (t : str) : (1 <= fst (Quantity.digit_pass t))%Z.
Proof.
  unfold Quantity.digit_pass.
  destruct (search Quantity.digits_re t) as [mt|]; [|cbn; lia].
  destruct (int (group1 mt)) as [q|]; [|cbn; lia].
  destruct (q >? 0)%Z eqn:Hq; cbn [fst]; lia.
Qed.

(** X1: for every text and language the quantity returned by
    [extract_quantity] is at least 1 -- a zero digit token is ignored and the
    number-word tables start at 1 -- so the floor [max(1, quantity)] applied
    by the assembler never changes it. *)
Theorem extract_quantity_at_least_1 :
  forall text language,
    (1 <= fst (Quantity.extract_quantity text language))%Z /\
    Z.max 1 (fst (Quantity.extract_quantity text language))
    = fst (Quantity.extract_quantity text language).
Proof.
  intros text language.
  assert (H : (1 <= fst (Quantity.extract_quantity text language))%Z).
  { rewrite extract_quantity_fst.
    destruct (first_number_word (Quantity.number_words language) (lower text))
      as [[w v]|] eqn:Hf.
    - unfold first_number_word in Hf. apply find_some in Hf as [Hin _].
      pose proof (number_words_positive language) as Hpos.
      rewrite forallb_forall in Hpos. specialize (Hpos _ Hin). cbn [snd] in *.
      now apply Z.leb_le.
    - apply digit_pass_positive. }
  split; [exact H | lia].
Qed.

(** X2: for every text and language the residual text returned by
    [extract_quantity] is in lower case, has no leading or trailing white
    space, and its only white space is single blanks between other
    characters. *)
Theorem extract_quantity_residual_normal :
  forall text language,
    let r := snd (Quantity.extract_quantity text language) in
    lower r = r /\ strip r = r /\ single_spaced r = true.
Proof.
  intros text language r.
  destruct (extract_quantity_snd text language) as [x Hx]. fold r in Hx.
  split; [apply lowered_fixed, extract_quantity_lowered|].
  split.
  - rewrite Hx. apply strip_strip.
  - rewrite Hx. apply single_spaced_strip, collapse_single_spaced.
Qed.

(** ** The price ceiling: sign and absence *)

Lemma round_half_even_nonneg (num den : Z) :
  (0 <= num)%Z -> (0 < den)%Z -> (0 <= round_half_even num den)%Z.
Proof.
  intros Hn Hd. unfold round_half_even.
  pose proof (Z.div_pos num den Hn Hd) as Hq.
  destruct (2 * (num mod den) ?= den)%Z; [|exact Hq | lia].
  destruct (Z.even (num / den)); lia.
Qed.

Lemma nearest_double_nonneg (n d : Z) (v : Q) :
  (0 < d)%Z -> nearest_double n d = Some v -> (0 <= v)%Q.
Proof.
  intro Hd. unfold nearest_double.
  destruct (Z.leb_spec n 0) as [Hn | Hn].
  { intro H. injection H as <-. apply Qle_refl. }
  set (e := Z.max _ _).
  destruct (Z.leb_spec 0 e) as [He | He].
  - assert (Hr : (0 <= round_half_even n (d * 2 ^ e))%Z).
    { apply round_half_even_nonneg; [lia|].
      apply Z.mul_pos_pos; [exact Hd | now apply Z.pow_pos_nonneg]. }
    assert (Hp : (0 <= 2 ^ e)%Z) by now apply Z.pow_nonneg.
    destruct (2 ^ 1024 <=? _)%Z; [discriminate|].
    intro H. injection H as <-. unfold Qle. cbn [Qnum Qden]. nia.
  - intro H. injection H as <-.
    assert (Hr : (0 <= round_half_even (n * 2 ^ (- e)) d)%Z).
    { apply round_half_even_nonneg; [|exact Hd].
      apply Z.mul_nonneg_nonneg; [lia | apply Z.pow_nonneg; lia]. }
    set (q := Qmake (round_half_even (n * 2 ^ (- e)) d) (Z.to_pos (2 ^ (- e)))).
    apply (Qle_trans _ q).
    + unfold Qle, q. cbn [Qnum Qden]. lia.
    + apply Qle_lteq. right. apply Qeq_sym. exact (Qred_correct q).
Qed.

Lemma float_nonneg (s : str) (v : Q) : float s = Some v -> (0 <= v)%Q.
Proof.
  unfold float. destruct (span_digits s) as [ip r].
  destruct ip as [|c0 ip]; [discriminate|].
  destruct (digits_val 0 (c0 :: ip)) as [n|]; [|discriminate].
  destruct r as [|c fp].
  - apply nearest_double_nonneg. lia.
  - destruct (Ascii.eqb c "."); [|discriminate].
    destruct fp as [|c1 fp]; [discriminate|].
    destruct (digits_val n (c1 :: fp)) as [x|]; [|discriminate].
    apply nearest_double_nonneg. apply Z.pow_pos_nonneg; lia.
Qed.

(** X3: for every text the price ceiling extracted by [_extract_price_max]
    is non-negative; 0 is the value for "no ceiling". *)
Theorem extract_price_max_nonneg :
  forall text, (0 <= Filters._extract_price_max text)%Q.
Proof.
  intro text. unfold Filters._extract_price_max.
  destruct (match search (Filters.price_re Filters.price_triggers_en) (lower text) with
            | Some m0 => Some m0
            | None => search (Filters.price_re Filters.price_triggers_es) (lower text)
            end) as [mt|]; [|apply Qle_refl].
  destruct (float (group1 mt)) as [v|] eqn:Hv; [|apply Qle_refl].
  exact (float_nonneg _ _ Hv).
Qed.

Lemma forallb_tail (P : ascii -> bool) (c : ascii) (t : str) :
  forallb P (c :: t) = true -> forallb P t = true.
Proof. cbn [forallb]. intro H. now apply andb_true_iff in H as [_ H]. Qed.

Lemma forallb_skipn (P : ascii -> bool) (n : nat) (t : str) :
  forallb P t = true -> forallb P (skipn n t) = true.
Proof.
  revert t. induction n as [|n IH]; intros t H; [exact H|].
  destruct t as [|c t]; [reflexivity|]. cbn [skipn]. apply IH. exact (forallb_tail P c t H).
Qed.

Lemma star_lazy_nodigit (r p : str) (g : option str) :
  nodigit r = true ->
  star_lazy dot (m Filters.number_group (@Some mstate)) p r g = None.
Proof.
  revert p. induction r as [|c r IH]; intros p Hr.
  - rewrite star_lazy_eq, m_number_group_none by reflexivity. reflexivity.
  - pose proof Hr as Hr'. cbn [nodigit forallb] in Hr'.
    apply andb_true_iff in Hr' as [Hc Hr']. apply negb_true_iff in Hc.
    rewrite star_lazy_eq, m_number_group_none by exact Hc.
    destruct (dot c); [|reflexivity]. now apply IH.
Qed.

Lemma match_at_price_nodigit (T : list str) (p t : str) :
  forallb lowered T = true -> lowered t = true -> nodigit t = true ->
  match_at (Filters.price_re T) p t = None.
Proof.
  intros HT Hl Hn. rewrite match_at_price_re.
  destruct (m_triggers_cases _ (m (Seq (Star false dot) Filters.number_group) (@Some mstate))
              T p t None HT Hl) as [-> | [w [_ [_ ->]]]]; [reflexivity|].
  rewrite m_lazy_number. apply star_lazy_nodigit. now apply forallb_skipn.
Qed.

(** A pattern that matches at no position of a text is not found in it. *)
Lemma search_from_none (r : re) (P : str -> Prop) :
  (forall c t, P (c :: t) -> P t) ->
  (forall p t, P t -> match_at r p t = None) ->
  forall p t, P t -> search_from r p t = None.
Proof.
  intros Hsuf Hnone p t. revert p. induction t as [|c t IH]; intros p Ht.
  - cbn [search_from]. now rewrite Hnone.
  - cbn [search_from]. rewrite (Hnone p _ Ht). apply IH. exact (Hsuf c t Ht).
Qed.

Lemma search_price_nodigit (T : list str) (t : str) :
  forallb lowered T = true -> lowered t = true -> nodigit t = true ->
  search (Filters.price_re T) t = None.
Proof.
  intros HT Hl Hn. unfold search.
  apply (search_from_none (Filters.price_re T)
           (fun t => lowered t = true /\ nodigit t = true)).
  - intros c t' [H1 H2]. split; [exact (forallb_tail _ c t' H1) | exact (forallb_tail _ c t' H2)].
  - intros p t' [H1 H2]. now apply match_at_price_nodigit.
  - now split.
Qed.

Lemma search_price_no_trigger (T : list str) (t : str) :
  forallb lowered T = true -> lowered t = true ->
  (forall w, In w T -> contains w t = false) ->
  search (Filters.price_re T) t = None.
Proof.
  intros HT Hl Hno. unfold search.
  apply (search_from_none (Filters.price_re T)
           (fun t => lowered t = true /\ forall w, In w T -> contains w t = false)).
  - intros c t' [H1 H2]. split; [exact (forallb_tail _ c t' H1)|].
    intros w Hw. specialize (H2 w Hw). cbn [contains] in H2.
    now apply orb_false_iff in H2 as [_ H2].
  - intros p t' [H1 H2]. apply (match_at_price_no_trigger T HT); [exact H1|].
    intros w Hw. specialize (H2 w Hw).
    destruct t'; cbn [contains] in H2; now apply orb_false_iff in H2 as [H2 _].
  - now split.
Qed.

(** X4: a text without any decimal digit has the price ceiling 0, and so has
    a text of ASCII characters whose lower-cased form contains none of the
    English and Spanish price triggers as a substring: a trigger alone
    ("something cheaper") or a number alone ("milk 5 dollars") sets no
    ceiling. *)
Theorem extract_price_max_absent :
  forall text,
    nodigit (lower text) = true \/
    (ascii_text text = true /\
     forall w, In w (Filters.price_triggers_en ++ Filters.price_triggers_es) ->
               contains w (lower text) = false) ->
    Filters._extract_price_max text = 0%Q.
Proof.
  intros text H. unfold Filters._extract_price_max.
  pose proof (lowered_lower text) as Hl.
  destruct (price_triggers_facts Filters.price_triggers_en (or_introl eq_refl)) as [Hen _].
  destruct (price_triggers_facts Filters.price_triggers_es (or_intror eq_refl)) as [Hes _].
  destruct H as [Hn | [_ Hno]].
  - rewrite (search_price_nodigit _ _ Hen Hl Hn), (search_price_nodigit _ _ Hes Hl Hn).
    reflexivity.
  - rewrite (search_price_no_trigger _ _ Hen Hl), (search_price_no_trigger _ _ Hes Hl).
    + reflexivity.
    + intros w Hw. apply Hno, in_or_app. now right.
    + intros w Hw. apply Hno, in_or_app. now left.
Qed.

Lemma extract_price_max_absent_witness :
  nodigit (lower (L "Find something cheaper")) = true /\
  Filters._extract_price_max (L "Find something cheaper") = 0%Q /\
  nodigit (lower (L "milk 5 dollars")) = false /\
  ascii_text (L "milk 5 dollars") = true /\
  Filters._extract_price_max (L "milk 5 dollars") = 0%Q.
Proof.
  split; [vm_compute; reflexivity|]. split.
  - apply (extract_price_max_absent (L "Find something cheaper")).
    left. vm_compute. reflexivity.
  - split; [vm_compute; reflexivity|]. split; [vm_compute; reflexivity|].
    apply (extract_price_max_absent (L "milk 5 dollars")).
    right. split; [vm_compute; reflexivity|].
    intros w Hw. cbn [Filters.price_triggers_en Filters.price_triggers_es app In] in Hw.
    repeat (destruct Hw as [<- | Hw]; [vm_compute; reflexivity|]).
    contradiction.
Defined.

(** ** Language detection *)

Lemma contains_single (x : ascii) (s : str) : In x s -> contains [x] s = true.
Proof.
  induction s as [|c s IH]; [contradiction|]. intros [-> | H]; cbn [contains startswith].
  - now rewrite Ascii.eqb_refl.
  - rewrite (IH H). apply orb_true_r.
Qed.

(** X5: when there is no hint, or a hint that starts with neither "es" nor
    "en" (in any letter case), every text that contains one of the letters
    a-acute, e-acute, i-acute, o-acute, u-acute, n-tilde, in lower or upper
    case, is detected as Spanish. *)
Theorem detect_language_accent :
  forall text hint c,
    match hint with
    | None => True
    | Some h => startswith (L "es") (lower h) = false /\
                startswith (L "en") (lower h) = false
    end ->
    In c text ->
    In (lower_char c) [a_acute; e_acute; i_acute; o_acute; u_acute; n_tilde] ->
    Language.detect_language text hint = L "es".
Proof.
  intros text hint c Hhint Hc Hacc. unfold Language.detect_language.
  assert (Hfrom : match hint with
                  | Some ((_ :: _) as h) =>
                      if startswith (L "es") (lower h) then Some (L "es")
                      else if startswith (L "en") (lower h) then Some (L "en")
                      else None
                  | _ => None
                  end = None).
  { destruct hint as [[|x h]|]; try reflexivity. destruct Hhint as [-> ->]. reflexivity. }
  rewrite Hfrom.
  assert (Hex : existsb (fun ch => contains [ch] (lower text))
                  [a_acute; e_acute; i_acute; o_acute; u_acute; n_tilde] = true).
  { apply existsb_exists. exists (lower_char c). split; [exact Hacc|].
    apply contains_single. unfold lower. now apply in_map. }
  rewrite Hex. reflexivity.
Qed.

Lemma detect_language_accent_witness :
  match Some (L "fr-FR") with
  | None => True
  | Some h => startswith (L "es") (lower h) = false /\
              startswith (L "en") (lower h) = false
  end /\
  In N_tilde (L "PI" ++ [N_tilde] ++ L "A") /\
  In (lower_char N_tilde) [a_acute; e_acute; i_acute; o_acute; u_acute; n_tilde] /\
  Language.detect_language (L "PI" ++ [N_tilde] ++ L "A") (Some (L "fr-FR")) = L "es".
Proof.
  split; [split; reflexivity|]. split; [vm_compute; intuition|].
  split; [vm_compute; intuition|].
  apply (detect_language_accent (L "PI" ++ [N_tilde] ++ L "A") (Some (L "fr-FR")) N_tilde).
  - split; reflexivity.
  - vm_compute; intuition.
  - vm_compute; intuition.
Defined.

(** ** Letter case and surrounding white space *)

Lemma is_space_lower_char (c : ascii) : is_space (lower_char c) = is_space c.
Proof. by_cases_on_char c. Qed.

Lemma lstrip_lower (s : str) : lstrip (lower s) = lower (lstrip s).
Proof.
  induction s as [|c s IH]; [reflexivity|]. cbn [lower map lstrip].
  rewrite is_space_lower_char. destruct (is_space c); [exact IH | reflexivity].
Qed.

Lemma strip_lower (s : str) : strip (lower s) = lower (strip s).
Proof.
  unfold strip, rstrip. rewrite lstrip_lower. unfold lower at 1.
  rewrite <- map_rev. fold (lower (rev (lstrip s))). rewrite lstrip_lower.
  unfold lower. now rewrite map_rev.
Qed.

Lemma lower_lower (s : str) : lower (lower s) = lower s.
Proof. apply lowered_fixed, lowered_lower. Qed.

Lemma lstrip_spaces_app (a s : str) : forallb is_space a = true -> lstrip (a ++ s) = lstrip s.
Proof.
  induction a as [|c a IH]; [reflexivity|]. cbn [forallb app lstrip].
  intro H. apply andb_true_iff in H as [-> H]. now apply IH.
Qed.

Lemma lstrip_app_spaces (s b : str) :
  forallb is_space b = true -> rstrip (lstrip (s ++ b)) = rstrip (lstrip s).
Proof.
  intro Hb. induction s as [|c s IH].
  - cbn [app]. rewrite <- (app_nil_r b), (lstrip_spaces_app b [] Hb). reflexivity.
  - cbn [app lstrip]. destruct (is_space c); [exact IH|].
    unfold rstrip. cbn [rev]. rewrite rev_app_distr, <- app_assoc.
    now rewrite (lstrip_spaces_app (rev b)) by now rewrite forallb_rev.
Qed.

(** Padding with white space does not change the trimmed text. *)
Lemma strip_pad (a s b : str) :
  forallb is_space a = true -> forallb is_space b = true ->
  strip (a ++ s ++ b) = strip s.
Proof.
  intros Ha Hb. unfold strip. rewrite (lstrip_spaces_app a _ Ha).
  now apply lstrip_app_spaces.
Qed.

(** X6: the intent of a text does not depend on the letter case of the text
    nor on white space around it: padding the text with white space on
    either side, or replacing it by any text with the same lower-case form,
    gives the same action. *)
Theorem detect_intent_case_and_padding :
  forall text text' language a b,
    lower text' = lower text ->
    forallb is_space a = true -> forallb is_space b = true ->
    Intent.detect_intent (a ++ text' ++ b) language = Intent.detect_intent text language.
Proof.
  intros text text' language a b Hlow Ha Hb. unfold Intent.detect_intent.
  assert (Ht : strip (lower (a ++ text' ++ b)) = strip (lower text)).
  { unfold lower. rewrite !map_app. fold (lower a) (lower text') (lower b).
    rewrite Hlow. apply strip_pad.
    - unfold lower. rewrite forallb_forall in *. intros x Hx.
      apply in_map_iff in Hx as [y [<- Hy]]. rewrite is_space_lower_char. now apply Ha.
    - unfold lower. rewrite forallb_forall in *. intros x Hx.
      apply in_map_iff in Hx as [y [<- Hy]]. rewrite is_space_lower_char. now apply Hb. }
  rewrite Ht. reflexivity.
Qed.

Lemma detect_intent_case_and_padding_witness :
  lower (L "REMOVE Milk") = lower (L "remove milk") /\
  forallb is_space (L "  ") = true /\ forallb is_space [chr 10] = true /\
  Intent.detect_intent (L "  " ++ L "REMOVE Milk" ++ [chr 10]) (L "en")
  = Intent.detect_intent (L "remove milk") (L "en") /\
  Intent.detect_intent (L "remove milk") (L "en") = L "remove".
Proof.
  split; [vm_compute; reflexivity|]. split; [reflexivity|]. split; [reflexivity|].
  split; [|vm_compute; reflexivity].
  apply (detect_intent_case_and_padding (L "remove milk") (L "REMOVE Milk") (L "en")
           (L "  ") [chr 10]).
  - vm_compute; reflexivity.
  - reflexivity.
  - reflexivity.
Defined.

Lemma detect_language_lower (text text' : str) (hint : option str) :
  lower text' = lower text ->
  Language.detect_language text' hint = Language.detect_language text hint.
Proof. intro H. unfold Language.detect_language. now rewrite H. Qed.

Lemma extract_quantity_lower (text text' language : str) :
  lower text' = lower text ->
  Quantity.extract_quantity text' language = Quantity.extract_quantity text language.
Proof. intro H. unfold Quantity.extract_quantity. now rewrite H. Qed.

Lemma extract_filters_lower (catalog : option (list str)) (text text' : str) :
  lower text' = lower text ->
  Filters.extract_filters catalog text' = Filters.extract_filters catalog text.
Proof.
  intro H. unfold Filters.extract_filters, Filters._extract_brand, Filters._extract_size,
    Filters._extract_price_max. now rewrite H.
Qed.

Lemma detect_intent_lower (text text' language : str) :
  lower text' = lower text ->
  Intent.detect_intent text' language = Intent.detect_intent text language.
Proof. intro H. unfold Intent.detect_intent. now rewrite H. Qed.

(** X7: with the OpenAI parser disabled, two texts with the same lower-case
    form are parsed into the same command except for [raw_text]: language,
    action, item, quantity, category and filters do not depend on the letter
    case of the input. *)
Theorem parse_voice_command_case_insensitive :
  forall env text text' hint,
    openai_disabled env ->
    lower text' = lower text ->
    exists c,
      Parser.parse_voice_command env text hint = Returned c /\
      Parser.parse_voice_command env text' hint
      = Returned (mkParsedVoiceCommand (action c) (item c) (quantity c) (category c)
                    (filters c) (language c) text') /\
      raw_text c = text.
Proof.
  intros env text text' hint Hoff Hlow.
  unfold Parser.parse_voice_command. rewrite !Hoff.
  rewrite (detect_language_lower text text' hint Hlow).
  set (lang := Language.detect_language text hint).
  unfold Parser.rule_based.
  rewrite (detect_intent_lower text text' lang Hlow),
    (extract_filters_lower _ text text' Hlow),
    (extract_quantity_lower text text' lang Hlow).
  destruct (Quantity.extract_quantity text lang) as [q cleaned].
  unfold new_ParsedVoiceCommand. cbn [action].
  rewrite (proj2 (mem_In _ _) (detect_intent_in_Action text lang)).
  eexists. split; [reflexivity|]. split; reflexivity.
Qed.

Lemma rule_env_disabled (catalog : option (list str)) : openai_disabled (rule_env catalog).
Proof. intros text language. reflexivity. Qed.

Lemma parse_voice_command_case_insensitive_witness :
  openai_disabled (rule_env None) /\
  lower (L "BUY 2 Bottles of WATER") = lower (L "buy 2 bottles of water") /\
  exists c,
    Parser.parse_voice_command (rule_env None) (L "buy 2 bottles of water") None = Returned c /\
    Parser.parse_voice_command (rule_env None) (L "BUY 2 Bottles of WATER") None
    = Returned (mkParsedVoiceCommand (action c) (item c) (quantity c) (category c)
                  (filters c) (language c) (L "BUY 2 Bottles of WATER")) /\
    raw_text c = L "buy 2 bottles of water".
Proof.
  split; [apply rule_env_disabled|]. split; [vm_compute; reflexivity|].
  apply (parse_voice_command_case_insensitive (rule_env None)
           (L "buy 2 bottles of water") (L "BUY 2 Bottles of WATER") None).
  - apply rule_env_disabled.
  - vm_compute; reflexivity.
Defined.

(** ** The tokens of the item phrase *)

Lemma single_spaced_blank_spaced (s : str) : single_spaced s = true -> blank_spaced s = true.
Proof.
  induction s as [|c s IH]; [reflexivity|]. cbn [single_spaced blank_spaced forallb].
  intro H. apply andb_true_iff in H as [Hc Hs].
  fold (blank_spaced s). rewrite (IH Hs), andb_true_r.
  destruct (is_space c); [|reflexivity]. now apply andb_true_iff in Hc as [-> _].
Qed.

Lemma split_on_nonempty (sep : ascii) (s : str) : split_on sep s <> [].
Proof.
  induction s as [|c s IH]; [discriminate|]. cbn [split_on].
  destruct (Ascii.eqb c sep); [discriminate|].
  destruct (split_on sep s); discriminate.
Qed.

Lemma split_on_spaceless (s : str) :
  blank_spaced s = true -> forallb spaceless (split_on " " s) = true.
Proof.
  induction s as [|c s IH]; [reflexivity|]. cbn [blank_spaced forallb split_on].
  intro H. apply andb_true_iff in H as [Hc Hs]. specialize (IH Hs).
  destruct (Ascii.eqb c " ") eqn:Ec.
  - cbn [forallb spaceless]. exact IH.
  - rewrite orb_false_r in Hc.
    destruct (split_on " " s) as [|w ws]; cbn [forallb spaceless] in *.
    + now rewrite Hc.
    + fold (spaceless w) in IH. fold (spaceless w). now rewrite Hc.
Qed.

Lemma spaceless_no_blank (w : str) :
  spaceless w = true -> forallb (fun c => negb (Ascii.eqb c " ")) w = true.
Proof.
  unfold spaceless. rewrite !forallb_forall. intros H x Hx. specialize (H x Hx).
  destruct (Ascii.eqb x " ") eqn:E; [|reflexivity].
  apply Ascii.eqb_eq in E. subst x. discriminate.
Qed.

Lemma split_on_word (w : str) :
  forallb (fun c => negb (Ascii.eqb c " ")) w = true -> split_on " " w = [w].
Proof.
  induction w as [|c w IH]; [reflexivity|]. cbn [forallb split_on].
  intro H. apply andb_true_iff in H as [Hc Hw]. apply negb_true_iff in Hc.
  now rewrite Hc, (IH Hw).
Qed.

Lemma split_on_word_app (w r : str) :
  forallb (fun c => negb (Ascii.eqb c " ")) w = true ->
  split_on " " (w ++ " "%char :: r) = w :: split_on " " r.
Proof.
  induction w as [|c w IH]; [reflexivity|]. cbn [forallb app split_on].
  intro H. apply andb_true_iff in H as [Hc Hw]. apply negb_true_iff in Hc.
  now rewrite Hc, (IH Hw).
Qed.

(** Splitting at blanks undoes joining with blanks, for blank-free parts. *)
Lemma split_join (ws : list str) :
  ws <> [] -> forallb spaceless ws = true -> split_on " " (join (L " ") ws) = ws.
Proof.
  induction ws as [|w ws IH]; [contradiction|]. intros _ H.
  cbn [forallb] in H. apply andb_true_iff in H as [Hw Hws].
  apply spaceless_no_blank in Hw.
  destruct ws as [|w' ws'].
  - cbn [join]. now apply split_on_word.
  - change (join (L " ") (w :: w' :: ws')) with (w ++ " "%char :: join (L " ") (w' :: ws')).
    rewrite (split_on_word_app _ _ Hw), IH; [reflexivity | discriminate | exact Hws].
Qed.

Lemma join_edges (ws : list str) :
  forallb spaceless ws = true -> forallb (fun w => negb (str_eqb w [])) ws = true ->
  space_at (join (L " ") ws) = false /\ space_at (rev (join (L " ") ws)) = false /\
  (ws <> [] -> join (L " ") ws <> []).
Proof.
  induction ws as [|w ws IH]; [intros; repeat split; congruence|].
  intros Hs Hn. cbn [forallb] in Hs, Hn.
  apply andb_true_iff in Hs as [Hw Hs]. apply andb_true_iff in Hn as [Hwn Hn].
  destruct (IH Hs Hn) as [_ [Hlast Hne]].
  destruct w as [|c w]; [discriminate|].
  assert (Hc : is_space c = false).
  { cbn [spaceless forallb] in Hw. apply andb_true_iff in Hw as [Hw _].
    now apply negb_true_iff in Hw. }
  assert (Hrev : space_at (rev (c :: w)) = false).
  { unfold spaceless in Hw. rewrite <- forallb_rev in Hw.
    destruct (rev (c :: w)) as [|x r]; [reflexivity|].
    cbn [forallb] in Hw. apply andb_true_iff in Hw as [Hx _].
    now apply negb_true_iff in Hx. }
  destruct ws as [|w' ws'].
  - cbn [join]. repeat split; [exact Hc | exact Hrev | discriminate].
  - change (join (L " ") ((c :: w) :: w' :: ws'))
      with ((c :: w) ++ " "%char :: join (L " ") (w' :: ws')).
    split; [exact Hc|]. split; [|discriminate].
    rewrite rev_app_distr. cbn [rev]. rewrite <- app_assoc.
    assert (Hj : join (L " ") (w' :: ws') <> []) by (apply Hne; discriminate).
    destruct (rev (join (L " ") (w' :: ws'))) as [|x r] eqn:E.
    + apply (f_equal (@rev ascii)) in E. rewrite rev_involutive in E. contradiction.
    + exact Hlast.
Qed.

Lemma strip_fixed (s : str) :
  space_at s = false -> space_at (rev s) = false -> strip s = s.
Proof.
  intros H1 H2. unfold strip. rewrite (lstrip_fixed _ H1). now apply rstrip_fixed.
Qed.

(** Blanking the matches of a pattern and trimming keeps a text free of
    white space other than blanks. *)
Lemma blank_spaced_step (r : re) (t : str) :
  blank_spaced t = true -> blank_spaced (strip (sub r (L " ") t)) = true.
Proof. intro Ht. apply forallb_strip. apply forallb_sub; [reflexivity | exact Ht]. Qed.

Lemma blank_spaced_collapse (x : str) :
  blank_spaced (strip (sub Quantity.spaces_re (L " ") x)) = true.
Proof. apply single_spaced_blank_spaced, single_spaced_strip, collapse_single_spaced. Qed.

(** X8: for every text and language, splitting the item phrase returned by
    [extract_item] at blanks gives back exactly the tokens the function
    kept: none of them is a stop word of the language, none is empty unless
    the whole phrase is empty, and none contains white space; so the phrase
    has no leading, trailing or doubled blank. *)
Theorem extract_item_tokens :
  forall text language tok,
    let stop := if str_eqb language (L "es") then Parser.stopwords_es
                else Parser.stopwords_en in
    In tok (split_on " " (Parser.extract_item text language)) ->
    mem tok stop = false /\
    spaceless tok = true /\
    (tok = [] -> Parser.extract_item text language = []).
Proof.
  intros text language tok stop. unfold Parser.extract_item. fold stop.
  match goal with
  | |- In tok (split_on _ (strip (join _ (filter ?k (split_on _ ?t0))))) -> _ =>
      set (keep := k); set (t := t0)
  end.
  assert (Hbs : blank_spaced t = true).
  { unfold t. do 4 apply blank_spaced_step. apply blank_spaced_collapse. }
  pose proof (split_on_spaceless t Hbs) as Hall. rewrite forallb_forall in Hall.
  set (tokens := filter keep (split_on " " t)).
  assert (Hsp : forallb spaceless tokens = true).
  { apply forallb_forall. intros w Hw. apply filter_In in Hw as [Hw _].
    apply Hall. exact Hw. }
  assert (Hne : forallb (fun w => negb (str_eqb w [])) tokens = true).
  { apply forallb_forall. intros w Hw. apply filter_In in Hw as [_ Hw].
    destruct w; [discriminate Hw | reflexivity]. }
  destruct (join_edges tokens Hsp Hne) as [H1 [H2 _]].
  rewrite (strip_fixed _ H1 H2).
  assert (Hmem : forall w, In w tokens ->
            mem w stop = false /\ spaceless w = true /\ w <> []).
  { intros w Hw. apply filter_In in Hw as [Hw Hk]. split; [|split].
    - unfold keep in Hk. destruct w; [discriminate Hk|]. apply negb_true_iff. exact Hk.
    - apply Hall. exact Hw.
    - unfold keep in Hk. destruct w; [discriminate Hk | discriminate]. }
  clearbody tokens. clear Hall Hbs. clearbody t keep.
  destruct tokens as [|w ws].
  - cbn [join split_on]. intros [<- | []].
    split; [|split; [reflexivity | reflexivity]].
    unfold stop. destruct (str_eqb language (L "es")); reflexivity.
  - rewrite split_join; [| discriminate | exact Hsp].
    intro Hin. destruct (Hmem tok Hin) as [Hm [Hs Hn]].
    split; [exact Hm|]. split; [exact Hs|]. intro E. contradiction.
Qed.

Lemma extract_item_tokens_witness :
  In (L "water") (split_on " " (Parser.extract_item (L "Buy 2 bottles of water") (L "en"))) /\
  mem (L "water") Parser.stopwords_en = false /\
  spaceless (L "water") = true /\
  (L "water" = [] -> Parser.extract_item (L "Buy 2 bottles of water") (L "en") = []).
Proof.
  split; [vm_compute; intuition|].
  apply (extract_item_tokens (L "Buy 2 bottles of water") (L "en") (L "water")).
  vm_compute; intuition.
Defined.

(** ** Product search *)

Section SearchFacts.
Import SearchService.

Lemma filter_all (A : Type) (l : list A) : filter (fun _ => true) l = l.
Proof. induction l as [|x l IH]; [reflexivity|]. cbn [filter]. now rewrite IH. Qed.

Lemma filter_none (A : Type) (l : list A) : filter (fun _ => false) l = [].
Proof. induction l as [|x l IH]; [reflexivity|]. exact IH. Qed.

Lemma filter_twice (A : Type) (f g : A -> bool) (l : list A) :
  filter g (filter f l) = filter (fun x => f x && g x) l.
Proof.
  induction l as [|x l IH]; [reflexivity|]. cbn [filter].
  destruct (f x); cbn [filter andb]; [|exact IH].
  destruct (g x); now rewrite IH.
Qed.

Lemma filter_by_name_test (items : list Product) (query : str) :
  filter_by_name items query = filter (text_test query p_name) items.
Proof.
  unfold filter_by_name, text_test. destruct (is_empty query); cbn [orb].
  - symmetry. apply filter_all.
  - reflexivity.
Qed.

Lemma filter_by_size_test (items : list Product) (size : str) :
  filter_by_size items size = filter (text_test size p_size) items.
Proof.
  unfold filter_by_size, text_test. destruct (is_empty size); cbn [orb].
  - symmetry. apply filter_all.
  - reflexivity.
Qed.

Lemma filter_by_price_test (items : list Product) (price_max : Q) :
  filter_by_price items price_max = filter (price_test price_max) items.
Proof.
  unfold filter_by_price, price_test. destruct (Qle_bool price_max 0); cbn [orb].
  - symmetry. apply filter_all.
  - reflexivity.
Qed.

Variable gcm : str -> list str -> list str.
Variable lc : list N -> list N.

Lemma filter_by_brand_test (items : list Product) (brand : list N) :
  filter_by_brand lc items brand = filter (brand_test lc brand) items.
Proof.
  unfold filter_by_brand, brand_test. destruct (is_empty brand); cbn [orb].
  - symmetry. apply filter_all.
  - reflexivity.
Qed.

Lemma apply_fuzzy_match_filter (items : list Product) (query : str) :
  exists keep, apply_fuzzy_match gcm items query = filter keep items.
Proof.
  unfold apply_fuzzy_match.
  destruct (is_empty query || is_empty items).
  - exists (fun _ => false). symmetry. apply filter_none.
  - destruct (negb (is_empty _)).
    + eexists. reflexivity.
    + exists (fun _ => false). symmetry. apply filter_none.
Qed.

Lemma search_stages (products : list Product) (query : str) (filters : Filters) :
  search gcm lc products query filters
  = filter (price_test (price_max filters))
      (filter (text_test (size filters) p_size)
         (filter (brand_test lc (brand filters)) (name_stage gcm products query))).
Proof.
  unfold search. fold (name_stage gcm products query).
  now rewrite filter_by_brand_test, filter_by_size_test, filter_by_price_test.
Qed.

Lemma name_stage_filter (products : list Product) (query : str) :
  exists keep, name_stage gcm products query = filter keep products.
Proof.
  unfold name_stage.
  destruct (is_empty (filter_by_name products query) && negb (is_empty query)).
  - destruct (apply_fuzzy_match_filter products query) as [keep ->].
    destruct (negb (is_empty (filter keep products))).
    + now exists keep.
    + exists (fun _ => true). symmetry. apply filter_all.
  - destruct (negb (is_empty (filter_by_name products query))).
    + rewrite filter_by_name_test. eexists. reflexivity.
    + exists (fun _ => true). symmetry. apply filter_all.
Qed.

(** X9: for every catalog, query and filter values, and whatever the fuzzy
    matcher answers, [search] returns a selection of the catalog -- the
    products passing some test, in catalog order, nothing added or
    reordered -- and every returned product passes each filter that is set:
    its brand and size contain the wanted text (letter case ignored) and its
    price is at most the ceiling when the ceiling is positive. *)
Theorem search_selects_from_catalog :
  forall products query filters,
    (exists keep, search gcm lc products query filters = filter keep products) /\
    (forall p,
       In p (search gcm lc products query filters) ->
       In p products /\
       (brand filters <> [] ->
        contains_codes (lc (brand filters)) (codes (lower (get (p_brand p)))) = true) /\
       (size filters <> [] ->
        contains (lower (size filters)) (lower (get (p_size p))) = true) /\
       (0 < price_max filters -> get_price p <= price_max filters)%Q).
Proof.
  intros products query filters. rewrite search_stages.
  destruct (name_stage_filter products query) as [keep Hk]. rewrite Hk.
  split.
  - rewrite !filter_twice. eexists. reflexivity.
  - intros p Hp.
    apply filter_In in Hp as [Hp Hprice]. apply filter_In in Hp as [Hp Hsize].
    apply filter_In in Hp as [Hp Hbrand]. apply filter_In in Hp as [Hp _].
    split; [exact Hp|]. split; [|split].
    + intro Hne. unfold brand_test in Hbrand.
      destruct (brand filters); [contradiction|]. exact Hbrand.
    + intro Hne. unfold text_test in Hsize.
      destruct (size filters); [contradiction|]. exact Hsize.
    + intro Hpos. unfold price_test in Hprice.
      apply orb_true_iff in Hprice as [H0 | H1].
      * apply Qle_bool_iff in H0. exfalso. apply (Qlt_not_le _ _ Hpos H0).
      * now apply Qle_bool_iff.
Qed.

(** X10: every catalog product whose name contains the query (letter case
    ignored; any product when the query is empty) and that passes the
    filters that are set is among the results of [search]. *)
Theorem search_complete :
  forall products query filters p,
    In p products ->
    query = [] \/ contains (lower query) (lower (get (p_name p))) = true ->
    brand filters = [] \/
    contains_codes (lc (brand filters)) (codes (lower (get (p_brand p)))) = true ->
    size filters = [] \/
    contains (lower (size filters)) (lower (get (p_size p))) = true ->
    (price_max filters <= 0 \/ get_price p <= price_max filters)%Q ->
    In p (search gcm lc products query filters).
Proof.
  intros products query filters p Hp Hq Hb Hs Hpr.
  rewrite search_stages.
  apply filter_In. split.
  2:{ unfold price_test. apply orb_true_iff.
      destruct Hpr as [H | H]; [left | right]; now apply Qle_bool_iff. }
  apply filter_In. split.
  2:{ unfold text_test. destruct Hs as [-> | H]; [reflexivity|]. rewrite H. apply orb_true_r. }
  apply filter_In. split.
  2:{ unfold brand_test. destruct Hb as [-> | H]; [reflexivity|]. rewrite H. apply orb_true_r. }
  assert (Hname : In p (filter_by_name products query)).
  { rewrite filter_by_name_test. apply filter_In. split; [exact Hp|].
    unfold text_test. destruct Hq as [-> | H]; [reflexivity|]. rewrite H. apply orb_true_r. }
  unfold name_stage.
  destruct (filter_by_name products query) as [|x l] eqn:E; [contradiction|].
  cbn [is_empty andb negb]. exact Hname.
Qed.

(** X11: when no product name contains the query and the fuzzy matcher
    proposes nothing for it, the query is ignored: [search] returns every
    catalog product that passes the brand, size and price filters. *)
Theorem search_unmatched_query_ignored :
  forall products query filters,
    (forall p, In p products ->
               contains (lower query) (lower (get (p_name p))) = false) ->
    fuzzy_match_item gcm (lower query) (map (fun p => get (p_name p)) products) = [] ->
    search gcm lc products query filters
    = filter_by_price
        (filter_by_size (filter_by_brand lc products (brand filters)) (size filters))
        (price_max filters).
Proof.
  intros products query filters Hname Hfuzzy.
  assert (Hnone : filter_by_name products query = []).
  { unfold filter_by_name. destruct query as [|c q].
    - destruct products as [|p rest]; [reflexivity|].
      specialize (Hname p (or_introl eq_refl)). destruct (lower (get (p_name p))); discriminate.
    - cbn [is_empty].
      assert (H : forall l, (forall p, In p l -> In p products) ->
                  filter (fun p => contains (lower (c :: q)) (lower (get (p_name p)))) l = []).
      { induction l as [|p l IH]; intro Hl; [reflexivity|]. cbn [filter].
        rewrite (Hname p (Hl p (or_introl eq_refl))).
        apply IH. intros x Hx. apply Hl. now right. }
      apply H. intros p Hp. exact Hp. }
  assert (Hnofuzzy : apply_fuzzy_match gcm products query = []).
  { unfold apply_fuzzy_match. destruct (is_empty query || is_empty products); [reflexivity|].
    cbv zeta. rewrite Hfuzzy. reflexivity. }
  unfold search. rewrite Hnone, Hnofuzzy. cbn [is_empty andb negb].
  destruct (negb (is_empty query)); reflexivity.
Qed.

(** X12: raising a positive price ceiling, or removing it (ceiling 0), never
    loses a result. *)
Theorem search_price_monotone :
  forall products query brand size price_max price_max' p,
    (0 < price_max)%Q ->
    (price_max <= price_max' \/ price_max' <= 0)%Q ->
    In p (search gcm lc products query (mkFilters brand price_max size)) ->
    In p (search gcm lc products query (mkFilters brand price_max' size)).
Proof.
  intros products query brand size price_max price_max' p Hpos Hle.
  rewrite !search_stages. cbn [Schemas.brand Schemas.size Schemas.price_max]. intro Hp.
  apply filter_In in Hp as [Hp Hprice]. apply filter_In. split; [exact Hp|].
  unfold price_test in *. apply orb_true_iff in Hprice as [H0 | H1].
  - apply Qle_bool_iff in H0. exfalso. apply (Qlt_not_le _ _ Hpos H0).
  - apply Qle_bool_iff in H1. apply orb_true_iff.
    destruct Hle as [Hle | Hle].
    + right. apply Qle_bool_iff. apply (Qle_trans _ _ _ H1 Hle).
    + left. now apply Qle_bool_iff.
Qed.

End SearchFacts.

Lemma search_selects_from_catalog_witness :
  In milk_amul
     (SearchService.search no_close_matches lower_title_codes sample_products (L "MILK")
        (mkFilters (title (L "amul")) (4 # 1)%Q [])) /\
  In milk_amul sample_products /\
  (title (L "amul") <> [] ->
   SearchService.contains_codes (lower_title_codes (title (L "amul")))
     (SearchService.codes (lower (SearchService.get (SearchService.p_brand milk_amul))))
   = true) /\
  (@nil ascii <> [] ->
   contains (lower []) (lower (SearchService.get (SearchService.p_size milk_amul))) = true) /\
  (0 < 4 # 1 -> SearchService.get_price milk_amul <= 4 # 1)%Q.
Proof.
  assert (H : In milk_amul
                (SearchService.search no_close_matches lower_title_codes sample_products
                   (L "MILK") (mkFilters (title (L "amul")) (4 # 1)%Q []))).
  { vm_compute. left. reflexivity. }
  split; [exact H|].
  exact (proj2 (search_selects_from_catalog no_close_matches lower_title_codes
                  sample_products (L "MILK") (mkFilters (title (L "amul")) (4 # 1)%Q []))
               milk_amul H).
Defined.

Lemma search_complete_witness :
  In milk_organic sample_products /\
  In milk_organic
     (SearchService.search no_close_matches lower_title_codes sample_products (L "milk")
        (mkFilters [] (6 # 1)%Q (L "2l"))).
Proof.
  assert (H : In milk_organic sample_products).
  { right. left. reflexivity. }
  split; [exact H|].
  apply (search_complete no_close_matches lower_title_codes sample_products (L "milk")
           (mkFilters [] (6 # 1)%Q (L "2l")) milk_organic H).
  - right. vm_compute. reflexivity.
  - left. reflexivity.
  - right. vm_compute. reflexivity.
  - right. vm_compute. discriminate.
Defined.

Lemma search_unmatched_query_ignored_witness :
  SearchService.search no_close_matches lower_title_codes sample_products (L "quinoa")
    (mkFilters (title (L "colgate")) 0%Q [])
  = [toothpaste].
Proof.
  assert (Hn : forall p, In p sample_products ->
                 contains (lower (L "quinoa")) (lower (SearchService.get (SearchService.p_name p)))
                 = false).
  { intros p [<- | [<- | [<- | []]]]; vm_compute; reflexivity. }
  rewrite (search_unmatched_query_ignored no_close_matches lower_title_codes sample_products
             (L "quinoa") (mkFilters (title (L "colgate")) 0%Q []) Hn eq_refl).
  vm_compute. reflexivity.
Defined.

Lemma search_price_monotone_witness :
  (0 < 3 # 1)%Q /\
  In milk_amul
     (SearchService.search no_close_matches lower_title_codes sample_products (L "milk")
        (mkFilters [] (3 # 1)%Q [])) /\
  In milk_amul
     (SearchService.search no_close_matches lower_title_codes sample_products (L "milk")
        (mkFilters [] (6 # 1)%Q [])).
Proof.
  assert (Hpos : (0 < 3 # 1)%Q).
  { vm_compute. reflexivity. }
  assert (H : In milk_amul
                (SearchService.search no_close_matches lower_title_codes sample_products
                   (L "milk") (mkFilters [] (3 # 1)%Q []))).
  { vm_compute. left. reflexivity. }
  split; [exact Hpos|]. split; [exact H|].
  apply (search_price_monotone no_close_matches lower_title_codes sample_products (L "milk")
           [] [] (3 # 1)%Q (6 # 1)%Q milk_amul Hpos).
  - left. vm_compute. discriminate.
  - exact H.
Defined.

(** ** Suggestions *)

Section DedupeFacts.
Import Recommendation.

Lemma is_empty_nil (A : Type) (l : list A) : SearchService.is_empty l = true <-> l = [].
Proof. destruct l; cbn; split; intro H; try reflexivity; discriminate. Qed.

(** Whether the loop of [_dedupe_preserve_order] keeps an item, given the
    keys seen so far. *)
Lemma dedupe_skip_cases (seen : list str) (x : str) :
  (SearchService.is_empty (suggestion_key x) || mem (suggestion_key x) seen = true /\
   (suggestion_key x = [] \/ In (suggestion_key x) seen)) \/
  (SearchService.is_empty (suggestion_key x) || mem (suggestion_key x) seen = false /\
   suggestion_key x <> [] /\ ~ In (suggestion_key x) seen).
Proof.
  destruct (SearchService.is_empty (suggestion_key x)) eqn:He; cbn [orb].
  - left. split; [reflexivity|]. left. now apply is_empty_nil.
  - destruct (mem (suggestion_key x) seen) eqn:Hm.
    + left. split; [reflexivity|]. right. now apply mem_In.
    + right. split; [reflexivity|]. split.
      * intro E. apply is_empty_nil in E. congruence.
      * intro Hin. apply mem_In in Hin. congruence.
Qed.

Lemma dedupe_from_cons (seen : list str) (x : str) (rest : list str) :
  _dedupe_from seen (x :: rest)
  = if SearchService.is_empty (suggestion_key x) || mem (suggestion_key x) seen
    then _dedupe_from seen rest
    else x :: _dedupe_from (suggestion_key x :: seen) rest.
Proof. reflexivity. Qed.

Lemma dedupe_from_subsequence (seen items : list str) :
  subsequence (_dedupe_from seen items) items.
Proof.
  revert seen. induction items as [|x rest IH]; intro seen.
  - constructor.
  - rewrite dedupe_from_cons.
    destruct (SearchService.is_empty (suggestion_key x) || mem (suggestion_key x) seen).
    + apply subsequence_skip. apply IH.
    + apply subsequence_keep. apply IH.
Qed.

Lemma dedupe_from_fresh (seen items : list str) (x : str) :
  In x (_dedupe_from seen items) ->
  suggestion_key x <> [] /\ ~ In (suggestion_key x) seen.
Proof.
  revert seen. induction items as [|y rest IH]; intros seen Hin; [contradiction|].
  rewrite dedupe_from_cons in Hin.
  destruct (dedupe_skip_cases seen y) as [[E _] | [E [Hne Hns]]]; rewrite E in Hin.
  - now apply IH.
  - destruct Hin as [<- | Hin]; [now split|].
    apply IH in Hin as [H1 H2]. split; [exact H1|].
    intro H. apply H2. now right.
Qed.

Lemma dedupe_from_distinct (seen items : list str) :
  NoDup (map suggestion_key (_dedupe_from seen items)).
Proof.
  revert seen. induction items as [|y rest IH]; intro seen; [constructor|].
  rewrite dedupe_from_cons.
  destruct (SearchService.is_empty (suggestion_key y) || mem (suggestion_key y) seen).
  - apply IH.
  - cbn [map]. constructor; [|apply IH].
    intro Hin. apply in_map_iff in Hin as [z [Hz Hin]].
    apply dedupe_from_fresh in Hin as [_ Hns]. apply Hns. left. now symmetry.
Qed.

Lemma dedupe_from_first (seen pre post : list str) (x : str) :
  suggestion_key x <> [] -> ~ In (suggestion_key x) seen ->
  (forall y, In y pre -> suggestion_key y <> suggestion_key x) ->
  In x (_dedupe_from seen (pre ++ x :: post)).
Proof.
  intros Hne. revert seen. induction pre as [|y pre IH]; intros seen Hns Hpre.
  - cbn [app]. rewrite dedupe_from_cons.
    destruct (dedupe_skip_cases seen x) as [[_ [E | E]] | [E _]].
    + contradiction.
    + contradiction.
    + rewrite E. now left.
  - cbn [app]. rewrite dedupe_from_cons.
    destruct (SearchService.is_empty (suggestion_key y) || mem (suggestion_key y) seen).
    + apply IH; [exact Hns|]. intros z Hz. apply Hpre. now right.
    + right. apply IH.
      * intros [E | E]; [|contradiction]. apply (Hpre y); [now left | exact E].
      * intros z Hz. apply Hpre. now right.
Qed.

Lemma dedupe_from_occurrence (seen items : list str) (x : str) :
  In x (_dedupe_from seen items) ->
  exists pre post,
    items = pre ++ x :: post /\
    (forall y, In y pre -> suggestion_key y <> suggestion_key x).
Proof.
  revert seen. induction items as [|y rest IH]; intros seen Hin; [contradiction|].
  rewrite dedupe_from_cons in Hin.
  destruct (dedupe_skip_cases seen y) as [[E Hy] | [E [Hne Hns]]]; rewrite E in Hin.
  - pose proof (dedupe_from_fresh _ _ _ Hin) as [Hx1 Hx2].
    apply IH in Hin as [pre [post [-> Hpre]]].
    exists (y :: pre), post. split; [reflexivity|].
    intros z [<- | Hz]; [|now apply Hpre].
    intro Eq. destruct Hy as [Hy | Hy].
    + apply Hx1. now rewrite <- Eq.
    + apply Hx2. now rewrite <- Eq.
  - destruct Hin as [<- | Hin].
    + exists [], rest. split; [reflexivity|]. intros z [].
    + pose proof (dedupe_from_fresh _ _ _ Hin) as [_ Hx2].
      apply IH in Hin as [pre [post [-> Hpre]]].
      exists (y :: pre), post. split; [reflexivity|].
      intros z [<- | Hz]; [|now apply Hpre].
      intro Eq. apply Hx2. left. exact Eq.
Qed.

Lemma dedupe_from_fixed (seen items : list str) :
  NoDup (map suggestion_key items) ->
  (forall x, In x items -> suggestion_key x <> [] /\ ~ In (suggestion_key x) seen) ->
  _dedupe_from seen items = items.
Proof.
  revert seen. induction items as [|y rest IH]; intros seen Hnd Hall; [reflexivity|].
  rewrite dedupe_from_cons. cbn [map] in Hnd. inversion Hnd as [|k ks Hk Hnd' Eq]. subst.
  destruct (Hall y (or_introl eq_refl)) as [Hne Hns].
  destruct (dedupe_skip_cases seen y) as [[_ [E | E]] | [E _]]; try contradiction.
  rewrite E. f_equal. apply IH; [exact Hnd'|].
  intros x Hx. destruct (Hall x (or_intror Hx)) as [H1 H2]. split; [exact H1|].
  intros [Eq | Hin]; [|contradiction].
  apply Hk. rewrite Eq. now apply in_map.
Qed.

(** X13: [_dedupe_preserve_order] returns its input with some items left
    out, the others in their order; in the result no item is blank and no
    two items agree up to letter case and surrounding white space; applying
    it to its own result changes nothing. *)
Theorem dedupe_preserve_order_distinct :
  forall items,
    subsequence (_dedupe_preserve_order items) items /\
    NoDup (map suggestion_key (_dedupe_preserve_order items)) /\
    (forall x, In x (_dedupe_preserve_order items) -> suggestion_key x <> []) /\
    _dedupe_preserve_order (_dedupe_preserve_order items) = _dedupe_preserve_order items.
Proof.
  intro items. unfold _dedupe_preserve_order. split; [|split; [|split]].
  - apply dedupe_from_subsequence.
  - apply dedupe_from_distinct.
  - intros x Hx. now apply dedupe_from_fresh in Hx.
  - apply dedupe_from_fixed.
    + apply dedupe_from_distinct.
    + intros x Hx. apply dedupe_from_fresh in Hx as [Hne _].
      split; [exact Hne | intros []].
Qed.

(** X14: the items [_dedupe_preserve_order] keeps are exactly the first
    occurrences: an item is in the result if and only if it is not blank
    and stands in the input at a place before which no item agrees with it
    up to letter case and surrounding white space. *)
Theorem dedupe_preserve_order_first_occurrences :
  forall items x,
    In x (_dedupe_preserve_order items) <->
    suggestion_key x <> [] /\
    exists pre post,
      items = pre ++ x :: post /\
      (forall y, In y pre -> suggestion_key y <> suggestion_key x).
Proof.
  intros items x. unfold _dedupe_preserve_order. split.
  - intro Hin. split.
    + now apply dedupe_from_fresh in Hin.
    + now apply dedupe_from_occurrence in Hin.
  - intros [Hne [pre [post [-> Hpre]]]].
    apply dedupe_from_first; [exact Hne | intros [] | exact Hpre].
Qed.

End DedupeFacts.

Section SubstituteFacts.
Import Recommendation.

Lemma slice_to_firstn (A : Type) (items : list A) (limit : Z) :
  exists n, slice_to items limit = firstn n items.
Proof. unfold slice_to. destruct (0 <=? limit)%Z; eexists; reflexivity. Qed.

Lemma firstn_In (A : Type) (n : nat) (l : list A) (x : A) : In x (firstn n l) -> In x l.
Proof. intro H. rewrite <- (firstn_skipn n l). apply in_or_app. now left. Qed.

Lemma firstn_NoDup (A : Type) (n : nat) (l : list A) : NoDup l -> NoDup (firstn n l).
Proof. intro H. rewrite <- (firstn_skipn n l) in H. now apply NoDup_app_remove_r in H. Qed.

Lemma slice_to_In (A : Type) (items : list A) (limit : Z) (x : A) :
  In x (slice_to items limit) -> In x items.
Proof. destruct (slice_to_firstn A items limit) as [n ->]. apply firstn_In. Qed.

Lemma slice_to_NoDup (A : Type) (items : list A) (limit : Z) :
  NoDup items -> NoDup (slice_to items limit).
Proof. destruct (slice_to_firstn A items limit) as [n ->]. apply firstn_NoDup. Qed.

Lemma slice_to_length (A : Type) (items : list A) (limit : Z) :
  (0 <= limit)%Z -> (Z.of_nat (List.length (slice_to items limit)) <= limit)%Z.
Proof.
  intro H. unfold slice_to. destruct (Z.leb_spec 0 limit) as [_ | Hlt]; [|lia].
  pose proof (firstn_le_length (Z.to_nat limit) items). lia.
Qed.

Lemma dedupe_NoDup (items : list str) : NoDup (_dedupe_preserve_order items).
Proof. apply (NoDup_map_inv suggestion_key). apply dedupe_from_distinct. Qed.

Lemma subsequence_In (A : Type) (a b : list A) (x : A) :
  subsequence a b -> In x a -> In x b.
Proof.
  induction 1 as [|y a b _ IH|y a b _ IH]; intro Hin.
  - exact Hin.
  - right. now apply IH.
  - destruct Hin as [<- | Hin]; [now left | right; now apply IH].
Qed.

Lemma dedupe_In (items : list str) (x : str) :
  In x (_dedupe_preserve_order items) -> In x items.
Proof. apply subsequence_In. apply dedupe_from_subsequence. Qed.

Lemma substitutes_in_sound (text s : str) :
  In s (substitutes_in text) ->
  exists key subs,
    In (key, subs) SUBSTITUTE_MAP /\ contains key text = true /\ In s subs.
Proof.
  unfold substitutes_in. intro H. apply in_flat_map in H as [[key subs] [Hentry Hs]].
  cbn [fst snd] in Hs. exists key, subs. split; [exact Hentry|].
  destruct (contains key text); [now split | contradiction].
Qed.

(** X15: the substitutes proposed for a query are distinct, at most [limit]
    of them when the limit is not negative, and each one is listed in
    [SUBSTITUTE_MAP] under a key that occurs in the trimmed, lower-cased
    query. *)
Theorem get_substitutes_for_query_sound :
  forall query limit,
    NoDup (get_substitutes_for_query query limit) /\
    ((0 <= limit)%Z ->
     (Z.of_nat (List.length (get_substitutes_for_query query limit)) <= limit)%Z) /\
    (forall s,
       In s (get_substitutes_for_query query limit) ->
       exists key subs,
         In (key, subs) SUBSTITUTE_MAP /\
         contains key (strip (lower query)) = true /\
         In s subs).
Proof.
  intros query limit. unfold get_substitutes_for_query. split; [|split].
  - apply slice_to_NoDup, dedupe_NoDup.
  - apply slice_to_length.
  - intros s Hs. apply slice_to_In, dedupe_In in Hs. now apply substitutes_in_sound.
Qed.

(** X16: the substitutes proposed for a shopping list are distinct, at most
    [limit] of them when the limit is not negative, and each one is listed
    in [SUBSTITUTE_MAP] under a key that occurs in the lower-cased name of
    an item of the list. *)
Theorem get_substitutes_for_items_sound :
  forall current_items limit,
    NoDup (get_substitutes_for_items current_items limit) /\
    ((0 <= limit)%Z ->
     (Z.of_nat (List.length (get_substitutes_for_items current_items limit)) <= limit)%Z) /\
    (forall s,
       In s (get_substitutes_for_items current_items limit) ->
       exists item key subs,
         In item current_items /\
         In (key, subs) SUBSTITUTE_MAP /\
         contains key (lower (Models.name item)) = true /\
         In s subs).
Proof.
  intros current_items limit. unfold get_substitutes_for_items. split; [|split].
  - apply slice_to_NoDup, dedupe_NoDup.
  - apply slice_to_length.
  - intros s Hs. apply slice_to_In, dedupe_In in Hs.
    apply in_flat_map in Hs as [text [Htext Hs]].
    apply in_map_iff in Htext as [item [<- Hitem]].
    apply substitutes_in_sound in Hs as [key [subs [H1 [H2 H3]]]].
    exists item, key, subs. repeat split; assumption.
Qed.

Lemma lstrip_app_keep (a s : str) :
  space_at s = false -> s <> [] -> lstrip (a ++ s) = lstrip a ++ s.
Proof.
  intros Hs Hne. induction a as [|c a IH].
  - cbn [app lstrip]. now apply lstrip_fixed.
  - cbn [app lstrip]. destruct (is_space c); [exact IH | reflexivity].
Qed.

Lemma strip_around (t : str) : exists u v, t = u ++ strip t ++ v.
Proof.
  destruct (lstrip_suffix t) as [u [Hu _]].
  destruct (rstrip_prefix (lstrip t)) as [v Hv].
  exists u, v. unfold strip. rewrite <- Hv. exact Hu.
Qed.

(** Trimming a text does not change whether it contains a word that neither
    starts nor ends with white space. *)
Lemma contains_strip (k t : str) :
  k <> [] -> space_at k = false -> space_at (rev k) = false ->
  contains k (strip t) = contains k t.
Proof.
  intros Hne Hhead Hlast.
  apply eq_true_iff_eq. rewrite !contains_spec. split.
  - intros [a [b E]]. destruct (strip_around t) as [u [v Ht]].
    exists (u ++ a), (b ++ v). rewrite Ht, E. now rewrite <- !app_assoc.
  - intros [a [b ->]].
    assert (Hkb : space_at (k ++ b) = false).
    { destruct k; [contradiction | exact Hhead]. }
    assert (Hkb' : k ++ b <> []).
    { destruct k; [contradiction | discriminate]. }
    unfold strip. rewrite (lstrip_app_keep a (k ++ b) Hkb Hkb').
    unfold rstrip. rewrite !rev_app_distr, <- app_assoc.
    assert (Hka : space_at (rev k ++ rev (lstrip a)) = false).
    { destruct (rev k) eqn:E; [|exact Hlast].
      apply (f_equal (@rev ascii)) in E. rewrite rev_involutive in E. contradiction. }
    assert (Hka' : rev k ++ rev (lstrip a) <> []).
    { destruct (rev k) eqn:E; [|discriminate].
      apply (f_equal (@rev ascii)) in E. rewrite rev_involutive in E. contradiction. }
    rewrite (lstrip_app_keep (rev b) _ Hka Hka').
    rewrite !rev_app_distr, !rev_involutive, <- app_assoc.
    exists (lstrip a), (rev (lstrip (rev b))). reflexivity.
Qed.

Lemma substitutes_in_strip (t : str) : substitutes_in (strip t) = substitutes_in t.
Proof.
  unfold substitutes_in, SUBSTITUTE_MAP. cbn [flat_map fst snd].
  rewrite !contains_strip; try reflexivity; discriminate.
Qed.

(** X17: for a list of one item, [get_substitutes_for_items] proposes what
    [get_substitutes_for_query] proposes for the item's name. *)
Theorem get_substitutes_item_as_query :
  forall item limit,
    get_substitutes_for_items [item] limit
    = get_substitutes_for_query (Models.name item) limit.
Proof.
  intros item limit. unfold get_substitutes_for_items, get_substitutes_for_query.
  cbn [map flat_map]. now rewrite app_nil_r, substitutes_in_strip.
Qed.

Lemma dedupe_from_covers (seen items : list str) (x : str) :
  In x items -> suggestion_key x <> [] ->
  In (suggestion_key x) seen \/
  exists y, In y (_dedupe_from seen items) /\ suggestion_key y = suggestion_key x.
Proof.
  revert seen. induction items as [|z rest IH]; intros seen Hin Hne; [contradiction|].
  rewrite dedupe_from_cons.
  destruct (dedupe_skip_cases seen z) as [[E Hz] | [E [Hzne Hzns]]]; rewrite E.
  - destruct Hin as [-> | Hin].
    + destruct Hz as [Hz | Hz]; [contradiction | now left].
    + now apply IH.
  - destruct Hin as [-> | Hin].
    + right. exists x. split; [now left | reflexivity].
    + destruct (IH (suggestion_key z :: seen) Hin Hne) as [[Eq | Hs] | [y [Hy Eq]]].
      * right. exists z. split; [now left | exact Eq].
      * now left.
      * right. exists y. split; [now right | exact Eq].
Qed.

(** X18: in the combined suggestions, [all] holds only suggestions of the
    three groups, no two of them equal up to letter case and surrounding
    white space, and it represents every suggestion of every group that is
    not blank. *)
Theorem get_combined_suggestions_all :
  forall history month current_items,
    let g := get_combined_suggestions history month current_items in
    NoDup (map suggestion_key (all g)) /\
    (forall s, In s (all g) ->
       In s (previous g) \/ In s (seasonal g) \/ In s (substitutes g)) /\
    (forall s,
       In s (previous g) \/ In s (seasonal g) \/ In s (substitutes g) ->
       suggestion_key s <> [] ->
       exists t, In t (all g) /\ suggestion_key t = suggestion_key s).
Proof.
  intros history month current_items g. subst g.
  unfold get_combined_suggestions. cbn [all previous seasonal substitutes].
  split; [|split].
  - apply dedupe_from_distinct.
  - intros s Hs. apply dedupe_In in Hs.
    apply in_app_or in Hs as [H | H]; [now left|].
    apply in_app_or in H as [H | H]; [right; now left | right; now right].
  - intros s Hs Hne.
    assert (Hin : In s (history ++ seasonal_items_for_month month
                          ++ get_substitutes_for_items current_items 5)).
    { apply in_or_app. destruct Hs as [H | [H | H]]; [now left | right | right].
      - apply in_or_app. now left.
      - apply in_or_app. now right. }
    destruct (dedupe_from_covers [] _ s Hin Hne) as [[] | H]. exact H.
Qed.

End SubstituteFacts.

(** ** The shopping list *)

Lemma NoDup_snoc (A : Type) (l : list A) (x : A) :
  NoDup l -> ~ In x l -> NoDup (l ++ [x]).
Proof.
  induction 1 as [|y l Hy Hnd IH]; intro Hx; cbn [app].
  - constructor; [intros [] | constructor].
  - constructor.
    + intro Hin. apply in_app_or in Hin as [Hin | [E | []]]; [contradiction|].
      apply Hx. now left.
    + apply IH. intro Hin. apply Hx. now right.
Qed.

Section KeyedTable.
Variable A : Type.
Variable key : A -> str.

Lemma find_key_none (k : str) (t : list A) :
  find (fun r => str_eqb (key r) k) t = None <-> ~ In k (map key t).
Proof.
  induction t as [|r t IH]; cbn [find map In].
  - split; [intros _ [] | reflexivity].
  - destruct (str_eqb (key r) k) eqn:E.
    + apply str_eqb_eq in E. split; [discriminate|]. intro H. exfalso. apply H. now left.
    + rewrite IH. split.
      * intros H [Eq | Hin]; [|contradiction].
        apply str_eqb_eq in Eq. congruence.
      * intros H Hin. apply H. now right.
Qed.

Lemma find_key_some (k : str) (t : list A) (r : A) :
  find (fun r => str_eqb (key r) k) t = Some r -> In r t /\ key r = k.
Proof.
  intro H. apply find_some in H as [Hin E]. split; [exact Hin | now apply str_eqb_eq].
Qed.

Lemma filter_key_absent (k : str) (t : list A) :
  ~ In k (map key t) -> filter (fun r => str_eqb (key r) k) t = [].
Proof.
  induction t as [|r t IH]; cbn [filter map In]; intro H; [reflexivity|].
  destruct (str_eqb (key r) k) eqn:E.
  - apply str_eqb_eq in E. exfalso. apply H. now left.
  - apply IH. intro Hin. apply H. now right.
Qed.

Lemma filter_key_unique (k : str) (t : list A) :
  NoDup (map key t) ->
  filter (fun r => str_eqb (key r) k) t
  = match find (fun r => str_eqb (key r) k) t with
    | Some r => [r]
    | None => []
    end.
Proof.
  induction t as [|r t IH]; cbn [filter find map]; intro Hnd; [reflexivity|].
  inversion Hnd as [|x xs Hx Hnd' Eq]. subst.
  destruct (str_eqb (key r) k) eqn:E.
  - apply str_eqb_eq in E. subst k. now rewrite (filter_key_absent _ _ Hx).
  - now apply IH.
Qed.

Lemma find_key_update (k k' : str) (f : A -> A) (t : list A) :
  (forall r, key (f r) = key r) ->
  find (fun r => str_eqb (key r) k')
       (map (fun r => if str_eqb (key r) k then f r else r) t)
  = option_map (fun r => if str_eqb (key r) k then f r else r)
               (find (fun r => str_eqb (key r) k') t).
Proof.
  intro Hf. induction t as [|r t IH]; cbn [map find option_map]; [reflexivity|].
  assert (E : key (if str_eqb (key r) k then f r else r) = key r).
  { destruct (str_eqb (key r) k); [apply Hf | reflexivity]. }
  rewrite E. destruct (str_eqb (key r) k'); [reflexivity | exact IH].
Qed.

Lemma map_key_update (k : str) (f : A -> A) (t : list A) :
  (forall r, key (f r) = key r) ->
  map key (map (fun r => if str_eqb (key r) k then f r else r) t) = map key t.
Proof.
  intro Hf. rewrite map_map. apply map_ext. intro r.
  destruct (str_eqb (key r) k); [apply Hf | reflexivity].
Qed.

Lemma find_key_delete (k k' : str) (t : list A) :
  find (fun r => str_eqb (key r) k')
       (filter (fun r => negb (str_eqb (key r) k)) t)
  = if str_eqb k' k then None else find (fun r => str_eqb (key r) k') t.
Proof.
  induction t as [|r t IH]; cbn [filter find].
  - now destruct (str_eqb k' k).
  - destruct (str_eqb (key r) k) eqn:E; cbn [negb find].
    + rewrite IH. destruct (str_eqb k' k) eqn:E'; [reflexivity|].
      destruct (str_eqb (key r) k') eqn:E''; [|reflexivity].
      apply str_eqb_eq in E, E''. subst. rewrite str_eqb_refl in E'. discriminate.
    + destruct (str_eqb (key r) k') eqn:E''; [|exact IH].
      destruct (str_eqb k' k) eqn:E'; [|reflexivity].
      apply str_eqb_eq in E', E''. subst. rewrite str_eqb_refl in E. discriminate.
Qed.

Lemma NoDup_key_filter (p : A -> bool) (t : list A) :
  NoDup (map key t) -> NoDup (map key (filter p t)).
Proof.
  induction t as [|r t IH]; cbn [filter map]; intro Hnd; [constructor|].
  inversion Hnd as [|x xs Hx Hnd' Eq]. subst.
  destruct (p r); [|now apply IH].
  cbn [map]. constructor; [|now apply IH].
  intro Hin. apply Hx. apply in_map_iff in Hin as [z [Hz Hin]].
  apply filter_In in Hin as [Hin _]. apply in_map_iff. now exists z.
Qed.

Lemma find_key_app (k : str) (t : list A) (r : A) :
  find (fun r => str_eqb (key r) k) (t ++ [r])
  = match find (fun r => str_eqb (key r) k) t with
    | Some x => Some x
    | None => if str_eqb (key r) k then Some r else None
    end.
Proof.
  induction t as [|x t IH]; cbn [app find]; [reflexivity|].
  destruct (str_eqb (key x) k); [reflexivity | exact IH].
Qed.

Lemma filter_key_delete_app (k : str) (t : list A) (r : A) :
  ~ In k (map key t) -> key r = k ->
  filter (fun r => negb (str_eqb (key r) k)) (t ++ [r]) = t.
Proof.
  intros Hk Hr. rewrite filter_app. cbn [filter].
  assert (E : str_eqb (key r) k = true) by now apply str_eqb_eq.
  rewrite E. cbn [negb]. rewrite app_nil_r.
  induction t as [|x t IH]; cbn [filter]; [reflexivity|].
  destruct (str_eqb (key x) k) eqn:Ex.
  - apply str_eqb_eq in Ex. exfalso. apply Hk. now left.
  - cbn [negb]. f_equal. apply IH. intro Hin. apply Hk. now right.
Qed.

End KeyedTable.

Section ShoppingListFacts.
Import Main.

Lemma select_item (table : list Models.ShoppingItem) (norm : str) :
  NoDup (map Models.name table) ->
  scalar_one_or_none (select_by_name table norm) = Ok (find_item norm table).
Proof.
  intro Hnd. unfold select_by_name, find_item, name_is.
  rewrite (filter_key_unique _ Models.name norm table Hnd).
  now destruct (find _ table).
Qed.

Lemma find_item_some (norm : str) (table : list Models.ShoppingItem) (r : Models.ShoppingItem) :
  find_item norm table = Some r -> In r table /\ Models.name r = norm.
Proof. apply (find_key_some _ Models.name). Qed.

Lemma find_item_update (norm other : str) (f : Models.ShoppingItem -> Models.ShoppingItem)
    (table : list Models.ShoppingItem) :
  (forall r, Models.name (f r) = Models.name r) ->
  find_item other (update_named norm f table)
  = option_map (fun r => if name_is norm r then f r else r) (find_item other table).
Proof. apply (find_key_update _ Models.name). Qed.

Lemma find_item_update_same (norm : str) (f : Models.ShoppingItem -> Models.ShoppingItem)
    (table : list Models.ShoppingItem) (old : Models.ShoppingItem) :
  (forall r, Models.name (f r) = Models.name r) ->
  find_item norm table = Some old ->
  find_item norm (update_named norm f table) = Some (f old).
Proof.
  intros Hf Hold. rewrite (find_item_update _ _ _ _ Hf), Hold. cbn [option_map].
  apply find_item_some in Hold as [_ E]. unfold name_is. rewrite E, str_eqb_refl.
  reflexivity.
Qed.

Lemma find_item_update_other (norm other : str)
    (f : Models.ShoppingItem -> Models.ShoppingItem) (table : list Models.ShoppingItem) :
  (forall r, Models.name (f r) = Models.name r) ->
  other <> norm ->
  find_item other (update_named norm f table) = find_item other table.
Proof.
  intros Hf Hne. rewrite (find_item_update _ _ _ _ Hf).
  destruct (find_item other table) as [r|] eqn:E; [|reflexivity]. cbn [option_map].
  apply find_item_some in E as [_ E]. unfold name_is. rewrite E.
  apply str_eqb_neq in Hne. now rewrite Hne.
Qed.

Lemma find_item_delete (norm other : str) (table : list Models.ShoppingItem) :
  find_item other (delete_named norm table)
  = if str_eqb other norm then None else find_item other table.
Proof. apply (find_key_delete _ Models.name). Qed.

Lemma list_ok_update (norm : str) (f : Models.ShoppingItem -> Models.ShoppingItem)
    (table : list Models.ShoppingItem) :
  (forall r, Models.name (f r) = Models.name r) ->
  (forall r, In r table -> Models.name r = norm ->
             (1 <= Models.quantity r)%Z -> (1 <= Models.quantity (f r))%Z) ->
  list_ok table -> list_ok (update_named norm f table).
Proof.
  intros Hname Hq [Hnd Hall]. split.
  - unfold update_named, name_is.
    now rewrite (map_key_update _ Models.name norm f table Hname).
  - unfold update_named. apply Forall_forall. intros r Hr.
    apply in_map_iff in Hr as [r0 [<- Hr0]].
    rewrite Forall_forall in Hall. specialize (Hall r0 Hr0) as [H1 [H2 H3]].
    destruct (name_is norm r0) eqn:E; [|now repeat split].
    apply str_eqb_eq in E.
    rewrite (Hname r0). split; [exact H1|]. split; [exact H2|]. now apply Hq.
Qed.

Lemma find_item_unique (norm : str) (table : list Models.ShoppingItem)
    (old r : Models.ShoppingItem) :
  NoDup (map Models.name table) ->
  find_item norm table = Some old -> In r table -> Models.name r = norm -> r = old.
Proof.
  intros Hnd Hold Hr Hname.
  assert (Hin : In r (select_by_name table norm)).
  { apply filter_In. split; [exact Hr|]. unfold name_is. now apply str_eqb_eq. }
  unfold select_by_name, name_is in Hin.
  rewrite (filter_key_unique _ Models.name norm table Hnd) in Hin.
  fold (name_is norm) in Hin. fold (find_item norm table) in Hin.
  rewrite Hold in Hin. destruct Hin as [E | []]. now symmetry.
Qed.

Lemma list_ok_delete (norm : str) (table : list Models.ShoppingItem) :
  list_ok table -> list_ok (delete_named norm table).
Proof.
  intros [Hnd Hall]. split.
  - now apply NoDup_key_filter.
  - apply Forall_forall. intros r Hr. apply filter_In in Hr as [Hr _].
    rewrite Forall_forall in Hall. now apply Hall.
Qed.

Lemma norm_fixed (name : str) : lower (strip (lower (strip name))) = lower (strip name).
Proof. now rewrite <- strip_lower, lower_lower, strip_lower, strip_strip. Qed.

Lemma lookup_product_named (norm : str) (products : list SearchService.Product) :
  named_products products ->
  forall best_match, exists m, lookup_product norm best_match products = Ok m.
Proof.
  induction 1 as [|p rest Hp _ IH]; intro best_match; cbn [lookup_product].
  - now exists best_match.
  - destruct (SearchService.p_name p) as [n|]; [|contradiction].
    destruct (str_eqb (lower n) norm); [now exists (Some p)|].
    destruct (contains norm (lower n) || contains (lower n) norm); apply IH.
Qed.

Lemma existsb_name_is (norm : str) (table : list Models.ShoppingItem) :
  find_item norm table = None -> existsb (name_is norm) table = false.
Proof.
  intro H. destruct (existsb (name_is norm) table) eqn:E; [|reflexivity].
  apply existsb_exists in E as [r [Hr Hn]].
  pose proof (find_none _ _ H r Hr) as Hf. unfold find_item in H. congruence.
Qed.

Lemma find_item_absent (norm : str) (table : list Models.ShoppingItem) :
  find_item norm table = None <-> ~ In norm (map Models.name table).
Proof. apply (find_key_none _ Models.name). Qed.

Lemma or_else_cases (a b : str) : or_else a b = a \/ or_else a b = b.
Proof. unfold or_else. destruct (SearchService.is_empty a); [now right | now left]. Qed.

(** X19: on a well-formed list and a catalog whose products are all named,
    adding [quantity] units (1 to 100) of an item whose name is not blank
    succeeds: the list then holds [quantity] more units under the trimmed,
    lower-cased name, every other item is as before, and the list is again
    well-formed. *)
Theorem upsert_item_adds :
  forall products table name quantity category,
    list_ok table ->
    named_products products ->
    (1 <= quantity <= 100)%Z ->
    lower (strip name) <> [] ->
    exists table',
      _upsert_item products table name quantity category = Ok table' /\
      quantity_of (lower (strip name)) table'
      = (quantity_of (lower (strip name)) table + quantity)%Z /\
      (forall other,
         other <> lower (strip name) -> find_item other table' = find_item other table) /\
      list_ok table'.
Proof.
  intros products table name quantity category Hok Hnamed Hq Hne.
  unfold _upsert_item.
  destruct (Z.leb_spec quantity 0) as [Hle | _]; [lia|].
  destruct (Z.ltb_spec 100 quantity) as [Hlt | _]; [lia|]. cbn [orb].
  set (norm := lower (strip name)) in *.
  destruct (SearchService.is_empty norm) eqn:He.
  { apply is_empty_nil in He. contradiction. }
  rewrite (select_item table norm (proj1 Hok)).
  replace (Z.max 1 quantity) with quantity by lia.
  destruct (find_item norm table) as [old|] eqn:Hold.
  - match goal with |- context [update_named norm ?g table] => set (f := g) end.
    assert (Hf : forall r, Models.name (f r) = Models.name r) by reflexivity.
    eexists. split; [reflexivity|]. split; [|split].
    + unfold quantity_of.
      rewrite (find_item_update_same norm f table old Hf Hold), Hold.
      reflexivity.
    + intros other Hother.
      exact (find_item_update_other norm other f table Hf Hother).
    + apply list_ok_update; [exact Hf | | exact Hok].
      intros r _ _ Hr. subst f. cbn [Models.quantity set_category set_quantity]. lia.
  - destruct (lookup_product_named norm products Hnamed None) as [m ->].
    unfold add_row. cbn [Models.name].
    rewrite (existsb_name_is norm table Hold).
    eexists. split; [reflexivity|]. split; [|split].
    + unfold quantity_of, find_item, name_is.
      rewrite (find_key_app _ Models.name). fold (name_is norm). fold (find_item norm table).
      rewrite Hold. cbn [Models.name]. rewrite str_eqb_refl. cbn [Models.quantity]. lia.
    + intros other Hother. unfold find_item, name_is.
      rewrite (find_key_app _ Models.name). cbn [Models.name].
      destruct (find _ table); [reflexivity|].
      assert (Hno : norm <> other) by congruence.
      apply str_eqb_neq in Hno. now rewrite Hno.
    + destruct Hok as [Hnd Hall]. split.
      * rewrite map_app. cbn [map Models.name].
        apply NoDup_snoc; [exact Hnd|]. now apply find_item_absent.
      * apply Forall_app. split; [exact Hall|]. constructor; [|constructor].
        cbn [Models.name Models.quantity]. split; [exact Hne|].
        split; [apply norm_fixed | lia].
Qed.

Lemma quantity_of_delete (norm : str) (table : list Models.ShoppingItem) :
  quantity_of norm (delete_named norm table) = 0%Z.
Proof. unfold quantity_of. now rewrite find_item_delete, str_eqb_refl. Qed.

Lemma find_item_delete_other (norm other : str) (table : list Models.ShoppingItem) :
  other <> norm -> find_item other (delete_named norm table) = find_item other table.
Proof.
  intro Hne. rewrite find_item_delete. apply str_eqb_neq in Hne. now rewrite Hne.
Qed.

(** X20: on a well-formed list, setting the quantity of an item (0 to 100,
    name not blank) fails with status 404 when the item is not listed;
    otherwise it succeeds, the list then holds exactly that quantity of the
    item -- none at all after quantity 0 -- every other item is as before,
    and the list is again well-formed. *)
Theorem modify_item_sets :
  forall table name quantity category,
    list_ok table ->
    (0 <= quantity <= 100)%Z ->
    lower (strip name) <> [] ->
    match find_item (lower (strip name)) table with
    | None =>
        _modify_item table name quantity category
        = Raise (HTTPException 404 (L "Item '" ++ lower (strip name) ++ L "' not found."))
    | Some _ =>
        exists table',
          _modify_item table name quantity category = Ok table' /\
          quantity_of (lower (strip name)) table' = quantity /\
          (quantity = 0%Z -> find_item (lower (strip name)) table' = None) /\
          (forall other,
             other <> lower (strip name) -> find_item other table' = find_item other table) /\
          list_ok table'
    end.
Proof.
  intros table name quantity category Hok Hq Hne.
  unfold _modify_item.
  destruct (Z.ltb_spec quantity 0) as [Hlt | _]; [lia|].
  destruct (Z.ltb_spec 100 quantity) as [Hlt | _]; [lia|]. cbn [orb].
  set (norm := lower (strip name)) in *.
  destruct (SearchService.is_empty norm) eqn:He.
  { apply is_empty_nil in He. contradiction. }
  rewrite (select_item table norm (proj1 Hok)).
  destruct (find_item norm table) as [old|] eqn:Hold; [|reflexivity].
  destruct (Z.eqb_spec quantity 0) as [Hz | Hnz].
  - eexists. split; [reflexivity|]. split; [|split; [|split]].
    + rewrite quantity_of_delete. now symmetry.
    + intros _. now rewrite find_item_delete, str_eqb_refl.
    + intros other Hother. now apply find_item_delete_other.
    + now apply list_ok_delete.
  - match goal with |- context [update_named norm ?g table] => set (f := g) end.
    assert (Hf : forall r, Models.name (f r) = Models.name r).
    { intro r. subst f. cbn beta. now destruct (SearchService.is_empty category). }
    assert (Hfq : forall r, Models.quantity (f r) = quantity).
    { intro r. subst f. cbn beta. now destruct (SearchService.is_empty category). }
    eexists. split; [reflexivity|]. split; [|split; [|split]].
    + unfold quantity_of. rewrite (find_item_update_same norm f table old Hf Hold).
      apply Hfq.
    + intro Hz. contradiction.
    + intros other Hother. exact (find_item_update_other norm other f table Hf Hother).
    + apply list_ok_update; [exact Hf | | exact Hok].
      intros r _ _ _. rewrite Hfq. lia.
Qed.

(** X21: on a well-formed list, removing [quantity] units of an item always
    returns.  When the quantity is positive and smaller than the quantity
    listed, that many units are taken off; in every other case -- also for a
    quantity of 0 or less -- the item leaves the list.  The report gives
    the units removed and remaining, or that the item is not listed; every
    other item is as before and the list is again well-formed. *)
Theorem remove_item_effect :
  forall table name quantity,
    list_ok table ->
    exists table',
      _remove_item table name quantity
      = Ok (table',
            match find_item (lower (strip name)) table with
            | None => ItemNotFound
            | Some _ =>
                Removed (quantity_of (lower (strip name)) table
                         - quantity_of (lower (strip name)) table')
                        (quantity_of (lower (strip name)) table')
            end) /\
      quantity_of (lower (strip name)) table'
      = (if (0 <? quantity)%Z && (quantity <? quantity_of (lower (strip name)) table)%Z
         then quantity_of (lower (strip name)) table - quantity
         else 0)%Z /\
      (forall other,
         other <> lower (strip name) -> find_item other table' = find_item other table) /\
      list_ok table'.
Proof.
  intros table name quantity Hok. unfold _remove_item.
  set (norm := lower (strip name)) in *.
  assert (Hblank : norm = [] -> find_item norm table = None).
  { intro E. apply find_item_absent. intro Hin.
    apply in_map_iff in Hin as [r [Hr Hin]].
    destruct Hok as [_ Hall]. rewrite Forall_forall in Hall.
    destruct (Hall r Hin) as [H1 _]. congruence. }
  assert (Habsent : find_item norm table = None ->
            exists table',
              Ok (table, ItemNotFound)
              = Ok (table',
                    match find_item norm table with
                    | None => ItemNotFound
                    | Some _ => Removed (quantity_of norm table - quantity_of norm table')
                                  (quantity_of norm table')
                    end) /\
              quantity_of norm table'
              = (if (0 <? quantity)%Z && (quantity <? quantity_of norm table)%Z
                 then quantity_of norm table - quantity else 0)%Z /\
              (forall other, other <> norm -> find_item other table' = find_item other table) /\
              list_ok table').
  { intro Hnone. exists table. unfold quantity_of. rewrite Hnone.
    split; [reflexivity|]. split; [|split; [reflexivity | exact Hok]].
    destruct (0 <? quantity)%Z eqn:E1; [|reflexivity].
    destruct (Z.ltb_spec quantity 0); [lia | reflexivity]. }
  destruct (SearchService.is_empty norm) eqn:He.
  { apply is_empty_nil in He. exact (Habsent (Hblank He)). }
  rewrite (select_item table norm (proj1 Hok)).
  destruct (find_item norm table) as [old|] eqn:Hold; [|exact (Habsent eq_refl)].
  assert (Hqo : quantity_of norm table = Models.quantity old).
  { unfold quantity_of. now rewrite Hold. }
  rewrite Hqo.
  destruct ((0 <? quantity)%Z && (quantity <? Models.quantity old)%Z) eqn:Hc.
  - match goal with |- context [update_named norm ?g table] => set (f := g) end.
    assert (Hf : forall r, Models.name (f r) = Models.name r) by reflexivity.
    assert (Hnew : quantity_of norm (update_named norm f table)
                   = (Models.quantity old - quantity)%Z).
    { unfold quantity_of. now rewrite (find_item_update_same norm f table old Hf Hold). }
    exists (update_named norm f table). rewrite Hnew.
    split; [|split; [reflexivity | split]].
    + do 3 f_equal. lia.
    + intros other Hother. exact (find_item_update_other norm other f table Hf Hother).
    + apply list_ok_update; [exact Hf | | exact Hok].
      intros r Hr Hname _. subst f. cbn [Models.quantity set_quantity].
      rewrite (find_item_unique norm table old r (proj1 Hok) Hold Hr Hname).
      apply andb_true_iff in Hc as [H0 H1].
      apply Z.ltb_lt in H1. lia.
  - exists (delete_named norm table). rewrite quantity_of_delete.
    split; [|split; [reflexivity | split]].
    + do 3 f_equal. lia.
    + intros other Hother. now apply find_item_delete_other.
    + now apply list_ok_delete.
Qed.

(** X22: adding a new item to a well-formed list and then removing the same
    number of units gives back the list as it was. *)
Theorem upsert_then_remove :
  forall products table name quantity category,
    list_ok table ->
    named_products products ->
    (1 <= quantity <= 100)%Z ->
    lower (strip name) <> [] ->
    find_item (lower (strip name)) table = None ->
    exists table',
      _upsert_item products table name quantity category = Ok table' /\
      _remove_item table' name quantity = Ok (table, Removed quantity 0).
Proof.
  intros products table name quantity category Hok Hnamed Hq Hne Hnone.
  unfold _upsert_item.
  destruct (Z.leb_spec quantity 0) as [Hle | _]; [lia|].
  destruct (Z.ltb_spec 100 quantity) as [Hlt | _]; [lia|]. cbn [orb].
  set (norm := lower (strip name)) in *.
  destruct (SearchService.is_empty norm) eqn:He.
  { apply is_empty_nil in He. contradiction. }
  rewrite (select_item table norm (proj1 Hok)), Hnone.
  destruct (lookup_product_named norm products Hnamed None) as [m ->].
  unfold add_row. cbn [Models.name]. rewrite (existsb_name_is norm table Hnone).
  replace (Z.max 1 quantity) with quantity by lia.
  match goal with |- context [table ++ [?r]] => set (row := r) end.
  exists (table ++ [row]). split; [reflexivity|].
  unfold _remove_item. fold norm. rewrite He.
  assert (Hnd : NoDup (map Models.name (table ++ [row]))).
  { rewrite map_app. apply NoDup_snoc; [exact (proj1 Hok)|].
    now apply find_item_absent. }
  rewrite (select_item (table ++ [row]) norm Hnd).
  assert (Hfind : find_item norm (table ++ [row]) = Some row).
  { unfold find_item, name_is. rewrite (find_key_app _ Models.name).
    fold (name_is norm). fold (find_item norm table). rewrite Hnone.
    subst row. cbn [Models.name]. now rewrite str_eqb_refl. }
  rewrite Hfind. subst row. cbn [Models.quantity].
  rewrite Z.ltb_irrefl, andb_false_r.
  unfold delete_named, name_is.
  rewrite (filter_key_delete_app _ Models.name norm table); [reflexivity | | reflexivity].
  now apply find_item_absent.
Qed.

End ShoppingListFacts.

Section HistoryFacts.
Import Main.

(** X23: on a well-formed history, recording an interaction with an item
    always returns a well-formed history.  For a name that is not blank it
    adds one purchase when the action is [purchase] and one search for any
    other action, under the trimmed, lower-cased name; a blank name leaves
    the history as it is.  The counts of every other item are untouched. *)
Theorem touch_history_counts :
  forall history item_name action_type,
    history_ok history ->
    exists history',
      _touch_history history item_name action_type = Ok history' /\
      history_ok history' /\
      purchases (lower (strip item_name)) history'
      = (purchases (lower (strip item_name)) history
         + (if SearchService.is_empty (lower (strip item_name)) then 0
            else if str_eqb action_type (L "purchase") then 1 else 0))%Z /\
      searches (lower (strip item_name)) history'
      = (searches (lower (strip item_name)) history
         + (if SearchService.is_empty (lower (strip item_name)) then 0
            else if str_eqb action_type (L "purchase") then 0 else 1))%Z /\
      (forall other,
         other <> lower (strip item_name) ->
         find_history other history' = find_history other history).
Proof.
  intros history item_name action_type Hok.
  unfold _touch_history, purchases, searches, find_history, history_is.
  set (norm := lower (strip item_name)).
  destruct (SearchService.is_empty norm) eqn:He.
  { exists history. rewrite !Z.add_0_r. repeat split; try reflexivity. exact Hok. }
  rewrite (filter_key_unique _ Models.item_name norm history Hok).
  set (touch := fun r : Models.UserHistory =>
                  if str_eqb action_type (L "purchase")
                  then Models.mkUserHistory (Models.item_name r)
                         (Models.purchase_count r + 1) (Models.search_count r)
                  else Models.mkUserHistory (Models.item_name r)
                         (Models.purchase_count r) (Models.search_count r + 1)).
  assert (Hkey : forall r, Models.item_name (touch r) = Models.item_name r).
  { intro r. subst touch. cbn beta. now destruct (str_eqb action_type (L "purchase")). }
  destruct (find (fun r => str_eqb (Models.item_name r) norm) history) as [old|] eqn:Hold;
    cbn [scalar_one_or_none].
  - exists (map (fun r => if str_eqb (Models.item_name r) norm then touch r else r) history).
    split; [reflexivity|].
    pose proof (find_key_update _ Models.item_name norm norm touch history Hkey) as Hsame.
    rewrite Hold in Hsame. cbn [option_map] in Hsame.
    destruct (find_key_some _ Models.item_name norm history old Hold) as [_ Eold].
    rewrite Eold, str_eqb_refl in Hsame.
    split; [|split; [|split]].
    + unfold history_ok.
      now rewrite (map_key_update _ Models.item_name norm touch history Hkey).
    + rewrite Hsame. subst touch. cbn beta.
      destruct (str_eqb action_type (L "purchase")); cbn [Models.purchase_count]; lia.
    + rewrite Hsame. subst touch. cbn beta.
      destruct (str_eqb action_type (L "purchase")); cbn [Models.search_count]; lia.
    + intros other Hother.
      rewrite (find_key_update _ Models.item_name norm other touch history Hkey).
      destruct (find (fun r => str_eqb (Models.item_name r) other) history) as [r|] eqn:Er;
        [|reflexivity].
      cbn [option_map].
      apply (find_key_some _ Models.item_name) in Er as [_ Er]. rewrite Er.
      apply str_eqb_neq in Hother. now rewrite Hother.
  - eexists. split; [reflexivity|].
    assert (Hrow : Models.item_name
                     (if str_eqb action_type (L "purchase")
                      then Models.mkUserHistory norm 1 0
                      else Models.mkUserHistory norm 0 1) = norm).
    { now destruct (str_eqb action_type (L "purchase")). }
    split; [|split; [|split]].
    + unfold history_ok. rewrite map_app. cbn [map]. rewrite Hrow.
      apply NoDup_snoc; [exact Hok|].
      now apply (find_key_none _ Models.item_name).
    + rewrite (find_key_app _ Models.item_name), Hold, Hrow, str_eqb_refl.
      now destruct (str_eqb action_type (L "purchase")).
    + rewrite (find_key_app _ Models.item_name), Hold, Hrow, str_eqb_refl.
      now destruct (str_eqb action_type (L "purchase")).
    + intros other Hother.
      rewrite (find_key_app _ Models.item_name), Hrow.
      destruct (find (fun r => str_eqb (Models.item_name r) other) history); [reflexivity|].
      assert (Hno : norm <> other) by congruence.
      apply str_eqb_neq in Hno. now rewrite Hno.
Qed.

End HistoryFacts.

Lemma sample_list_ok : list_ok sample_list.
Proof.
  split.
  - cbn [map sample_list Models.name]. constructor.
    + intros [H | []]. vm_compute in H. discriminate H.
    + constructor; [intros [] | constructor].
  - constructor; [|constructor; [|constructor]].
    + split; [vm_compute; discriminate|]. split; [vm_compute; reflexivity | vm_compute; discriminate].
    + split; [vm_compute; discriminate|]. split; [vm_compute; reflexivity | vm_compute; discriminate].
Defined.

Lemma sample_products_named : named_products sample_products.
Proof. repeat constructor; discriminate. Defined.

Lemma upsert_item_adds_witness :
  exists table',
    Main._upsert_item sample_products sample_list (L " Milk ") 3 [] = Main.Ok table' /\
    quantity_of (lower (strip (L " Milk "))) table'
    = (quantity_of (lower (strip (L " Milk "))) sample_list + 3)%Z /\
    (forall other,
       other <> lower (strip (L " Milk ")) ->
       find_item other table' = find_item other sample_list) /\
    list_ok table'.
Proof.
  apply (upsert_item_adds sample_products sample_list (L " Milk ") 3 []
           sample_list_ok sample_products_named).
  - lia.
  - vm_compute. discriminate.
Defined.

Lemma modify_item_sets_witness :
  exists table',
    Main._modify_item sample_list (L "Eggs") 6 [] = Main.Ok table' /\
    quantity_of (lower (strip (L "Eggs"))) table' = 6%Z /\
    (6%Z = 0%Z -> find_item (lower (strip (L "Eggs"))) table' = None) /\
    (forall other,
       other <> lower (strip (L "Eggs")) ->
       find_item other table' = find_item other sample_list) /\
    list_ok table'.
Proof.
  assert (Hq : (0 <= 6 <= 100)%Z) by lia.
  assert (Hne : lower (strip (L "Eggs")) <> []).
  { vm_compute. discriminate. }
  exact (modify_item_sets sample_list (L "Eggs") 6 [] sample_list_ok Hq Hne).
Defined.

Lemma remove_item_effect_witness :
  exists table',
    Main._remove_item sample_list (L "eggs") 0 = Main.Ok (table', Main.Removed 12 0) /\
    find_item (L "eggs") table' = None.
Proof.
  destruct (remove_item_effect sample_list (L "eggs") 0 sample_list_ok)
    as [table' [Hrun [Hq _]]].
  exists table'.
  assert (E : quantity_of (lower (strip (L "eggs"))) table' = 0%Z).
  { rewrite Hq. vm_compute. reflexivity. }
  split.
  - rewrite Hrun, E. vm_compute. reflexivity.
  - unfold Main._remove_item in Hrun. vm_compute in Hrun.
    injection Hrun as Ht _. rewrite <- Ht. vm_compute. reflexivity.
Defined.

Lemma upsert_then_remove_witness :
  exists table',
    Main._upsert_item sample_products sample_list (L "Toothpaste") 2 (L "hygiene")
    = Main.Ok table' /\
    Main._remove_item table' (L "Toothpaste") 2 = Main.Ok (sample_list, Main.Removed 2 0).
Proof.
  apply (upsert_then_remove sample_products sample_list (L "Toothpaste") 2 (L "hygiene")
           sample_list_ok sample_products_named).
  - lia.
  - vm_compute. discriminate.
  - vm_compute. reflexivity.
Defined.

Lemma sample_history_ok : history_ok sample_history.
Proof. constructor; [intros [] | constructor]. Defined.

Lemma touch_history_counts_witness :
  exists history',
    Main._touch_history sample_history (L "Milk") (L "search") = Main.Ok history' /\
    searches (L "milk") history' = 2%Z /\
    purchases (L "milk") history' = 4%Z.
Proof.
  destruct (touch_history_counts sample_history (L "Milk") (L "search") sample_history_ok)
    as [history' [Hrun [_ [Hp [Hs _]]]]].
  exists history'. split; [exact Hrun|]. split.
  - change (L "milk") with (lower (strip (L "Milk"))) at 1.
    rewrite Hs. vm_compute. reflexivity.
  - change (L "milk") with (lower (strip (L "Milk"))) at 1.
    rewrite Hp. vm_compute. reflexivity.
Defined.

(** ** The endpoints *)

Section EndpointFacts.
Import Main.

Lemma upsert_item_list_ok (products : list SearchService.Product)
    (table : list Models.ShoppingItem) (name : str) (quantity : Z) (category : str)
    (table' : list Models.ShoppingItem) :
  list_ok table ->
  _upsert_item products table name quantity category = Ok table' ->
  list_ok table'.
Proof.
  intros Hok. unfold _upsert_item.
  destruct ((quantity <=? 0)%Z || (100 <? quantity)%Z); [discriminate|].
  set (norm := lower (strip name)).
  destruct (SearchService.is_empty norm) eqn:He; [discriminate|].
  rewrite (select_item table norm (proj1 Hok)).
  destruct (find_item norm table) as [old|] eqn:Hold.
  - intro H. injection H as <-.
    apply list_ok_update; [reflexivity | | exact Hok].
    intros r _ _ Hr. cbn [Models.quantity set_category set_quantity]. lia.
  - destruct (lookup_product norm None products) as [m|e]; [|discriminate].
    unfold add_row. cbn [Models.name]. rewrite (existsb_name_is norm table Hold).
    intro H. injection H as <-.
    destruct Hok as [Hnd Hall]. split.
    + rewrite map_app. cbn [map Models.name].
      apply NoDup_snoc; [exact Hnd|]. now apply find_item_absent.
    + apply Forall_app. split; [exact Hall|]. constructor; [|constructor].
      cbn [Models.name Models.quantity]. split.
      * intro E. apply is_empty_nil in E. congruence.
      * split; [apply norm_fixed | lia].
Qed.

Lemma modify_item_list_ok (table : list Models.ShoppingItem) (name : str) (quantity : Z)
    (category : str) (table' : list Models.ShoppingItem) :
  list_ok table ->
  _modify_item table name quantity category = Ok table' ->
  list_ok table'.
Proof.
  intros Hok. unfold _modify_item.
  destruct (Z.ltb_spec quantity 0) as [Hlt | Hge]; [discriminate|].
  destruct ((100 <? quantity)%Z); [discriminate|]. cbn [orb].
  set (norm := lower (strip name)).
  destruct (SearchService.is_empty norm); [discriminate|].
  rewrite (select_item table norm (proj1 Hok)).
  destruct (find_item norm table) as [old|]; [|discriminate].
  destruct (Z.eqb_spec quantity 0) as [Hz | Hnz]; intro H; injection H as <-.
  - now apply list_ok_delete.
  - apply list_ok_update; [| | exact Hok].
    + intro r. now destruct (SearchService.is_empty category).
    + intros r _ _ _. destruct (SearchService.is_empty category);
        cbn [Models.quantity set_category set_quantity]; lia.
Qed.

Lemma remove_item_list_ok (table : list Models.ShoppingItem) (name : str) (quantity : Z)
    (table' : list Models.ShoppingItem) (report : removal) :
  list_ok table ->
  _remove_item table name quantity = Ok (table', report) ->
  list_ok table'.
Proof.
  intros Hok. unfold _remove_item.
  set (norm := lower (strip name)).
  destruct (SearchService.is_empty norm).
  { intro H. injection H as <- _. exact Hok. }
  rewrite (select_item table norm (proj1 Hok)).
  destruct (find_item norm table) as [old|] eqn:Hold.
  2:{ intro H. injection H as <- _. exact Hok. }
  destruct ((0 <? quantity)%Z && (quantity <? Models.quantity old)%Z) eqn:Hc;
    intro H; injection H as <- _.
  - apply list_ok_update; [reflexivity | | exact Hok].
    intros r Hr Hname _. cbn [Models.quantity set_quantity].
    rewrite (find_item_unique norm table old r (proj1 Hok) Hold Hr Hname).
    apply andb_true_iff in Hc as [_ H1]. apply Z.ltb_lt in H1. lia.
  - now apply list_ok_delete.
Qed.

(** Recording an interaction on a well-formed history returns a well-formed
    history in which the item has one more purchase or search. *)
Lemma touch_history_run (history : list Models.UserHistory) (item_name action_type : str) :
  history_ok history ->
  exists history',
    _touch_history history item_name action_type = Ok history' /\
    history_ok history' /\
    (normal_name item_name <> [] ->
     purchases (normal_name item_name) history'
     = (purchases (normal_name item_name) history
        + (if str_eqb action_type (L "purchase") then 1 else 0))%Z /\
     searches (normal_name item_name) history'
     = (searches (normal_name item_name) history
        + (if str_eqb action_type (L "purchase") then 0 else 1))%Z).
Proof.
  intros Hok.
  unfold _touch_history, purchases, searches, find_history, history_is, normal_name.
  set (norm := lower (strip item_name)).
  destruct (SearchService.is_empty norm) eqn:He.
  { exists history. split; [reflexivity|]. split; [exact Hok|].
    intro Hne. apply is_empty_nil in He. contradiction. }
  rewrite (filter_key_unique _ Models.item_name norm history Hok).
  set (touch := fun r : Models.UserHistory =>
                  if str_eqb action_type (L "purchase")
                  then Models.mkUserHistory (Models.item_name r)
                         (Models.purchase_count r + 1) (Models.search_count r)
                  else Models.mkUserHistory (Models.item_name r)
                         (Models.purchase_count r) (Models.search_count r + 1)).
  assert (Hkey : forall r, Models.item_name (touch r) = Models.item_name r).
  { intro r. subst touch. cbn beta. now destruct (str_eqb action_type (L "purchase")). }
  destruct (find (fun r => str_eqb (Models.item_name r) norm) history) as [old|] eqn:Hold;
    cbn [scalar_one_or_none].
  - exists (map (fun r => if str_eqb (Models.item_name r) norm then touch r else r) history).
    split; [reflexivity|].
    pose proof (find_key_update _ Models.item_name norm norm touch history Hkey) as Hsame.
    rewrite Hold in Hsame. cbn [option_map] in Hsame.
    destruct (find_key_some _ Models.item_name norm history old Hold) as [_ Eold].
    rewrite Eold, str_eqb_refl in Hsame.
    split.
    + unfold history_ok.
      now rewrite (map_key_update _ Models.item_name norm touch history Hkey).
    + intros _. rewrite Hsame. subst touch. cbn beta.
      destruct (str_eqb action_type (L "purchase"));
        cbn [Models.purchase_count Models.search_count]; split; lia.
  - eexists. split; [reflexivity|].
    assert (Hrow : Models.item_name
                     (if str_eqb action_type (L "purchase")
                      then Models.mkUserHistory norm 1 0
                      else Models.mkUserHistory norm 0 1) = norm).
    { now destruct (str_eqb action_type (L "purchase")). }
    split.
    + unfold history_ok. rewrite map_app. cbn [map]. rewrite Hrow.
      apply NoDup_snoc; [exact Hok|].
      now apply (find_key_none _ Models.item_name).
    + intros _. rewrite (find_key_app _ Models.item_name), Hold, Hrow, str_eqb_refl.
      now destruct (str_eqb action_type (L "purchase")).
Qed.

(** X24: the endpoint [modify_item] never takes an item off the list:
    whenever it returns, the list has the same names in the same order, and
    the quantity it was given was at least 1 -- the schema of the request
    rejects the quantity 0 for which the endpoint would delete. *)
Theorem modify_item_never_deletes :
  forall table item quantity table',
    modify_item table item quantity = Ok table' ->
    map Models.name table' = map Models.name table /\ (1 <= quantity <= 100)%Z.
Proof.
  intros table item quantity table'. unfold modify_item.
  destruct ((1 <=? List.length item)%nat && (List.length item <=? 120)%nat
            && (1 <=? quantity)%Z && (quantity <=? 100)%Z) eqn:Hvalid;
    cbn [negb]; [|discriminate].
  apply andb_true_iff in Hvalid as [Hvalid Hle].
  apply andb_true_iff in Hvalid as [_ Hge].
  apply Z.leb_le in Hle, Hge.
  destruct (SearchService.is_empty (lower (strip item))); [discriminate|].
  destruct ((quantity <? 0)%Z || (100 <? quantity)%Z); [discriminate|].
  destruct (scalar_one_or_none _) as [[existing|]|e]; try discriminate.
  destruct (Z.eqb_spec quantity 0) as [Hz | _]; [lia|].
  intro H. injection H as <-. split; [|lia].
  apply (map_key_update _ Models.name). reflexivity.
Qed.

(** The answers of [process_voice] that carry no list. *)
Lemma early_answer (db : Db) (r : VoiceResponse) :
  list_ok (shopping_items db) -> history_ok (user_history db) ->
  success r = false -> error r <> None ->
  list_ok (shopping_items (fst (db, r))) /\
  history_ok (user_history (fst (db, r))) /\
  (success (snd (db, r)) = true <-> error (snd (db, r)) = None) /\
  (success (snd (db, r)) = true -> items (snd (db, r)) = shopping_items (fst (db, r))).
Proof.
  intros Hl Hh Hs He. cbn [fst snd]. split; [exact Hl|]. split; [exact Hh|].
  rewrite Hs. split; [split; [discriminate | contradiction] | discriminate].
Qed.

Lemma respond_answer (w : World) (db : Db) (c : ParsedVoiceCommand) (ok : bool)
    (err : option failure) (found : list SearchService.Product) :
  list_ok (shopping_items db) -> history_ok (user_history db) ->
  (ok = true <-> err = None) ->
  list_ok (shopping_items (fst (respond w db c ok err found))) /\
  history_ok (user_history (fst (respond w db c ok err found))) /\
  (success (snd (respond w db c ok err found)) = true
   <-> error (snd (respond w db c ok err found)) = None) /\
  (success (snd (respond w db c ok err found)) = true ->
   items (snd (respond w db c ok err found))
   = shopping_items (fst (respond w db c ok err found))).
Proof.
  intros Hl Hh Hiff. unfold respond. cbn [fst snd success error items].
  split; [exact Hl|]. split; [exact Hh|]. split; [exact Hiff | reflexivity].
Qed.

(** X25: whatever the request and the world, [process_voice] keeps the
    shopping list and the history well-formed; its answer reports success
    exactly when it carries no error, and a successful answer carries the
    list as it is stored. *)
Theorem process_voice_keeps_well_formed :
  forall w db text language,
    list_ok (shopping_items db) ->
    history_ok (user_history db) ->
    list_ok (shopping_items (fst (process_voice w db text language))) /\
    history_ok (user_history (fst (process_voice w db text language))) /\
    (success (snd (process_voice w db text language)) = true
     <-> error (snd (process_voice w db text language)) = None) /\
    (success (snd (process_voice w db text language)) = true ->
     items (snd (process_voice w db text language))
     = shopping_items (fst (process_voice w db text language))).
Proof.
  intros w db text language Hl Hh. unfold process_voice.
  destruct (Parser.parse_voice_command (parser_env w) text language) as [c|].
  2:{ apply early_answer; [exact Hl | exact Hh | reflexivity | discriminate]. }
  cbv zeta.
  destruct (str_eqb (action c) (L "invalid")).
  { apply early_answer; [exact Hl | exact Hh | reflexivity | discriminate]. }
  destruct (str_eqb (action c) (L "add")).
  { destruct (product_names (products w)) as [names|e].
    2:{ apply early_answer; [exact Hl | exact Hh | reflexivity | discriminate]. }
    destruct (_upsert_item (products w) (shopping_items db) (item c) (quantity c)
                (category c)) as [table|e] eqn:Hup.
    - cbn [user_history shopping_items].
      destruct (touch_history_run (user_history db) (item c) (L "purchase") Hh)
        as [h' [-> [Hh' _]]].
      apply respond_answer; cbn [shopping_items user_history].
      + exact (upsert_item_list_ok _ _ _ _ _ _ Hl Hup).
      + exact Hh'.
      + split; reflexivity.
    - destruct e;
        try (apply early_answer; [exact Hl | exact Hh | reflexivity | discriminate]).
      destruct (touch_history_run (user_history db) (item c) (L "purchase") Hh)
        as [h' [-> [Hh' _]]].
      apply respond_answer; cbn [shopping_items user_history].
      + exact Hl.
      + exact Hh'.
      + split; discriminate. }
  destruct (str_eqb (action c) (L "modify")).
  { destruct (_modify_item (shopping_items db) (item c) (quantity c) (category c))
      as [table|e] eqn:Hmod.
    - apply respond_answer; cbn [shopping_items user_history].
      + exact (modify_item_list_ok _ _ _ _ _ Hl Hmod).
      + exact Hh.
      + split; reflexivity.
    - destruct e; apply early_answer; try exact Hl; try exact Hh;
        try reflexivity; discriminate. }
  destruct (str_eqb (action c) (L "remove")).
  { destruct (_remove_item (shopping_items db) (item c) (quantity c))
      as [[table report]|e] eqn:Hrem.
    2:{ apply early_answer; [exact Hl | exact Hh | reflexivity | discriminate]. }
    pose proof (remove_item_list_ok _ _ _ _ _ Hl Hrem) as Hl'.
    destruct report; apply respond_answer; cbn [shopping_items user_history];
      try exact Hl'; try exact Hh; split; try reflexivity; discriminate. }
  destruct (str_eqb (action c) (L "search")).
  { destruct (touch_history_run (user_history db) (item c) (L "search") Hh)
      as [h' [-> [Hh' _]]].
    apply respond_answer; cbn [shopping_items user_history];
      [exact Hl | exact Hh' | split; reflexivity]. }
  apply early_answer; [exact Hl | exact Hh | reflexivity | discriminate].
Qed.

Lemma product_names_named (products : list SearchService.Product) :
  named_products products -> exists names, product_names products = Ok names.
Proof.
  induction 1 as [|p rest Hp _ [names IH]]; cbn [product_names].
  - now exists [].
  - destruct (SearchService.p_name p) as [n|]; [|contradiction].
    rewrite IH. now eexists.
Qed.


Lemma upsert_item_blank (products : list SearchService.Product)
    (table : list Models.ShoppingItem) (name : str) (quantity : Z) (category : str) :
  (1 <= quantity <= 100)%Z ->
  normal_name name = [] ->
  _upsert_item products table name quantity category
  = Raise (HTTPException 400 (L "No item detected in voice command.")).
Proof.
  intros Hq Hblank. unfold _upsert_item.
  destruct (Z.leb_spec quantity 0) as [Hle | _]; [lia|].
  destruct (Z.ltb_spec 100 quantity) as [Hlt | _]; [lia|]. cbn [orb].
  unfold normal_name in Hblank. now rewrite Hblank.
Qed.

Lemma upsert_item_quantity (products : list SearchService.Product)
    (table : list Models.ShoppingItem) (name : str) (quantity : Z) (category : str) :
  list_ok table ->
  named_products products ->
  (1 <= quantity <= 100)%Z ->
  normal_name name <> [] ->
  exists table',
    _upsert_item products table name quantity category = Ok table' /\
    quantity_of (normal_name name) table'
    = (quantity_of (normal_name name) table + quantity)%Z.
Proof.
  intros Hok Hnamed Hq Hne. unfold normal_name in *. unfold _upsert_item.
  destruct (Z.leb_spec quantity 0) as [Hle | _]; [lia|].
  destruct (Z.ltb_spec 100 quantity) as [Hlt | _]; [lia|]. cbn [orb].
  set (norm := lower (strip name)) in *.
  destruct (SearchService.is_empty norm) eqn:He.
  { apply is_empty_nil in He. contradiction. }
  rewrite (select_item table norm (proj1 Hok)).
  replace (Z.max 1 quantity) with quantity by lia.
  unfold quantity_of.
  destruct (find_item norm table) as [old|] eqn:Hold.
  - match goal with |- context [update_named norm ?g table] => set (f := g) end.
    assert (Hf : forall r, Models.name (f r) = Models.name r) by reflexivity.
    eexists. split; [reflexivity|].
    now rewrite (find_item_update_same norm f table old Hf Hold).
  - destruct (lookup_product_named norm products Hnamed None) as [m ->].
    unfold add_row. cbn [Models.name]. rewrite (existsb_name_is norm table Hold).
    eexists. split; [reflexivity|].
    unfold find_item, name_is. rewrite (find_key_app _ Models.name).
    fold (name_is norm). fold (find_item norm table).
    rewrite Hold. cbn [Models.name]. rewrite str_eqb_refl. cbn [Models.quantity]. lia.
Qed.

(** Entering the branch of [process_voice] for a parsed action. *)
Ltac enter_branch Hparse Haction :=
  unfold process_voice; rewrite Hparse; cbv zeta; rewrite Haction;
  repeat match goal with
         | |- context [str_eqb (L ?a) (L ?b)] =>
             let v := eval vm_compute in (str_eqb (L a) (L b)) in
             change (str_eqb (L a) (L b)) with v
         end;
  cbv iota.


(** X27: an [add] command in which no item is found (quantity between 1 and
    100) is not answered with a validation error: the exception of
    [_upsert_item], status 400, reaches the outer handler, and the answer is
    an internal error that carries neither the parsed command nor the list.
    The database is left as it is. *)
Theorem process_voice_add_without_item :
  forall w db text language c,
    named_products (products w) ->
    Parser.parse_voice_command (parser_env w) text language = Returned c ->
    action c = L "add" ->
    (1 <= quantity c <= 100)%Z ->
    normal_name (item c) = [] ->
    process_voice w db text language
    = (db,
       mkVoiceResponse false
         (Some (INTERNAL_ERROR (HTTPException 400 (L "No item detected in voice command."))))
         None [] no_suggestions []).
Proof.
  intros w db text language c Hnamed Hparse Hadd Hq Hblank.
  enter_branch Hparse Hadd.
  destruct (product_names_named _ Hnamed) as [names ->].
  rewrite (upsert_item_blank (products w) (shopping_items db) (item c) (quantity c)
             (category c) Hq Hblank).
  reflexivity.
Qed.

(** X28: an [add] command with an item and a quantity between 1 and 100, on
    a well-formed database and a catalog whose products are all named,
    succeeds: the answer carries the command and the stored list, the list
    holds that many more units of the item under its normal name, and the
    history counts one more purchase of it. *)
Theorem process_voice_add :
  forall w db text language c,
    list_ok (shopping_items db) ->
    history_ok (user_history db) ->
    named_products (products w) ->
    Parser.parse_voice_command (parser_env w) text language = Returned c ->
    action c = L "add" ->
    (1 <= quantity c <= 100)%Z ->
    normal_name (item c) <> [] ->
    success (snd (process_voice w db text language)) = true /\
    error (snd (process_voice w db text language)) = None /\
    parsed (snd (process_voice w db text language)) = Some c /\
    items (snd (process_voice w db text language))
    = shopping_items (fst (process_voice w db text language)) /\
    quantity_of (normal_name (item c))
      (shopping_items (fst (process_voice w db text language)))
    = (quantity_of (normal_name (item c)) (shopping_items db) + quantity c)%Z /\
    purchases (normal_name (item c)) (user_history (fst (process_voice w db text language)))
    = (purchases (normal_name (item c)) (user_history db) + 1)%Z.
Proof.
  intros w db text language c Hl Hh Hnamed Hparse Hadd Hq Hne.
  enter_branch Hparse Hadd.
  destruct (product_names_named _ Hnamed) as [names ->].
  destruct (upsert_item_quantity (products w) (shopping_items db) (item c) (quantity c)
              (category c) Hl Hnamed Hq Hne) as [table' [-> Hquantity]].
  cbn [user_history shopping_items].
  destruct (touch_history_run (user_history db) (item c) (L "purchase") Hh)
    as [h' [-> [_ Hcount]]].
  destruct (Hcount Hne) as [Hp _].
  unfold respond. cbn [fst snd success error parsed items shopping_items user_history].
  repeat split; [exact Hquantity | exact Hp].
Qed.

(** X29: a [search] command never changes the shopping list; it succeeds,
    its answer carries the products [SearchService.search] finds for the
    item and the filters of the command, and the history counts one more
    search of the item when the item is not blank. *)
Theorem process_voice_search :
  forall w db text language c,
    history_ok (user_history db) ->
    Parser.parse_voice_command (parser_env w) text language = Returned c ->
    action c = L "search" ->
    shopping_items (fst (process_voice w db text language)) = shopping_items db /\
    success (snd (process_voice w db text language)) = true /\
    search_results (snd (process_voice w db text language))
    = SearchService.search (get_close_matches w) (lower_codes w) (products w) (item c)
        (Schemas.filters c) /\
    (normal_name (item c) <> [] ->
     searches (normal_name (item c)) (user_history (fst (process_voice w db text language)))
     = (searches (normal_name (item c)) (user_history db) + 1)%Z).
Proof.
  intros w db text language c Hh Hparse Hsearch.
  enter_branch Hparse Hsearch.
  destruct (touch_history_run (user_history db) (item c) (L "search") Hh)
    as [h' [-> [_ Hcount]]].
  unfold respond. cbn [fst snd success search_results shopping_items user_history].
  repeat split. intro Hne. now destruct (Hcount Hne) as [_ Hs].
Qed.

(** X30: when the voice text of a search request is a [search] command with
    an item, the endpoint [search] takes query and filters from the command
    alone: the query text, the brand and the price ceiling of the request
    play no part in the answer. *)
Theorem search_voice_overrides_form :
  forall w voice_text c,
    strip voice_text <> [] ->
    Parser.parse_voice_command (parser_env w) voice_text None = Returned c ->
    action c = L "search" ->
    item c <> [] ->
    forall query_text brand price_max query_text' brand' price_max',
      Main.search w query_text voice_text brand price_max
      = Main.search w query_text' voice_text brand' price_max'.
Proof.
  intros w voice_text c Hvoice Hparse Hsearch Hitem
    query_text brand price_max query_text' brand' price_max'.
  unfold Main.search. cbv zeta.
  destruct (SearchService.is_empty (strip voice_text)) eqn:He.
  { apply is_empty_nil in He. contradiction. }
  cbn [negb]. rewrite Hparse, Hsearch.
  change (str_eqb (L "search") (L "search")) with true. cbv iota.
  unfold or_else. destruct (item c) as [|ch rest]; [contradiction|]. reflexivity.
Qed.

End EndpointFacts.

Lemma modify_item_never_deletes_witness :
  exists table',
    Main.modify_item sample_list (L "Eggs") 6 = Main.Ok table' /\
    map Models.name table' = map Models.name sample_list /\ (1 <= 6 <= 100)%Z.
Proof.
  eexists. split; [vm_compute; reflexivity|].
  apply (modify_item_never_deletes sample_list (L "Eggs") 6).
  vm_compute. reflexivity.
Defined.

Lemma process_voice_keeps_well_formed_witness :
  list_ok (Main.shopping_items (fst (Main.process_voice sample_world sample_db
                                       (L "remove milk") None))) /\
  history_ok (Main.user_history (fst (Main.process_voice sample_world sample_db
                                        (L "remove milk") None))) /\
  (Main.success (snd (Main.process_voice sample_world sample_db (L "remove milk") None))
   = true
   <-> Main.error (snd (Main.process_voice sample_world sample_db (L "remove milk") None))
       = None) /\
  (Main.success (snd (Main.process_voice sample_world sample_db (L "remove milk") None))
   = true ->
   Main.items (snd (Main.process_voice sample_world sample_db (L "remove milk") None))
   = Main.shopping_items (fst (Main.process_voice sample_world sample_db
                                 (L "remove milk") None))).
Proof.
  exact (process_voice_keeps_well_formed sample_world sample_db (L "remove milk") None
           sample_list_ok sample_history_ok).
Defined.


Lemma process_voice_add_without_item_witness :
  Main.process_voice sample_world sample_db (L "add") None
  = (sample_db,
     Main.mkVoiceResponse false
       (Some (Main.INTERNAL_ERROR
                (Main.HTTPException 400 (L "No item detected in voice command."))))
       None [] Main.no_suggestions []).
Proof.
  assert (Hparse : Parser.parse_voice_command (Main.parser_env sample_world) (L "add") None
                   = Returned (mkParsedVoiceCommand (L "add") [] 1 (L "other")
                                 (mkFilters [] 0%Q []) (L "en") (L "add"))).
  { vm_compute. reflexivity. }
  assert (Hq : (1 <= 1 <= 100)%Z) by lia.
  exact (process_voice_add_without_item sample_world sample_db (L "add") None _
           sample_products_named Hparse eq_refl Hq eq_refl).
Defined.

Lemma process_voice_add_witness :
  Main.success (snd (Main.process_voice sample_world sample_db (L "buy 2 milk") None))
  = true /\
  quantity_of (L "milk")
    (Main.shopping_items (fst (Main.process_voice sample_world sample_db
                                 (L "buy 2 milk") None)))
  = 4%Z /\
  purchases (L "milk")
    (Main.user_history (fst (Main.process_voice sample_world sample_db
                               (L "buy 2 milk") None)))
  = 5%Z.
Proof.
  assert (Hparse : Parser.parse_voice_command (Main.parser_env sample_world)
                     (L "buy 2 milk") None
                   = Returned (mkParsedVoiceCommand (L "add") (L "milk") 2 (L "dairy")
                                 (mkFilters [] 0%Q []) (L "en") (L "buy 2 milk"))).
  { vm_compute. reflexivity. }
  assert (Hq : (1 <= 2 <= 100)%Z) by lia.
  assert (Hne : normal_name (L "milk") <> []).
  { vm_compute. discriminate. }
  destruct (process_voice_add sample_world sample_db (L "buy 2 milk") None _
              sample_list_ok sample_history_ok sample_products_named Hparse eq_refl Hq Hne)
    as [Hs [_ [_ [_ [Hquantity Hpurchases]]]]].
  split; [exact Hs|]. split; [exact Hquantity | exact Hpurchases].
Defined.

Lemma process_voice_search_witness :
  Main.shopping_items (fst (Main.process_voice sample_world sample_db
                              (L "search for milk") None))
  = sample_list /\
  Main.search_results (snd (Main.process_voice sample_world sample_db
                              (L "search for milk") None))
  = [milk_amul; milk_organic] /\
  searches (L "milk")
    (Main.user_history (fst (Main.process_voice sample_world sample_db
                               (L "search for milk") None)))
  = 2%Z.
Proof.
  assert (Hparse : Parser.parse_voice_command (Main.parser_env sample_world)
                     (L "search for milk") None
                   = Returned (mkParsedVoiceCommand (L "search") (L "milk") 1 (L "dairy")
                                 (mkFilters [] 0%Q []) (L "en") (L "search for milk"))).
  { vm_compute. reflexivity. }
  assert (Hne : normal_name (L "milk") <> []).
  { vm_compute. discriminate. }
  destruct (process_voice_search sample_world sample_db (L "search for milk") None _
              sample_history_ok Hparse eq_refl)
    as [Hlist [_ [Hresults Hsearches]]].
  split; [exact Hlist|]. split.
  - rewrite Hresults. vm_compute. reflexivity.
  - exact (Hsearches Hne).
Defined.

Lemma search_voice_overrides_form_witness :
  Main.search sample_world (L "eggs") (L "search for milk") (L "Colgate") (1 # 1)%Q
  = Main.search sample_world [] (L "search for milk") [] 0%Q.
Proof.
  assert (Hvoice : strip (L "search for milk") <> []).
  { vm_compute. discriminate. }
  assert (Hparse : Parser.parse_voice_command (Main.parser_env sample_world)
                     (L "search for milk") None
                   = Returned (mkParsedVoiceCommand (L "search") (L "milk") 1 (L "dairy")
                                 (mkFilters [] 0%Q []) (L "en") (L "search for milk"))).
  { vm_compute. reflexivity. }
  assert (Hitem : L "milk" <> []).
  { vm_compute. discriminate. }
  exact (search_voice_overrides_form sample_world (L "search for milk") _ Hvoice Hparse
           eq_refl Hitem (L "eggs") (L "Colgate") (1 # 1)%Q [] [] 0%Q).
Defined.
